(** * SIKE impurity model: states, transitions, integrity checks, positions

    A shallow embedding of [sike/impurity.py] (class [Impurity]) and the
    properties of its construction pipeline.

    Conventions of the embedding:
    - Python objects whose dynamic type matters to the code (the configuration
      attributes, which [__init__] stores with a trailing comma) are values of
      [Py.value], with Python's truthiness, [==], [in] and [is] written out;
    - Python [int]s are [Z]; list positions are [nat];
    - the two energy grids compared by the grid check are arrays of binary64
      numbers ([float], with IEEE rounding, infinities and NaN); the other
      Python [float]s and numpy [float64]s (energies, weights, densities) are
      exact rationals [Q] (finite values, no rounding);
    - a method is a function from the object before the call to a [result]:
      the object after the call, or the exception raised;
    - numpy arrays are lists, a Python [dict] is a [gmap]. *)

From Stdlib Require Import ZArith QArith Lia String.
From Stdlib Require Import Floats.PrimFloat Floats.SpecFloat Floats.FloatOps Floats.FloatAxioms.
From stdpp Require Import base option list gmap strings.

Set Default Proof Using "Type".
Set Warnings "-register-all,-inexact-float".
Local Open Scope Z_scope.

(** ** Exceptions and results *)

Inductive exn :=
  | ValueError (msg : string)
  | KeyError (key : Z)
  | NameKeyError (key : string)
  | IndexError
  | TypeError
  | ZeroDivisionError.

Inductive result (A : Type) :=
  | Ret (a : A)
  | Raise (e : exn).
Arguments Ret {A} a.
Arguments Raise {A} e.

#[global] Instance result_ret : MRet result := @Ret.
#[global] Instance result_bind : MBind result := λ A B f m,
  match m with
  | Ret a => f a
  | Raise e => Raise e
  end.

Definition from_option {A} (e : exn) (o : option A) : result A :=
  match o with
  | Some a => Ret a
  | None => Raise e
  end.

(** ** Python values *)

Module Py.

Inductive value :=
  | VNone
  | VBool (b : bool)
  | VInt (n : Z)
  | VFloat (q : Q)
  | VList (l : list value)
  | VTuple (l : list value).

(** [bool] is a subclass of [int]; numbers compare by value. *)
Definition as_num (v : value) : option Q :=
  match v with
  | VBool b => Some (if b then 1%Q else 0%Q)
  | VInt n => Some (inject_Z n)
  | VFloat q => Some q
  | _ => None
  end.

(** [a == b] *)
Fixpoint eq (a b : value) {struct a} : bool :=
  match a, b with
  | VNone, VNone => true
  | VList xs, VList ys | VTuple xs, VTuple ys =>
      (fix go (xs ys : list value) {struct xs} : bool :=
         match xs, ys with
         | [], [] => true
         | x :: xs', y :: ys' => eq x y && go xs' ys'
         | _, _ => false
         end) xs ys
  | _, _ =>
      match as_num a, as_num b with
      | Some x, Some y => Qeq_bool x y
      | _, _ => false
      end
  end.

(** [bool(v)]: the truth value used by [if v:] and [a and v]. *)
Definition truthy (v : value) : bool :=
  match v with
  | VNone => false
  | VBool b => b
  | VInt n => negb (n =? 0)
  | VFloat q => negb (Qeq_bool q 0)
  | VList l | VTuple l => negb (length l =? 0)%nat
  end.

(** [v is None], [v is False] *)
Definition is_None (v : value) : bool :=
  match v with VNone => true | _ => false end.
Definition is_False (v : value) : bool :=
  match v with VBool false => true | _ => false end.

(** [x in c]: membership in a list or tuple compares with [==]; any other
    right operand used here is not iterable. *)
Definition contains (c x : value) : result bool :=
  match c with
  | VList l | VTuple l => Ret (existsb (eq x) l)
  | _ => Raise TypeError
  end.

(** [v * x] for a numpy float [x].  A number is multiplied.  For a list or
    tuple the numpy scalar gives way to sequence repetition, which accepts
    only an integer count: "can't multiply sequence by non-int of type
    'numpy.float64'". *)
Definition mul_np_float (v : value) (x : Q) : result Q :=
  match as_num v with
  | Some f => Ret (f * x)%Q
  | None => Raise TypeError
  end.

(** The numbers of a list or tuple, as numpy converts it to an array. *)
Fixpoint as_nums (l : list value) : result (list Q) :=
  match l with
  | [] => Ret []
  | v :: l' =>
      match as_num v, as_nums l' with
      | Some q, Ret qs => Ret (q :: qs)
      | _, _ => Raise TypeError
      end
  end.

Definition of_ints (l : list Z) : value := VList (VInt <$> l).
Definition of_opt_ints (o : option (list Z)) : value :=
  match o with
  | None => VNone
  | Some l => of_ints l
  end.

End Py.

(** ** numpy helpers *)

(** [a[k]] on a one-dimensional array: negative indices count from the end. *)
Definition np_getitem {A} (a : list A) (k : Z) : result A :=
  let n := Z.of_nat (length a) in
  if (0 <=? k) && (k <? n) then from_option IndexError (a !! Z.to_nat k)
  else if (- n <=? k) && (k <? 0) then from_option IndexError (a !! Z.to_nat (n + k))
  else Raise IndexError.

Definition Qlt_bool (x y : Q) : bool := negb (Qle_bool y x).

(** A binary operation on two one-dimensional arrays: elementwise, a
    length-one operand is broadcast. *)
Definition np_broadcast {A} (f : A → A → A) (a b : list A) : result (list A) :=
  if (length a =? length b)%nat then Ret (zip_with f a b)
  else match a, b with
       | [x], _ => Ret (f x <$> b)
       | _, [y] => Ret ((λ x, f x y) <$> a)
       | _, _ => Raise (ValueError "operands could not be broadcast together")
       end.

(** [v * a] for a numpy array [a]: a number scales the array, a list or tuple
    of numbers is converted to an array first. *)
Definition mul_np_array (v : Py.value) (a : list Q) : result (list Q) :=
  match v with
  | Py.VList l | Py.VTuple l => xs ← Py.as_nums l; np_broadcast Qmult xs a
  | _ => f ← from_option TypeError (Py.as_num v); Ret (Qmult f <$> a)
  end.

(** [np.argmin]: the first position of the smallest entry. *)
Fixpoint argmin_from (best_i : nat) (best : Q) (i : nat) (l : list Q) : nat :=
  match l with
  | [] => best_i
  | x :: l' =>
      if Qlt_bool x best then argmin_from i x (S i) l'
      else argmin_from best_i best (S i) l'
  end.

Definition np_argmin (l : list Q) : result nat :=
  match l with
  | [] => Raise (ValueError "attempt to get argmin of an empty sequence")
  | x :: l' => Ret (argmin_from 0 x 1 l')
  end.

(** [np.maximum] on binary64 numbers: a NaN operand is the result. *)
Definition np_maximum (x y : float) : float :=
  if PrimFloat.is_nan x then x
  else if PrimFloat.is_nan y then y
  else if PrimFloat.ltb x y then y else x.

(** [np.max] of a one-dimensional array of binary64 numbers: NaN if any entry
    is NaN. *)
Definition np_max (l : list float) : result float :=
  match l with
  | [] => Raise (ValueError "zero-size array to reduction operation maximum which has no identity")
  | x :: l' => Ret (foldl np_maximum x l')
  end.

(** ** The null-then-compact removal pattern

    [for i, x in enumerate(l): if cond(x): l[i] = None] followed by
    [l = [x for x in l if x is not None]].  The loop also reports how many
    entries it set to [None]. *)

Fixpoint null_where {A} (cond : A → result bool) (i : nat) (todo : list A)
    (l : list (option A)) (removed : nat) : result (list (option A) * nat) :=
  match todo with
  | [] => Ret (l, removed)
  | x :: rest =>
      b ← cond x;
      if b : bool then null_where cond (S i) rest (<[i:=None]> l) (S removed)
      else null_where cond (S i) rest l removed
  end.

Definition not_None {A} (l : list (option A)) : list A := omap (λ x, x) l.

(** ** States and transitions *)

Record State := mkState {
  State_id : Z;
  State_Z : Z;
  energy : Q;
  stat_weight : Q;
  ground : bool;
  iz_energy : Q;
  energy_from_gs : Q;
  pos : nat
}.

(** One entry of the levels file; [State(id=i, **level_dict)] copies it. *)
Record Level := mkLevel {
  level_Z : Z;
  level_energy : Q;
  level_stat_weight : Q
}.

Definition new_State (i : nat) (lv : Level) : State :=
  {| State_id := Z.of_nat i; State_Z := level_Z lv; energy := level_energy lv;
     stat_weight := level_stat_weight lv; ground := false; iz_energy := 0;
     energy_from_gs := 0; pos := 0 |}.

Record Transition := mkTransition {
  type : string;
  from_id : Z;
  to_id : Z;
  from_pos : nat;
  to_pos : nat;
  g_ratio : option Q
}.

(** One entry of [trans_dict[1:]]. *)
Record TransEntry := mkTransEntry {
  entry_type : string;
  entry_from_id : Z;
  entry_to_id : Z
}.

(** The transitions file: [trans_dict[0]["E_grid"]] and [trans_dict[1:]]. *)
Record TransFile := mkTransFile {
  E_grid : list float;
  entries : list TransEntry
}.

Inductive resolution := res_n | res_nl | res_nlj.

(** The atomic data directory, by element and resolution. *)
Record AtomData := mkAtomData {
  levels_json : string → resolution → result (list Level);
  transitions_json : string → resolution → result TransFile
}.

(** ** The impurity object *)

Record Impurity := mkImpurity {
  name : string;
  resolve_j : Py.value;
  resolve_l : Py.value;
  state_ids : Py.value;
  kinetic_electrons : Py.value;
  maxwellian_electrons : Py.value;
  saha_boltzmann_init : Py.value;
  fixed_fraction_init : Py.value;
  frac_imp_dens : Py.value;
  ionization : Py.value;
  autoionization : Py.value;
  emission : Py.value;
  radiative_recombination : Py.value;
  excitation : Py.value;
  T_norm : Q;
  n_norm : Q;
  nuc_chg : nat;
  num_Z : nat;
  longname : string;
  states : list State;
  tot_states : Z;
  transitions : list Transition;
  dens : option (list (list Q));
  dens_Max : option (list (list Q));
  num_P_states : nat;
  num_Q_states : nat
}.

Definition set_states (self : Impurity) (l : list State) : Impurity :=
  mkImpurity (name self) (resolve_j self) (resolve_l self) (state_ids self)
    (kinetic_electrons self) (maxwellian_electrons self) (saha_boltzmann_init self)
    (fixed_fraction_init self) (frac_imp_dens self) (ionization self)
    (autoionization self) (emission self) (radiative_recombination self)
    (excitation self) (T_norm self) (n_norm self) (nuc_chg self) (num_Z self)
    (longname self) l (tot_states self) (transitions self) (dens self)
    (dens_Max self) (num_P_states self) (num_Q_states self).

Definition set_tot_states (self : Impurity) (n : Z) : Impurity :=
  mkImpurity (name self) (resolve_j self) (resolve_l self) (state_ids self)
    (kinetic_electrons self) (maxwellian_electrons self) (saha_boltzmann_init self)
    (fixed_fraction_init self) (frac_imp_dens self) (ionization self)
    (autoionization self) (emission self) (radiative_recombination self)
    (excitation self) (T_norm self) (n_norm self) (nuc_chg self) (num_Z self)
    (longname self) (states self) n (transitions self) (dens self)
    (dens_Max self) (num_P_states self) (num_Q_states self).

Definition set_transitions (self : Impurity) (l : list Transition) : Impurity :=
  mkImpurity (name self) (resolve_j self) (resolve_l self) (state_ids self)
    (kinetic_electrons self) (maxwellian_electrons self) (saha_boltzmann_init self)
    (fixed_fraction_init self) (frac_imp_dens self) (ionization self)
    (autoionization self) (emission self) (radiative_recombination self)
    (excitation self) (T_norm self) (n_norm self) (nuc_chg self) (num_Z self)
    (longname self) (states self) (tot_states self) l (dens self)
    (dens_Max self) (num_P_states self) (num_Q_states self).

Definition set_dens (self : Impurity) (d : option (list (list Q))) : Impurity :=
  mkImpurity (name self) (resolve_j self) (resolve_l self) (state_ids self)
    (kinetic_electrons self) (maxwellian_electrons self) (saha_boltzmann_init self)
    (fixed_fraction_init self) (frac_imp_dens self) (ionization self)
    (autoionization self) (emission self) (radiative_recombination self)
    (excitation self) (T_norm self) (n_norm self) (nuc_chg self) (num_Z self)
    (longname self) (states self) (tot_states self) (transitions self) d
    (dens_Max self) (num_P_states self) (num_Q_states self).

Definition set_dens_Max (self : Impurity) (d : option (list (list Q))) : Impurity :=
  mkImpurity (name self) (resolve_j self) (resolve_l self) (state_ids self)
    (kinetic_electrons self) (maxwellian_electrons self) (saha_boltzmann_init self)
    (fixed_fraction_init self) (frac_imp_dens self) (ionization self)
    (autoionization self) (emission self) (radiative_recombination self)
    (excitation self) (T_norm self) (n_norm self) (nuc_chg self) (num_Z self)
    (longname self) (states self) (tot_states self) (transitions self) (dens self)
    d (num_P_states self) (num_Q_states self).

Definition set_PQ (self : Impurity) (p q : nat) : Impurity :=
  mkImpurity (name self) (resolve_j self) (resolve_l self) (state_ids self)
    (kinetic_electrons self) (maxwellian_electrons self) (saha_boltzmann_init self)
    (fixed_fraction_init self) (frac_imp_dens self) (ionization self)
    (autoionization self) (emission self) (radiative_recombination self)
    (excitation self) (T_norm self) (n_norm self) (nuc_chg self) (num_Z self)
    (longname self) (states self) (tot_states self) (transitions self) (dens self)
    (dens_Max self) p q.

Definition set_element (self : Impurity) (chg : nat) (long : string) : Impurity :=
  mkImpurity (name self) (resolve_j self) (resolve_l self) (state_ids self)
    (kinetic_electrons self) (maxwellian_electrons self) (saha_boltzmann_init self)
    (fixed_fraction_init self) (frac_imp_dens self) (ionization self)
    (autoionization self) (emission self) (radiative_recombination self)
    (excitation self) (T_norm self) (n_norm self) chg (chg + 1)%nat
    long (states self) (tot_states self) (transitions self) (dens self)
    (dens_Max self) (num_P_states self) (num_Q_states self).

(** Monadic loops: [for x in l: s = body(x, s)] and an indexed map. *)
Fixpoint for_each {A S} (body : A → S → result S) (l : list A) (s : S) : result S :=
  match l with
  | [] => Ret s
  | x :: l' => s' ← body x s; for_each body l' s'
  end.

Fixpoint imapM {A B} (f : nat → A → result B) (i : nat) (l : list A) : result (list B) :=
  match l with
  | [] => Ret []
  | x :: l' => y ← f i x; ys ← imapM f (S i) l'; Ret (y :: ys)
  end.

(** [{states[i].id: i for i in range(len(states))}]: later entries win. *)
Fixpoint id2pos_from (i : nat) (sts : list State) (m : gmap Z nat) : gmap Z nat :=
  match sts with
  | [] => m
  | s :: rest => id2pos_from (S i) rest (<[State_id s := i]> m)
  end.

Definition build_id2pos (sts : list State) : gmap Z nat := id2pos_from 0 sts ∅.

(** ** get_element_data *)

Definition nuc_chg_dict : gmap string nat :=
  list_to_map [("H", 1); ("He", 2); ("Li", 3); ("Be", 4); ("B", 5); ("C", 6);
               ("N", 7); ("O", 8); ("Ne", 10); ("Ar", 18); ("W", 74)]%nat.

Definition longname_dict : gmap string string :=
  list_to_map [("H", "Hydrogen"); ("He", "Helium"); ("Li", "Lithium");
               ("Be", "Beryllium"); ("B", "Boron"); ("C", "Carbon");
               ("N", "Nitrogen"); ("O", "Oxygen"); ("Ne", "Neon");
               ("Ar", "Argon"); ("W", "Tungsten")].

Definition get_element_data (self : Impurity) : result Impurity :=
  chg ← from_option (NameKeyError (name self)) (nuc_chg_dict !! name self);
  long ← from_option (NameKeyError (name self)) (longname_dict !! name self);
  Ret (set_element self chg long).

(** The file variant chosen by the [resolve_j] / [resolve_l] tests. *)
Definition resolution_of (self : Impurity) : resolution :=
  if Py.truthy (resolve_j self) then res_nlj
  else if Py.truthy (resolve_l self) then res_nl
  else res_n.

(** ** Collaborators that live outside impurity.py *)

(** Modelled from the spec: [core.get_associated_transitions], absent from the
    sources; "given a state identifier and the from/to identifier arrays of
    all transitions, returns the subset of transition indices touching that
    state". *)
Definition get_associated_transitions (state_id : Z) (from_ids to_ids : list Z) : list nat :=
  fst <$> filter (λ p, fst (snd p) = state_id ∨ snd (snd p) = state_id)
            (imap (λ i ft, (i, ft)) (zip from_ids to_ids)).

(** Modelled from the spec: [post_processing.gather_states], absent from the
    sources; the "constituent states" of ionization stage [Z]. *)
Definition gather_states (sts : list State) (Z_ : Z) : list State :=
  filter (λ s, State_Z s = Z_) sts.

(** Modelled from the spec: the transition classes of transition.py
    ([IzTrans], [AiTrans], [RRTrans], [EmTrans], [ExTrans]), absent from the
    sources; each builds a "typed Transition object" that keeps the entry's
    type tag and endpoint identifiers.  [set_sigma_deex] and [set_inv_data]
    attach the inverse-process data "derived from the statistical-weight
    ratio"; the ratio is what is recorded here. *)
Definition new_Transition (trans : TransEntry) : Transition :=
  {| type := entry_type trans; from_id := entry_from_id trans;
     to_id := entry_to_id trans; from_pos := 0; to_pos := 0; g_ratio := None |}.
Definition IzTrans := new_Transition.
Definition AiTrans := new_Transition.
Definition RRTrans := new_Transition.
Definition EmTrans := new_Transition.
Definition ExTrans := new_Transition.

Definition set_inverse_data (t : Transition) (r : Q) : Transition :=
  {| type := type t; from_id := from_id t; to_id := to_id t;
     from_pos := from_pos t; to_pos := to_pos t; g_ratio := Some r |}.
Definition set_sigma_deex := set_inverse_data.
Definition set_inv_data := set_inverse_data.

Section Model.

(** [State.equals] (atomic_state.py) and the equilibrium distributions of
    core.py are not part of the sources: they are parameters of the model. *)
Variable equals : State → State → bool.
Variable saha_dist : Q → Q → Q → Impurity → list Q.
Variable boltzmann_dist : Q → list Q → list Q → list Q.

(** ** init_ionization_energies *)

(** One round of the first loop: the ground state of stage [k]. *)
Definition find_ground_state (sts : list State) (k : nat)
    (acc : list Q * list Z) : result (list Q * list Z) :=
  let Z_states := filter (λ s, State_Z s = Z.of_nat k) sts in
  let energies := energy <$> Z_states in
  m ← np_argmin energies;
  gs ← from_option IndexError (Z_states !! m);
  match list_find (λ s, equals s gs = true) sts with
  | Some (i, _) => Ret (<[k := energy gs]> (fst acc), <[k := Z.of_nat i]> (snd acc))
  | None => Ret acc
  end.

(** One round of the second loop, on [self.states[i]]. *)
Definition mark_state (nZ : nat) (gs_energies : list Q) (gs_pos : list Z)
    (i : nat) (s : State) : result State :=
  let g := bool_decide (Z.of_nat i ∈ gs_pos) in
  iz ← (if State_Z s <? Z.of_nat nZ - 1
        then e ← np_getitem gs_energies (State_Z s + 1); Ret (e - energy s)%Q
        else Ret 0%Q);
  e0 ← np_getitem gs_energies (State_Z s);
  Ret {| State_id := State_id s; State_Z := State_Z s; energy := energy s;
         stat_weight := stat_weight s; ground := g; iz_energy := iz;
         energy_from_gs := (energy s - e0)%Q; pos := pos s |}.

Definition init_ionization_energies (self : Impurity) : result Impurity :=
  let nZ := num_Z self in
  gs ← for_each (find_ground_state (states self)) (seq 0 nZ)
         (replicate nZ 0%Q, replicate nZ 0);
  sts ← imapM (mark_state nZ (fst gs) (snd gs)) 0 (states self);
  Ret (set_states self sts).

(** ** init_states *)

(** Lines 189-194: keep only the user-specified states. *)
Definition keep_user_states (self : Impurity) (sts : list State) : result (list State) :=
  marked ← (if negb (Py.is_None (state_ids self))
            then r ← null_where
                       (λ s, b ← Py.contains (state_ids self) (Py.VInt (State_id s));
                             Ret (negb b))
                       0 sts (Some <$> sts) 0;
                 Ret (fst r)
            else Ret (Some <$> sts));
  Ret (not_None marked).

Definition init_states (atom : AtomData) (self : Impurity) : result Impurity :=
  levels_dict ← levels_json atom (name self) (resolution_of self);
  let all_states := imap new_State levels_dict in
  kept ← keep_user_states self all_states;
  let self := set_states self kept in
  let self := set_tot_states self (Z.of_nat (length (states self))) in
  init_ionization_energies self.

(** ** state_and_transition_checks *)

(** [Egrid - trans_Egrid] *)
Definition np_sub (a b : list float) : result (list float) :=
  np_broadcast PrimFloat.sub a b.

Definition grid_mismatch : exn :=
  ValueError "Energy grid is different from grid on which transitions evaluated. This will be handled in the future.".

(** Lines 335-339.  The comparison with a NaN maximum is false. *)
Definition check_grids (Egrid trans_Egrid : list float) : result unit :=
  d ← np_sub Egrid trans_Egrid;
  m ← np_max (PrimFloat.abs <$> d);
  if PrimFloat.ltb 1e-5 m then Raise grid_mismatch else Ret tt.

Definition is_orphan (trs : list Transition) (s : State) : bool :=
  (length (get_associated_transitions (State_id s) (from_id <$> trs) (to_id <$> trs)) =? 0)%nat.

Definition remove_orphaned_states (self : Impurity) : result Impurity :=
  r ← null_where (λ s, Ret (is_orphan (transitions self) s)) 0 (states self)
        (Some <$> states self) 0;
  let self := set_tot_states self (tot_states self - Z.of_nat (snd r)) in
  Ret (set_states self (not_None (fst r))).

Definition remove_states_above_ionization (self : Impurity) : result Impurity :=
  r ← (if Py.is_False (autoionization self)
       then null_where (λ s, Ret (Qlt_bool (iz_energy s) 0)) 0 (states self)
              (Some <$> states self) 0
       else Ret (Some <$> states self, 0%nat));
  let self := set_tot_states self (tot_states self - Z.of_nat (snd r)) in
  Ret (set_states self (not_None (fst r))).

Definition is_orphan_transition (ids : list Z) (t : Transition) : bool :=
  negb (bool_decide (from_id t ∈ ids)) || negb (bool_decide (to_id t ∈ ids)).

Definition remove_orphaned_transitions (self : Impurity) : result Impurity :=
  let ids := State_id <$> states self in
  r ← null_where (λ t, Ret (is_orphan_transition ids t)) 0 (transitions self)
        (Some <$> transitions self) 0;
  Ret (set_transitions self (not_None (fst r))).

Definition state_and_transition_checks (self : Impurity)
    (Egrid trans_Egrid : list float) : result Impurity :=
  _ ← check_grids Egrid trans_Egrid;
  self ← remove_orphaned_states self;
  self ← remove_states_above_ionization self;
  remove_orphaned_transitions self.

(** ** init_transitions *)

(** The body of the loop at lines 275-293: [None] stands for an entry that
    leaves its slot empty. *)
Definition create_transition (self : Impurity) (trans : TransEntry) : result (option Transition) :=
  skip ← (if negb (Py.is_None (state_ids self))
          then a ← Py.contains (state_ids self) (Py.VInt (entry_from_id trans));
               if negb a then Ret true
               else b ← Py.contains (state_ids self) (Py.VInt (entry_to_id trans));
                    Ret (negb b)
          else Ret false);
  Ret (if skip : bool then None
       else if String.eqb (entry_type trans) "ionization" && Py.truthy (ionization self)
       then Some (IzTrans trans)
       else if String.eqb (entry_type trans) "autoionization" && Py.truthy (autoionization self)
       then Some (AiTrans trans)
       else if String.eqb (entry_type trans) "radiative_recombination"
               && Py.truthy (radiative_recombination self)
       then Some (RRTrans trans)
       else if String.eqb (entry_type trans) "emission" && Py.truthy (emission self)
       then Some (EmTrans trans)
       else if String.eqb (entry_type trans) "excitation" && Py.truthy (excitation self)
       then Some (ExTrans trans)
       else None).

Fixpoint create_loop (self : Impurity) (i : nat) (todo : list TransEntry)
    (slots : list (option Transition)) : result (list (option Transition)) :=
  match todo with
  | [] => Ret slots
  | trans :: rest =>
      o ← create_transition self trans;
      create_loop self (S i) rest
        (match o with Some t => <[i := Some t]> slots | None => slots end)
  end.

(** Lines 271-296. *)
Definition create_transition_objects (self : Impurity) (trans_dict : TransFile)
    : result (list Transition) :=
  let num_transitions := S (length (entries trans_dict)) in
  slots ← create_loop self 0 (entries trans_dict) (replicate num_transitions None);
  Ret (not_None slots).

(** The statistical-weight ratio of the endpoints of [t]. *)
Definition stat_weight_ratio (sts : list State) (id2pos : gmap Z nat)
    (t : Transition) : result Q :=
  pf ← from_option (KeyError (from_id t)) (id2pos !! from_id t);
  sf ← from_option IndexError (sts !! pf);
  pt ← from_option (KeyError (to_id t)) (id2pos !! to_id t);
  st ← from_option IndexError (sts !! pt);
  if Qeq_bool (stat_weight st) 0 then Raise ZeroDivisionError
  else Ret (stat_weight sf / stat_weight st)%Q.

Definition attach_inverse (sts : list State) (id2pos : gmap Z nat) (tag : string)
    (trs : list Transition) : result (list Transition) :=
  imapM (λ _ t, if String.eqb (type t) tag
                then r ← stat_weight_ratio sts id2pos t; Ret (set_inverse_data t r)
                else Ret t) 0 trs.

Definition init_transitions (atom : AtomData) (self : Impurity)
    (vgrid : list Q) (Egrid : list float) : result Impurity :=
  trans_dict ← transitions_json atom (name self) (resolution_of self);
  let trans_Egrid := E_grid trans_dict in
  trs ← create_transition_objects self trans_dict;
  let self := set_transitions self trs in
  let id2pos := build_id2pos (states self) in
  trs ← (if Py.truthy (excitation self)
         then attach_inverse (states self) id2pos "excitation" (transitions self)
         else Ret (transitions self));
  let self := set_transitions self trs in
  trs ← (if Py.truthy (ionization self)
         then attach_inverse (states self) id2pos "ionization" (transitions self)
         else Ret (transitions self));
  let self := set_transitions self trs in
  state_and_transition_checks self Egrid trans_Egrid.

(** ** The position indexer *)

Definition with_pos (s : State) (i : nat) : State :=
  {| State_id := State_id s; State_Z := State_Z s; energy := energy s;
     stat_weight := stat_weight s; ground := ground s; iz_energy := iz_energy s;
     energy_from_gs := energy_from_gs s; pos := i |}.

Definition set_state_positions (self : Impurity) : Impurity :=
  set_states self (imap (λ i s, with_pos s i) (states self)).

Definition position_transition (id2pos : gmap Z nat) (t : Transition) : result Transition :=
  fp ← from_option (KeyError (from_id t)) (id2pos !! from_id t);
  tp ← from_option (KeyError (to_id t)) (id2pos !! to_id t);
  Ret {| type := type t; from_id := from_id t; to_id := to_id t;
         from_pos := fp; to_pos := tp; g_ratio := g_ratio t |}.

Definition set_transition_positions (self : Impurity) : result Impurity :=
  let id2pos := build_id2pos (states self) in
  trs ← imapM (λ _ t, position_transition id2pos t) 0 (transitions self);
  Ret (set_transitions self trs).

(** ** reorder_PQ_states *)

Definition reorder_PQ_states (self : Impurity) (P_states : string) : result Impurity :=
  let self :=
    if String.eqb P_states "ground" then
      let ground_states := filter (λ s, ground s = true) (states self) in
      let other_states := filter (λ s, ground s = false) (states self) in
      let self := set_PQ self (length ground_states) (length other_states) in
      set_states self (ground_states ++ other_states)
    else self in
  set_transition_positions (set_state_positions self).

(** ** init_dens *)

(** [np.zeros((rows, cols))] *)
Definition np_zeros2 (rows : nat) (cols : Z) : result (list (list Q)) :=
  if cols <? 0 then Raise (ValueError "negative dimensions are not allowed")
  else Ret (replicate rows (replicate (Z.to_nat cols) 0%Q)).

(** Assigning [vals] to [n] selected slots: equal lengths, or one value
    broadcast to all of them. *)
Definition np_fit (n : nat) (vals : list Q) : result (list Q) :=
  if (length vals =? n)%nat then Ret vals
  else match vals with
       | [v] => Ret (replicate n v)
       | _ => Raise (ValueError "shape mismatch: value array could not be broadcast to indexing result")
       end.

(** [row[locs] = vals] *)
Fixpoint np_put (row : list Q) (locs : list nat) (vals : list Q) : result (list Q) :=
  match locs, vals with
  | p :: locs', v :: vals' =>
      if (p <? length row)%nat then np_put (<[p := v]> row) locs' vals'
      else Raise IndexError
  | _, _ => Ret row
  end.

(** [row[locs]] *)
Definition np_take (row : list Q) (locs : list nat) : result (list Q) :=
  imapM (λ _ p, from_option IndexError (row !! p)) 0 locs.

(** [d[:, 0] = vals] on a matrix with [cols] columns: one value per row, or
    one value for all rows. *)
Definition set_column0 (cols : Z) (d : list (list Q)) (vals : list Q) : result (list (list Q)) :=
  if cols =? 0 then Raise IndexError
  else vals ← np_fit (length d) vals;
       Ret (zip_with (λ row v, <[0%nat := v]> row) d vals).

Definition Qsum (l : list Q) : Q := foldr Qplus 0%Q l.

(** [Z_dens]: one row of stage densities per profile sample. *)
Definition saha_rows (self : Impurity) (ne Te : list Q) : result (list (list Q)) :=
  imapM (λ i ne_i,
           te ← from_option IndexError (Te !! i);
           np_fit (num_Z self)
             ((λ x, x / n_norm self)%Q
                <$> saha_dist (te * T_norm self)%Q (ne_i * n_norm self)%Q (n_norm self) self))
        0 ne.

(** The body of the loops over [Z] and [i] for one of the density arrays. *)
Definition boltzmann_fill (self : Impurity) (Z_dens : list (list Q)) (ne Te : list Q)
    (k : nat) (i : nat) (d : list (list Q)) : result (list (list Q)) :=
  let Z_states := gather_states (states self) (Z.of_nat k) in
  let energies := energy <$> Z_states in
  let stat_weights := stat_weight <$> Z_states in
  let locs := pos <$> Z_states in
  zrow ← from_option IndexError (Z_dens !! i);
  Z_dens_loc ← from_option IndexError (zrow !! k);
  te ← from_option IndexError (Te !! i);
  ne_i ← from_option IndexError (ne !! i);
  let rel_dens := boltzmann_dist (te * T_norm self)%Q energies stat_weights in
  row ← from_option IndexError (d !! i);
  vals ← np_fit (length locs) ((λ r, r * Z_dens_loc / Qsum rel_dens)%Q <$> rel_dens);
  row ← np_put row locs vals;
  row ← (if Py.truthy (fixed_fraction_init self)
         then cur ← np_take row locs;
              c ← Py.mul_np_float (frac_imp_dens self) ne_i;
              np_put row locs ((λ x, x * c)%Q <$> cur)
         else Ret row);
  Ret (<[i := row]> d).

Definition saha_boltzmann_fill (self : Impurity) (Z_dens : list (list Q)) (ne Te : list Q)
    (d : list (list Q)) : result (list (list Q)) :=
  for_each (λ k d, for_each (boltzmann_fill self Z_dens ne Te k) (seq 0 (length ne)) d)
           (seq 0 (num_Z self)) d.

(** The values assigned to the first column in the [else] branch:
    [self.frac_imp_dens * ne], or [1.0]. *)
Definition first_column (self : Impurity) (ne : list Q) : result (list Q) :=
  if Py.truthy (fixed_fraction_init self)
  then mul_np_array (frac_imp_dens self) ne
  else Ret [1%Q].

(** Lines 383-386: the arrays of zeros. *)
Definition allocate_dens (self : Impurity) (ne : list Q) : result Impurity :=
  self ← (if Py.truthy (kinetic_electrons self)
          then z ← np_zeros2 (length ne) (tot_states self); Ret (set_dens self (Some z))
          else Ret self);
  if Py.truthy (maxwellian_electrons self)
  then z ← np_zeros2 (length ne) (tot_states self); Ret (set_dens_Max self (Some z))
  else Ret self.

(** Lines 389-422: the branch taken when [self.saha_boltzmann_init] is true. *)
Definition saha_boltzmann_branch (self : Impurity) (ne Te : list Q) : result Impurity :=
  let self := set_state_positions self in
  Z_dens ← saha_rows self ne Te;
  d ← match dens self with
      | Some d => if Py.truthy (kinetic_electrons self)
                  then d' ← saha_boltzmann_fill self Z_dens ne Te d; Ret (Some d')
                  else Ret (Some d)
      | None => Ret None
      end;
  dM ← match dens_Max self with
       | Some d => if Py.truthy (maxwellian_electrons self)
                   then d' ← saha_boltzmann_fill self Z_dens ne Te d; Ret (Some d')
                   else Ret (Some d)
       | None => Ret None
       end;
  Ret (set_dens_Max (set_dens self d) dM).

(** Lines 424-434: the branch taken otherwise. *)
Definition first_state_branch (self : Impurity) (ne : list Q) : result Impurity :=
  d ← match dens self with
      | Some d => if Py.truthy (kinetic_electrons self)
                  then c ← first_column self ne;
                       d' ← set_column0 (tot_states self) d c; Ret (Some d')
                  else Ret (Some d)
      | None => Ret None
      end;
  dM ← match dens_Max self with
       | Some d => if Py.truthy (maxwellian_electrons self)
                   then c ← first_column self ne;
                        d' ← set_column0 (tot_states self) d c; Ret (Some d')
                   else Ret (Some d)
       | None => Ret None
       end;
  Ret (set_dens_Max (set_dens self d) dM).

Definition init_dens (self : Impurity) (ne Te : list Q) : result Impurity :=
  self ← allocate_dens self ne;
  if Py.truthy (saha_boltzmann_init self)
  then saha_boltzmann_branch self ne Te
  else first_state_branch self ne.

(** ** __init__ *)

Record InitArgs := mkInitArgs {
  arg_name : string;
  arg_resolve_l : bool;
  arg_resolve_j : bool;
  arg_state_ids : option (list Z);
  arg_kinetic_electrons : bool;
  arg_maxwellian_electrons : bool;
  arg_saha_boltzmann_init : bool;
  arg_fixed_fraction_init : bool;
  arg_frac_imp_dens : Q;
  arg_ionization : bool;
  arg_autoionization : bool;
  arg_emission : bool;
  arg_radiative_recombination : bool;
  arg_excitation : bool;
  arg_T_norm : Q;
  arg_n_norm : Q;
  arg_vgrid : list Q;
  arg_Egrid : list float;
  arg_ne : list Q;
  arg_Te : list Q
}.

(** "Save settings" (lines 94-113): every assignment that ends in a comma
    stores a one-element tuple. *)
Definition save_settings (a : InitArgs) : Impurity :=
  {| name := arg_name a;
     resolve_j := Py.VTuple [Py.VBool (arg_resolve_j a)];
     resolve_l := Py.VTuple [Py.VBool (arg_resolve_l a)];
     state_ids := Py.VTuple [Py.of_opt_ints (arg_state_ids a)];
     kinetic_electrons := Py.VTuple [Py.VBool (arg_kinetic_electrons a)];
     maxwellian_electrons := Py.VTuple [Py.VBool (arg_maxwellian_electrons a)];
     saha_boltzmann_init := Py.VTuple [Py.VBool (arg_saha_boltzmann_init a)];
     fixed_fraction_init := Py.VTuple [Py.VBool (arg_fixed_fraction_init a)];
     frac_imp_dens := Py.VTuple [Py.VFloat (arg_frac_imp_dens a)];
     ionization := Py.VTuple [Py.VBool (arg_ionization a)];
     autoionization := Py.VTuple [Py.VBool (arg_autoionization a)];
     emission := Py.VTuple [Py.VBool (arg_emission a)];
     radiative_recombination := Py.VTuple [Py.VBool (arg_radiative_recombination a)];
     excitation := Py.VTuple [Py.VBool (arg_excitation a)];
     T_norm := arg_T_norm a;
     n_norm := arg_n_norm a;
     nuc_chg := 0; num_Z := 0; longname := "";
     states := []; tot_states := 0; transitions := [];
     dens := None; dens_Max := None; num_P_states := 0; num_Q_states := 0 |}.

Definition Impurity__init__ (atom : AtomData) (a : InitArgs) : result Impurity :=
  self ← get_element_data (save_settings a);
  self ← init_states atom self;
  self ← init_transitions atom self (arg_vgrid a) (arg_Egrid a);
  self ← init_dens self (arg_ne a) (arg_Te a);
  set_transition_positions (set_state_positions self).

End Model.

(** ** Vocabulary of the properties *)

(** The test of the second pass: it only fires when [autoionization] is the
    object [False]. *)
Definition above_ionization (self : Impurity) (s : State) : bool :=
  Py.is_False (autoionization self) && Qlt_bool (iz_energy s) 0.

(** The states and transitions that survive the three passes. *)
Definition surviving_states (self : Impurity) : list State :=
  filter (λ s, above_ionization self s = false)
    (filter (λ s, is_orphan (transitions self) s = false) (states self)).

Definition surviving_transitions (self : Impurity) : list Transition :=
  filter (λ t, is_orphan_transition (State_id <$> surviving_states self) t = false)
    (transitions self).

(** The two grids differ by more than 1e-5 at some point, in binary64
    arithmetic. *)
Definition grids_differ (Egrid trans_Egrid : list float) : Prop :=
  ∃ i a b, Egrid !! i = Some a ∧ trans_Egrid !! i = Some b
           ∧ PrimFloat.ltb 1e-5 (PrimFloat.abs (PrimFloat.sub a b)) = true.

(** The difference of the two grids is NaN at no point. *)
Definition no_NaN_difference (Egrid trans_Egrid : list float) : Prop :=
  ∀ i a b, Egrid !! i = Some a → trans_Egrid !! i = Some b
           → PrimFloat.is_nan (PrimFloat.abs (PrimFloat.sub a b)) = false.

Definition touches (t : Transition) (s : State) : Prop :=
  from_id t = State_id s ∨ to_id t = State_id s.

Definition endpoints_present (sts : list State) (t : Transition) : Prop :=
  from_id t ∈ (State_id <$> sts) ∧ to_id t ∈ (State_id <$> sts).

(** The invariant as the specification words it: every transition has both
    endpoints among the states, and every state has a transition, a single
    remaining state being tolerated. *)
Definition integrity_invariant (self : Impurity) : Prop :=
  (∀ t, t ∈ transitions self → endpoints_present (states self) t)
  ∧ ((∀ s, s ∈ states self → ∃ t, t ∈ transitions self ∧ touches t s)
     ∨ length (states self) = 1%nat).

(** [x] occurs before [y] in [l]. *)
Definition precedes {A} (x y : A) (l : list A) : Prop :=
  ∃ l1 l2 l3, l = l1 ++ x :: l2 ++ y :: l3.

(** [after] keeps the entries of [before] it retains in their order. *)
Definition order_preserved {A} (before after : list A) : Prop :=
  after `sublist_of` before
  ∧ ∀ x y, x ∈ after → y ∈ after → (precedes x y after ↔ precedes x y before).

(** A state with its position cache cleared: what identifies the state. *)
Definition forget_pos (s : State) : State := with_pos s 0.

(** A transition keeps its type, endpoints and data. *)
Definition same_transition (t t' : Transition) : Prop :=
  type t' = type t ∧ from_id t' = from_id t ∧ to_id t' = to_id t
  ∧ g_ratio t' = g_ratio t.

Definition ground_states (self : Impurity) : list State :=
  filter (λ s, ground s = true) (states self).

Definition other_states (self : Impurity) : list State :=
  filter (λ s, ground s = false) (states self).

(** The object after the [if P_states == "ground":] block. *)
Definition partitioned (self : Impurity) : Impurity :=
  set_states (set_PQ self (length (ground_states self)) (length (other_states self)))
    (ground_states self ++ other_states self).

(** [g], at position [i], is the ground state of stage [k]: of the states of
    that stage it has the least energy, and it is the first that has it. *)
Definition ground_of (sts : list State) (k : Z) (i : nat) (g : State) : Prop :=
  sts !! i = Some g ∧ State_Z g = k
  ∧ (∀ j t, sts !! j = Some t → State_Z t = k → (energy g <= energy t)%Q)
  ∧ (∀ j t, (j < i)%nat → sts !! j = Some t → State_Z t = k → (energy g < energy t)%Q).

(** What the first loop has established after stages [0 .. k-1]. *)
Definition grounds_found (sts : list State) (nZ : nat) (k : nat)
    (acc : list Q * list Z) : Prop :=
  length (fst acc) = nZ ∧ length (snd acc) = nZ
  ∧ ∀ k', (k' < k)%nat →
      ∃ i g, ground_of sts (Z.of_nat k') i g
        ∧ fst acc !! k' = Some (energy g) ∧ snd acc !! k' = Some (Z.of_nat i).

(** The element symbols [get_element_data] knows. *)
Definition known_elements : list string :=
  ["H"; "He"; "Li"; "Be"; "B"; "C"; "N"; "O"; "Ne"; "Ar"; "W"].

(** What [init_ionization_energies] leaves alone in a state: identity,
    stage, energy, weight and position. *)
Definition same_level (s s' : State) : Prop :=
  State_id s' = State_id s ∧ State_Z s' = State_Z s ∧ energy s' = energy s
  ∧ stat_weight s' = stat_weight s ∧ pos s' = pos s.

(** Stage [k] has no state in the list. *)
Definition stage_absent (sts : list State) (k : nat) : Prop :=
  Forall (λ s, State_Z s ≠ Z.of_nat k) sts.

(** The stage of [s] is a valid numpy index into an array of [n] entries. *)
Definition stage_indexable (n : nat) (s : State) : Prop :=
  - Z.of_nat n ≤ State_Z s < Z.of_nat n.

(** The process of a catalogue entry of type [ty] is one of the five known
    ones and its flag is true in a condition. *)
Definition process_enabled (self : Impurity) (ty : string) : bool :=
  String.eqb ty "ionization" && Py.truthy (ionization self)
  || String.eqb ty "autoionization" && Py.truthy (autoionization self)
  || String.eqb ty "radiative_recombination" && Py.truthy (radiative_recombination self)
  || String.eqb ty "emission" && Py.truthy (emission self)
  || String.eqb ty "excitation" && Py.truthy (excitation self).

(** Both endpoints of a catalogue entry are in the list of ids, if there is one. *)
Definition endpoints_selected (o : option (list Z)) (trans : TransEntry) : bool :=
  match o with
  | None => true
  | Some ids => bool_decide (entry_from_id trans ∈ ids)
                && bool_decide (entry_to_id trans ∈ ids)
  end.

(** What attaching inverse data to the transitions of type [tag] does to one
    transition. *)
Definition inverse_attached (sts : list State) (tag : string) (t t' : Transition) : Prop :=
  type t' = type t ∧ from_id t' = from_id t ∧ to_id t' = to_id t
  ∧ from_pos t' = from_pos t ∧ to_pos t' = to_pos t
  ∧ (type t ≠ tag → t' = t)
  ∧ (type t = tag →
     ∃ sf st, sf ∈ sts ∧ st ∈ sts ∧ State_id sf = from_id t ∧ State_id st = to_id t
       ∧ ¬ (stat_weight st == 0)%Q
       ∧ g_ratio t' = Some (stat_weight sf / stat_weight st)%Q).

(** Position [i] holds the last state of the list whose id is [k]. *)
Definition last_position (sts : list State) (k : Z) (i : nat) : Prop :=
  (∃ s, sts !! i = Some s ∧ State_id s = k)
  ∧ ∀ j s, (i < j)%nat → sts !! j = Some s → State_id s ≠ k.

(** A matrix of [rows] rows with [cols] entries each. *)
Definition has_shape (rows cols : nat) (d : list (list Q)) : Prop :=
  length d = rows ∧ Forall (λ row, length row = cols) d.

(** What either branch of [init_dens] does to one of the two arrays. *)
Definition array_filled (rows cols : nat) (flag : Py.value)
    (before after : option (list (list Q))) : Prop :=
  if Py.truthy flag
  then ∀ d, before = Some d → has_shape rows cols d →
            ∃ d', after = Some d' ∧ has_shape rows cols d'
  else after = before.

(** ** Sample data

    A hydrogen-like catalogue with three levels and four transitions, stand-ins
    for the collaborators, and the objects on which the properties below are
    exercised. *)

Definition ex_equals (s t : State) : bool := State_id s =? State_id t.
Definition ex_saha (T n nn : Q) (self : Impurity) : list Q := replicate (num_Z self) 1%Q.
Definition ex_boltz (T : Q) (energies stat_weights : list Q) : list Q := stat_weights.

Definition ex_levels : list Level :=
  [mkLevel 0 0 2; mkLevel 0 (102 # 10) 8; mkLevel 1 (136 # 10) 1].

Definition ex_trans : TransFile :=
  mkTransFile [1%float; 2%float]
    [mkTransEntry "excitation" 0 1; mkTransEntry "ionization" 0 2;
     mkTransEntry "emission" 1 0; mkTransEntry "ionization" 1 2].

Definition ex_atom : AtomData := mkAtomData (λ _ _, Ret ex_levels) (λ _ _, Ret ex_trans).

(** Constructor arguments: hydrogen, every process enabled except as given. *)
Definition ex_args (ids : option (list Z)) (saha ioniz : bool) : InitArgs :=
  mkInitArgs "H" false false ids true false saha true (1 # 100)
    ioniz true true true true 1 1 [] [1%float; 2%float]
    [10000000000000000000 # 1; 20000000000000000000 # 1] [1%Q; 1%Q].

(** The same arguments with a simulation grid that differs from the grid of
    the sample transitions file, [[1.0, 2.0]], at its second point. *)
Definition c2_args : InitArgs :=
  mkInitArgs "H" false false None true false false true (1 # 100)
    true true true true true 1 1 [] [1%float; 3%float]
    [10000000000000000000 # 1; 20000000000000000000 # 1] [1%Q; 1%Q].

(** The object after "save settings" and [get_element_data]. *)
Definition ex_self (a : InitArgs) : Impurity := set_element (save_settings a) 1 "Hydrogen".

Definition ex_state (i z : Z) (e : Q) (iz : Q) (g : bool) : State :=
  mkState i z e 1 g iz 0 0.
Definition ex_transition (f t : Z) : Transition :=
  mkTransition "excitation" f t 0 0 None.

(** Objects for the integrity checks: three states of which the last is
    referenced only by a transition to the unknown state 7; and four states
    of which the second lies above its ionization threshold. *)
Definition c4_self : Impurity :=
  set_transitions
    (set_tot_states
       (set_states (ex_self (ex_args None false true))
          [ex_state 0 0 0 1 true; ex_state 1 0 1 1 false; ex_state 2 1 2 0 true])
       3)
    [ex_transition 0 1; ex_transition 2 7].

Definition c4_self_no_autoionization : Impurity :=
  mkImpurity "H" (Py.VBool false) (Py.VBool false) Py.VNone (Py.VBool true)
    (Py.VBool false) (Py.VBool false) (Py.VBool false) (Py.VFloat 1)
    (Py.VBool true) (Py.VBool false) (Py.VBool true) (Py.VBool true) (Py.VBool true)
    1 1 1 2 "Hydrogen"
    [ex_state 0 0 0 1 true; ex_state 1 0 2 (-1) false;
     ex_state 2 0 1 1 false; ex_state 3 1 2 0 true]
    4 [ex_transition 0 1; ex_transition 2 3] None None 0 0.

(** A small consistent model: two hydrogen states and the bare nucleus, listed
    with the excited state first. *)
Definition ex_model : Impurity :=
  set_transitions
    (set_tot_states
       (set_states (ex_self (ex_args None false true))
          [ex_state 1 0 (102 # 10) (34 # 10) false; ex_state 0 0 0 (136 # 10) true;
           ex_state 2 1 (136 # 10) 0 true])
       3)
    [ex_transition 0 1; ex_transition 1 2; ex_transition 0 2].

(** Hydrogen has two ionization stages; a state list with states of the
    neutral stage only. *)
Definition c6_self : Impurity :=
  set_tot_states
    (set_states (ex_self (ex_args None false true))
       [ex_state 0 0 0 0 false; ex_state 1 0 (102 # 10) 0 false])
    2.

(** Profile samples for the density initialisation. *)
Definition ex_ne : list Q := [10000000000000000000 # 1; 20000000000000000000 # 1].
Definition ex_Te : list Q := [1%Q; 1%Q].

(** [ex_model] with the flags as plain booleans: no Saha-Boltzmann
    initialisation, fixed fraction 0.01, kinetic electrons only. *)
Definition ex_model_plain : Impurity :=
  mkImpurity "H" (Py.VBool false) (Py.VBool false) Py.VNone (Py.VBool true)
    (Py.VBool false) (Py.VBool false) (Py.VBool true) (Py.VFloat (1 # 100))
    (Py.VBool true) (Py.VBool true) (Py.VBool true) (Py.VBool true) (Py.VBool true)
    1 1 1 2 "Hydrogen" (states ex_model) 3 (transitions ex_model) None None 0 0.

(** An object whose [state_ids] attribute is the plain list [[0, 2]]. *)
Definition ex_plain_ids : Impurity :=
  mkImpurity "H" (Py.VBool false) (Py.VBool false) (Py.of_ints [0; 2]) (Py.VBool true)
    (Py.VBool false) (Py.VBool false) (Py.VBool true) (Py.VFloat (1 # 100))
    (Py.VBool true) (Py.VBool true) (Py.VBool true) (Py.VBool true) (Py.VBool true)
    1 1 1 2 "Hydrogen" [] 0 [] None None 0 0.

(** [ex_model_plain] with the Saha-Boltzmann initialisation switched on. *)
Definition ex_model_saha : Impurity :=
  mkImpurity "H" (Py.VBool false) (Py.VBool false) Py.VNone (Py.VBool true)
    (Py.VBool true) (Py.VBool true) (Py.VBool true) (Py.VFloat (1 # 100))
    (Py.VBool true) (Py.VBool true) (Py.VBool true) (Py.VBool true) (Py.VBool true)
    1 1 1 2 "Hydrogen" (states ex_model) 3 (transitions ex_model) None None 0 0.

(** [ex_model_plain] without states. *)
Definition ex_model_empty : Impurity :=
  set_tot_states (set_transitions (set_states ex_model_plain []) []) 0.

(** A state list in which the id 5 occurs twice, at positions 0 and 2, with a
    transition between the ids 5 and 6. *)
Definition ex_repeated : Impurity :=
  set_transitions
    (set_tot_states
       (set_states ex_model
          [ex_state 5 0 0 1 true; ex_state 6 0 1 1 false; ex_state 5 1 2 0 true])
       3)
    [ex_transition 5 6].

(** ** Basic facts about the helpers *)

Lemma Qlt_bool_iff (x y : Q) : Qlt_bool x y = true ↔ (x < y)%Q.
Proof.
  unfold Qlt_bool. rewrite negb_true_iff. split.
  - intros H. apply Qnot_le_lt. intros Hle. apply Qle_bool_iff in Hle. congruence.
  - intros H. destruct (Qle_bool y x) eqn:E; [|done].
    apply Qle_bool_iff in E. exfalso. by apply (Qlt_not_le x y).
Qed.

Lemma Qlt_bool_false_iff (x y : Q) : Qlt_bool x y = false ↔ (y <= x)%Q.
Proof.
  unfold Qlt_bool. rewrite negb_false_iff. apply Qle_bool_iff.
Qed.

Lemma not_None_cons_Some {A} (x : A) (l : list (option A)) :
  not_None (Some x :: l) = x :: not_None l.
Proof. reflexivity. Qed.

Lemma not_None_cons_None {A} (l : list (option A)) :
  not_None (None :: l) = not_None l.
Proof. reflexivity. Qed.

Lemma not_None_Some {A} (l : list A) : not_None (Some <$> l) = l.
Proof.
  induction l as [|x l IH]; [done|].
  rewrite fmap_cons, not_None_cons_Some. by rewrite IH.
Qed.

Lemma filter_none {A} (P : A → Prop) `{!∀ x, Decision (P x)} (l : list A) :
  (∀ x, x ∈ l → ¬ P x) → filter P l = [].
Proof.
  induction l as [|x l IH]; intros Hall; [done|].
  rewrite filter_cons_False by (apply Hall; set_solver).
  apply IH. intros y Hy. apply Hall. set_solver.
Qed.

Lemma filter_all {A} (P : A → Prop) `{!∀ x, Decision (P x)} (l : list A) :
  (∀ x, x ∈ l → P x) → filter P l = l.
Proof.
  induction l as [|x l IH]; intros Hall; [done|].
  rewrite filter_cons_True by (apply Hall; set_solver).
  f_equal. apply IH. intros y Hy. apply Hall. set_solver.
Qed.

Section null_then_compact.
Context {A : Type} (p : A → bool).

Lemma null_where_marks (cond : A → result bool) (todo : list A) :
  ∀ (pre : list (option A)) (r : nat),
  (∀ x, x ∈ todo → cond x = Ret (p x)) →
  null_where cond (length pre) todo (pre ++ (Some <$> todo)) r =
    Ret (pre ++ ((λ x, if p x then None else Some x) <$> todo),
         (r + length (filter (λ x, p x = true) todo))%nat).
Proof.
  induction todo as [|x rest IH]; intros pre r Hc; simpl.
  - by rewrite Nat.add_0_r.
  - rewrite (Hc x) by set_solver. simpl.
    assert (Hrest : ∀ y, y ∈ rest → cond y = Ret (p y)) by (intros; apply Hc; set_solver).
    destruct (p x) eqn:Hp.
    + rewrite filter_cons_True by done.
      rewrite insert_app_r_alt by lia. rewrite Nat.sub_diag. simpl.
      specialize (IH (pre ++ [None]) (S r) Hrest).
      rewrite length_app, Nat.add_1_r in IH. rewrite <- !app_assoc in IH. simpl in IH.
      etrans; [exact IH|]. simpl. do 2 f_equal. lia.
    + rewrite filter_cons_False by congruence.
      specialize (IH (pre ++ [Some x]) r Hrest).
      rewrite length_app, Nat.add_1_r in IH. rewrite <- !app_assoc in IH. simpl in IH.
      etrans; [exact IH|]. done.
Qed.

Lemma not_None_marks (l : list A) :
  not_None ((λ x, if p x then None else Some x) <$> l) = filter (λ x, p x = false) l.
Proof.
  induction l as [|x l IH]; [done|].
  rewrite fmap_cons. destruct (p x) eqn:Hp.
  - rewrite not_None_cons_None, IH, filter_cons_False by congruence. done.
  - rewrite not_None_cons_Some, IH, filter_cons_True by done. done.
Qed.

(** The removal pattern is a filter: the survivors are the entries for which
    the test is false, in their order. *)
Lemma null_where_filter (cond : A → result bool) (l : list A) :
  (∀ x, x ∈ l → cond x = Ret (p x)) →
  ∃ marks, null_where cond 0 l (Some <$> l) 0
           = Ret (marks, length (filter (λ x, p x = true) l))
    ∧ not_None marks = filter (λ x, p x = false) l.
Proof.
  intros Hc. eexists. split.
  - apply (null_where_marks cond l [] 0%nat Hc).
  - simpl. apply not_None_marks.
Qed.

End null_then_compact.

(** ** The stored settings *)

Lemma get_element_data_H (a : InitArgs) :
  arg_name a = "H" → get_element_data (save_settings a) = Ret (ex_self a).
Proof.
  intros Hn. unfold get_element_data. simpl. rewrite Hn. reflexivity.
Qed.

(** [state_ids] as stored by [__init__] is a one-element tuple holding the
    list (or [None]): no integer is a member of it. *)
Lemma stored_state_ids_never_contain (o : option (list Z)) (n : Z) :
  Py.contains (Py.VTuple [Py.of_opt_ints o]) (Py.VInt n) = Ret false.
Proof. destruct o; reflexivity. Qed.

Lemma keep_user_states_stored (self : Impurity) (o : option (list Z)) (sts : list State) :
  state_ids self = Py.VTuple [Py.of_opt_ints o] →
  keep_user_states self sts = Ret [].
Proof.
  intros Hs. unfold keep_user_states. rewrite Hs. simpl Py.is_None. simpl negb.
  destruct (null_where_filter (λ _, true)
              (λ s, b ← Py.contains (Py.VTuple [Py.of_opt_ints o]) (Py.VInt (State_id s));
                    Ret (negb b)) sts) as (marks & Hrun & Hkeep).
  { intros x _. by rewrite stored_state_ids_never_contain. }
  rewrite Hrun. simpl. rewrite Hkeep.
  f_equal. by apply filter_none.
Qed.

(** Had [state_ids] been stored as passed, the filter would do what its
    comment says: a list keeps the states whose id it contains, [None] keeps
    every state. *)
Lemma Py_eq_ints (a b : Z) : Py.eq (Py.VInt a) (Py.VInt b) = true ↔ a = b.
Proof.
  simpl. rewrite Qeq_bool_iff. split; [apply inject_Z_injective|by intros ->].
Qed.

Lemma Py_contains_ints (ids : list Z) (n : Z) :
  Py.contains (Py.of_ints ids) (Py.VInt n) = Ret (bool_decide (n ∈ ids)).
Proof.
  unfold Py.contains, Py.of_ints. f_equal.
  induction ids as [|a ids IH].
  - symmetry. apply bool_decide_eq_false. apply not_elem_of_nil.
  - rewrite fmap_cons. cbn [existsb]. rewrite IH.
    destruct (Py.eq (Py.VInt n) (Py.VInt a)) eqn:E.
    + apply Py_eq_ints in E as ->. symmetry. apply bool_decide_eq_true.
      apply elem_of_cons. by left.
    + simpl. apply bool_decide_ext. rewrite elem_of_cons.
      split; [by right|]. intros [->|H]; [|done].
      assert (Hrefl : Py.eq (Py.VInt a) (Py.VInt a) = true) by by apply Py_eq_ints.
      congruence.
Qed.

Lemma keep_user_states_unwrapped_list (self : Impurity) (ids : list Z) (sts : list State) :
  state_ids self = Py.of_ints ids →
  keep_user_states self sts = Ret (filter (λ s, State_id s ∈ ids) sts).
Proof.
  intros Hs. unfold keep_user_states. rewrite Hs. simpl Py.is_None. simpl negb.
  destruct (null_where_filter (λ s, negb (bool_decide (State_id s ∈ ids)))
              (λ s, b ← Py.contains (Py.of_ints ids) (Py.VInt (State_id s));
                    Ret (negb b)) sts) as (marks & Hrun & Hkeep).
  { intros x _. by rewrite Py_contains_ints. }
  rewrite Hrun. simpl. rewrite Hkeep. f_equal.
  apply list_filter_iff. intros s.
  rewrite negb_false_iff. apply bool_decide_eq_true.
Qed.

Lemma keep_user_states_unwrapped_None (self : Impurity) (sts : list State) :
  state_ids self = Py.VNone → keep_user_states self sts = Ret sts.
Proof.
  intros Hs. unfold keep_user_states. rewrite Hs. simpl. by rewrite not_None_Some.
Qed.

(** Every flag as stored by [__init__] is a non-empty tuple: it is true in a
    condition and it is not the object [False]. *)
Lemma stored_flag_truthy (v : Py.value) : Py.truthy (Py.VTuple [v]) = true.
Proof. reflexivity. Qed.

Lemma stored_flag_is_not_False (v : Py.value) : Py.is_False (Py.VTuple [v]) = false.
Proof. reflexivity. Qed.

Lemma not_None_replicate_None {A} (n : nat) : not_None (replicate n (@None A)) = [].
Proof. induction n as [|n IH]; [done|]. exact IH. Qed.

Lemma create_transition_stored (self : Impurity) (o : option (list Z)) (trans : TransEntry) :
  state_ids self = Py.VTuple [Py.of_opt_ints o] →
  create_transition self trans = Ret None.
Proof.
  intros Hs. unfold create_transition. rewrite Hs. simpl Py.is_None. simpl negb.
  rewrite !stored_state_ids_never_contain. reflexivity.
Qed.

Lemma create_loop_stored (self : Impurity) (o : option (list Z)) (todo : list TransEntry) :
  state_ids self = Py.VTuple [Py.of_opt_ints o] →
  ∀ i slots, create_loop self i todo slots = Ret slots.
Proof.
  intros Hs. induction todo as [|t todo IH]; intros i slots; [done|].
  simpl. rewrite (create_transition_stored self o t Hs). simpl. apply IH.
Qed.

(** With the settings as [__init__] stores them, no transition object is ever
    created, whatever the catalogue and the flags. *)
Lemma create_transition_objects_stored (self : Impurity) (o : option (list Z))
    (trans_dict : TransFile) :
  state_ids self = Py.VTuple [Py.of_opt_ints o] →
  create_transition_objects self trans_dict = Ret [].
Proof.
  intros Hs. unfold create_transition_objects.
  rewrite (create_loop_stored self o _ Hs). simpl.
  f_equal. apply (not_None_replicate_None (S (length (entries trans_dict)))).
Qed.

(** With the settings as [__init__] stores them, [init_states] leaves no
    state and then fails in [init_ionization_energies]; so does [__init__]. *)
Lemma init_states_stored (equals : State → State → bool) (atom : AtomData)
    (self : Impurity) (o : option (list Z)) (lv : list Level) (n : nat) :
  state_ids self = Py.VTuple [Py.of_opt_ints o] →
  levels_json atom (name self) (resolution_of self) = Ret lv →
  num_Z self = S n →
  init_states equals atom self
  = Raise (ValueError "attempt to get argmin of an empty sequence").
Proof.
  intros Hs Hlv Hn. unfold init_states. rewrite Hlv. simpl.
  rewrite (keep_user_states_stored self o _ Hs). simpl.
  unfold init_ionization_energies. simpl. rewrite Hn. reflexivity.
Qed.

Lemma Impurity__init___raises equals saha_dist boltzmann_dist (atom : AtomData)
    (a : InitArgs) (lv : list Level) :
  is_Some (nuc_chg_dict !! arg_name a) →
  levels_json atom (arg_name a) res_nlj = Ret lv →
  Impurity__init__ equals saha_dist boltzmann_dist atom a
  = Raise (ValueError "attempt to get argmin of an empty sequence").
Proof.
  intros [chg Hchg] Hlv. unfold Impurity__init__, get_element_data. simpl.
  rewrite Hchg. simpl.
  assert (Hlong : is_Some (longname_dict !! arg_name a)).
  { apply elem_of_dom. apply (elem_of_dom_2 (D := gset string)) in Hchg.
    revert Hchg. generalize (arg_name a). intros s.
    replace (dom longname_dict) with (dom nuc_chg_dict); [done|].
    apply set_eq. intros x. unfold nuc_chg_dict, longname_dict.
    rewrite !dom_list_to_map_L. simpl. set_solver. }
  destruct Hlong as [long Hlong]. rewrite Hlong. simpl.
  rewrite (init_states_stored equals atom _ (arg_state_ids a) lv chg);
    [done | done | exact Hlv | simpl; lia].
Qed.

(** C1 (code defect).  [init_states] should keep exactly the states whose id
    is in the list passed as [state_ids] (all of them for [None]).  For
    hydrogen with a three-level catalogue and [state_ids = [0, 2]], and also
    for [state_ids = None], the code keeps no state at all, and [init_states]
    then ends in a [ValueError] raised by [np.argmin]. *)
Theorem init_states_drops_requested_states :
  keep_user_states (ex_self (ex_args (Some [0; 2]) false true)) (imap new_State ex_levels)
    = Ret []
  ∧ keep_user_states (ex_self (ex_args None false true)) (imap new_State ex_levels)
    = Ret []
  ∧ init_states ex_equals ex_atom (ex_self (ex_args (Some [0; 2]) false true))
    = Raise (ValueError "attempt to get argmin of an empty sequence").
Proof. repeat split; vm_compute; reflexivity. Qed.

(** C3 (code defect).  [init_transitions] should create a transition object
    for every catalogue entry whose endpoints are in the list passed as
    [state_ids] and whose process is enabled.  With [state_ids = [0, 1, 2]]
    and every process enabled, all four entries of the sample catalogue
    qualify, and the code creates none. *)
Theorem init_transitions_creates_no_object :
  Forall (λ e, entry_from_id e ∈ [0; 1; 2] ∧ entry_to_id e ∈ [0; 1; 2]
               ∧ entry_type e ∈ ["ionization"; "excitation"; "emission"])
         (entries ex_trans)
  ∧ create_transition_objects (ex_self (ex_args (Some [0; 1; 2]) false true)) ex_trans
    = Ret [].
Proof.
  split; [|vm_compute; reflexivity].
  unfold ex_trans; simpl. repeat constructor; set_solver.
Qed.

(** ** The removal passes are filters *)

Lemma remove_orphaned_states_eq (self : Impurity) :
  remove_orphaned_states self =
  Ret (set_states
         (set_tot_states self
            (tot_states self
             - Z.of_nat (length (filter (λ s, is_orphan (transitions self) s = true)
                                        (states self)))))
         (filter (λ s, is_orphan (transitions self) s = false) (states self))).
Proof.
  unfold remove_orphaned_states.
  destruct (null_where_filter (is_orphan (transitions self))
              (λ s, Ret (is_orphan (transitions self) s)) (states self))
    as (marks & Hrun & Hkeep); [done|].
  rewrite Hrun. simpl. by rewrite Hkeep.
Qed.

Lemma remove_states_above_ionization_eq (self : Impurity) :
  remove_states_above_ionization self =
  Ret (set_states
         (set_tot_states self
            (tot_states self
             - Z.of_nat (length (filter (λ s, above_ionization self s = true)
                                        (states self)))))
         (filter (λ s, above_ionization self s = false) (states self))).
Proof.
  unfold remove_states_above_ionization, above_ionization.
  destruct (Py.is_False (autoionization self)) eqn:Hf.
  - destruct (null_where_filter (λ s, Qlt_bool (iz_energy s) 0)
                (λ s, Ret (Qlt_bool (iz_energy s) 0)) (states self))
      as (marks & Hrun & Hkeep); [done|].
    rewrite Hrun. simpl. by rewrite Hkeep.
  - simpl. rewrite not_None_Some.
    rewrite (filter_none (λ s, false = true)) by done.
    rewrite (filter_all (λ s, false = false)) by done.
    done.
Qed.

Lemma remove_orphaned_transitions_eq (self : Impurity) :
  remove_orphaned_transitions self =
  Ret (set_transitions self
         (filter (λ t, is_orphan_transition (State_id <$> states self) t = false)
                 (transitions self))).
Proof.
  unfold remove_orphaned_transitions.
  destruct (null_where_filter (is_orphan_transition (State_id <$> states self))
              (λ t, Ret (is_orphan_transition (State_id <$> states self) t))
              (transitions self))
    as (marks & Hrun & Hkeep); [done|].
  rewrite Hrun. simpl. by rewrite Hkeep.
Qed.

Lemma state_and_transition_checks_Ret (self : Impurity) (Egrid trans_Egrid : list float) :
  check_grids Egrid trans_Egrid = Ret tt →
  ∃ self', state_and_transition_checks self Egrid trans_Egrid = Ret self'
    ∧ states self' = surviving_states self
    ∧ transitions self' = surviving_transitions self.
Proof.
  intros Hg. unfold state_and_transition_checks. rewrite Hg. simpl.
  rewrite remove_orphaned_states_eq. simpl.
  rewrite remove_states_above_ionization_eq. simpl.
  rewrite remove_orphaned_transitions_eq. simpl.
  eexists. split; [reflexivity|]. split; reflexivity.
Qed.

Lemma state_and_transition_checks_Raise (self : Impurity) (Egrid trans_Egrid : list float)
    (e : exn) :
  state_and_transition_checks self Egrid trans_Egrid = Raise e
  ↔ check_grids Egrid trans_Egrid = Raise e.
Proof.
  destruct (check_grids Egrid trans_Egrid) as [[]|e'] eqn:Hg.
  - destruct (state_and_transition_checks_Ret self _ _ Hg) as (self' & -> & _).
    split; discriminate.
  - unfold state_and_transition_checks. rewrite Hg. simpl.
    split; intros [= ->]; reflexivity.
Qed.

(** ** The grid check *)

(** The tolerance literal is the binary64 number Python reads from [1e-5]. *)
Remark tolerance_binary64 : PrimFloat.eqb 1e-5 0x1.4f8b588e368f1p-17 = true.
Proof. vm_compute. reflexivity. Qed.

Lemma elem_of_grid_difference (Egrid trans_Egrid : list float) (y : float) :
  y ∈ PrimFloat.abs <$> zip_with PrimFloat.sub Egrid trans_Egrid
  ↔ ∃ i a b, Egrid !! i = Some a ∧ trans_Egrid !! i = Some b
             ∧ y = PrimFloat.abs (PrimFloat.sub a b).
Proof.
  rewrite list_elem_of_fmap. split.
  - intros (d & -> & Hd). apply list_elem_of_lookup in Hd as [i Hi].
    apply lookup_zip_with_Some in Hi as (a & b & -> & Ha & Hb).
    by exists i, a, b.
  - intros (i & a & b & Ha & Hb & ->). exists (PrimFloat.sub a b). split; [done|].
    apply list_elem_of_lookup. exists i.
    apply lookup_zip_with_Some. by exists a, b.
Qed.

Ltac elem_of_list :=
  repeat (apply elem_of_cons; first [left; reflexivity | right]); assumption.

(** The order of binary64 numbers, from its specification on [spec_float]. *)
Ltac compare_cases :=
  repeat match goal with
  | H : context [(?a ?= ?b)%Z] |- _ => destruct (Z.compare_spec a b); simpl in *
  | |- context [(?a ?= ?b)%Z] => destruct (Z.compare_spec a b); simpl in *
  | H : context [(?a ?= ?b)%positive] |- _ => destruct (Pos.compare_spec a b); simpl in *
  | |- context [(?a ?= ?b)%positive] => destruct (Pos.compare_spec a b); simpl in *
  end.

Ltac spec_float_cases :=
  unfold SFltb, SFcompare; intros;
  repeat match goal with f : spec_float |- _ => destruct f end;
  repeat match goal with s : bool |- _ => destruct s end;
  simpl in *; try discriminate; try reflexivity; try tauto;
  change (PosDef.Pos.compare_cont Eq) with Pos.compare in *;
  compare_cases; subst; try discriminate; try reflexivity; try lia.

Lemma SFltb_trans (a b c : spec_float) :
  SFltb a b = true → SFltb b c = true → SFltb a c = true.
Proof. spec_float_cases. Qed.

Lemma SFltb_le_trans (a b m : spec_float) :
  SFltb a b = true → SFltb m b = false → m ≠ S754_nan → SFltb a m = true.
Proof. spec_float_cases; congruence. Qed.

Lemma SFeqb_irrefl (f : spec_float) : SFeqb f f = false ↔ f = S754_nan.
Proof.
  split; [|by intros ->].
  unfold SFeqb, SFcompare. destruct f as [s|s| |s m e]; try destruct s; simpl;
    try discriminate; try reflexivity;
    rewrite Z.compare_refl; change (PosDef.Pos.compare_cont Eq) with Pos.compare;
    rewrite Pos.compare_refl; discriminate.
Qed.

Lemma is_nan_spec (x : float) : PrimFloat.is_nan x = true ↔ Prim2SF x = S754_nan.
Proof.
  unfold PrimFloat.is_nan. rewrite FloatAxioms.eqb_spec.
  destruct (SFeqb (Prim2SF x) (Prim2SF x)) eqn:E; simpl.
  - split; [discriminate|]. intros Hnan. apply SFeqb_irrefl in Hnan. congruence.
  - split; [|done]. intros _. by apply SFeqb_irrefl.
Qed.

Lemma is_nan_false_spec (x : float) : PrimFloat.is_nan x = false ↔ Prim2SF x ≠ S754_nan.
Proof.
  rewrite <- is_nan_spec. destruct (PrimFloat.is_nan x); split; congruence.
Qed.

(** No number is below a NaN. *)
Lemma ltb_NaN (c m : float) : PrimFloat.is_nan m = true → PrimFloat.ltb c m = false.
Proof.
  intros Hm. apply is_nan_spec in Hm. rewrite FloatAxioms.ltb_spec, Hm.
  unfold SFltb, SFcompare. by destruct (Prim2SF c).
Qed.

Lemma is_nan_np_maximum (x y : float) :
  PrimFloat.is_nan (np_maximum x y) = PrimFloat.is_nan x || PrimFloat.is_nan y.
Proof.
  unfold np_maximum. destruct (PrimFloat.is_nan x) eqn:Hx; [done|].
  destruct (PrimFloat.is_nan y) eqn:Hy; [done|].
  destruct (PrimFloat.ltb x y); simpl; congruence.
Qed.

Lemma ltb_np_maximum (c x y : float) :
  PrimFloat.is_nan x = false → PrimFloat.is_nan y = false →
  PrimFloat.ltb c (np_maximum x y) = true
  ↔ PrimFloat.ltb c x = true ∨ PrimFloat.ltb c y = true.
Proof.
  intros Hx Hy. unfold np_maximum. rewrite Hx, Hy.
  apply is_nan_false_spec in Hx. apply is_nan_false_spec in Hy.
  destruct (PrimFloat.ltb x y) eqn:E; rewrite !FloatAxioms.ltb_spec;
    rewrite FloatAxioms.ltb_spec in E.
  - split; [by right|]. intros [H|H]; [|done]. by apply SFltb_trans with (Prim2SF x).
  - split; [by left|]. intros [H|H]; [done|]. by apply SFltb_le_trans with (Prim2SF y).
Qed.

Lemma foldl_np_maximum_NaN (l : list float) :
  ∀ x, PrimFloat.is_nan (foldl np_maximum x l) = true
       ↔ ∃ y, y ∈ x :: l ∧ PrimFloat.is_nan y = true.
Proof.
  induction l as [|z l IH]; intros x; simpl.
  - split; [intros H; exists x; split; [elem_of_list|done]|].
    intros (y & Hy & H). by apply list_elem_of_singleton in Hy as ->.
  - rewrite IH. split.
    + intros (y & Hy & H). apply elem_of_cons in Hy as [->|Hy].
      * rewrite is_nan_np_maximum in H. apply orb_true_iff in H as [H|H];
          [exists x|exists z]; (split; [elem_of_list|done]).
      * exists y. split; [elem_of_list|done].
    + intros (y & Hy & H). apply elem_of_cons in Hy as [->|Hy].
      * exists (np_maximum x z). split; [elem_of_list|].
        by rewrite is_nan_np_maximum, H.
      * apply elem_of_cons in Hy as [->|Hy].
        -- exists (np_maximum x z). split; [elem_of_list|].
           by rewrite is_nan_np_maximum, H, orb_true_r.
        -- exists y. split; [elem_of_list|done].
Qed.

Lemma foldl_np_maximum_ltb (c : float) (l : list float) :
  ∀ x, (∀ y, y ∈ x :: l → PrimFloat.is_nan y = false) →
  PrimFloat.ltb c (foldl np_maximum x l) = true
  ↔ ∃ y, y ∈ x :: l ∧ PrimFloat.ltb c y = true.
Proof.
  induction l as [|z l IH]; intros x Hnan; simpl.
  - split; [intros H; exists x; split; [elem_of_list|done]|].
    intros (y & Hy & H). by apply list_elem_of_singleton in Hy as ->.
  - assert (Hx : PrimFloat.is_nan x = false) by (apply Hnan; elem_of_list).
    assert (Hz : PrimFloat.is_nan z = false) by (apply Hnan; elem_of_list).
    rewrite IH.
    + split.
      * intros (y & Hy & H). apply elem_of_cons in Hy as [->|Hy].
        -- apply ltb_np_maximum in H as [H|H]; [exists x|exists z| |];
             try done; (split; [elem_of_list|done]).
        -- exists y. split; [elem_of_list|done].
      * intros (y & Hy & H). apply elem_of_cons in Hy as [->|Hy].
        -- exists (np_maximum x z). split; [elem_of_list|].
           apply ltb_np_maximum; [done|done|by left].
        -- apply elem_of_cons in Hy as [->|Hy].
           ++ exists (np_maximum x z). split; [elem_of_list|].
              apply ltb_np_maximum; [done|done|by right].
           ++ exists y. split; [elem_of_list|done].
    + intros y Hy. apply elem_of_cons in Hy as [->|Hy].
      * by rewrite is_nan_np_maximum, Hx, Hz.
      * apply Hnan. elem_of_list.
Qed.

(** The grid check on two grids of the same length: the error is raised
    exactly when no difference is NaN and some difference exceeds the
    tolerance, all in binary64 arithmetic. *)
Lemma check_grids_mismatch_iff (Egrid trans_Egrid : list float) :
  length Egrid = length trans_Egrid →
  check_grids Egrid trans_Egrid = Raise grid_mismatch
  ↔ no_NaN_difference Egrid trans_Egrid ∧ grids_differ Egrid trans_Egrid.
Proof.
  intros Hlen. unfold check_grids, np_sub, np_broadcast.
  rewrite (proj2 (Nat.eqb_eq _ _) Hlen). simpl.
  pose proof (elem_of_grid_difference Egrid trans_Egrid) as Hin.
  destruct (PrimFloat.abs <$> zip_with PrimFloat.sub Egrid trans_Egrid)
    as [|x l] eqn:El; simpl.
  - split; [discriminate|]. intros [_ (i & a & b & Ha & Hb & _)]. exfalso.
    assert (Hy : PrimFloat.abs (PrimFloat.sub a b) ∈ @nil float)
      by (apply Hin; by exists i, a, b).
    by apply elem_of_nil in Hy.
  - destruct (PrimFloat.is_nan (foldl np_maximum x l)) eqn:Hnan.
    + rewrite (ltb_NaN _ _ Hnan). split; [discriminate|]. intros [Hno _]. exfalso.
      apply foldl_np_maximum_NaN in Hnan as (y & Hy & Hnan).
      apply Hin in Hy as (i & a & b & Ha & Hb & ->).
      rewrite (Hno i a b Ha Hb) in Hnan. discriminate.
    + assert (Hall : ∀ y, y ∈ x :: l → PrimFloat.is_nan y = false).
      { intros y Hy. destruct (PrimFloat.is_nan y) eqn:E; [|done].
        assert (PrimFloat.is_nan (foldl np_maximum x l) = true)
          by (apply foldl_np_maximum_NaN; by exists y).
        congruence. }
      pose proof (foldl_np_maximum_ltb 1e-5 l x Hall) as Hmax.
      destruct (PrimFloat.ltb 1e-5 (foldl np_maximum x l)) eqn:E.
      * split; [|done]. intros _. split.
        -- intros i a b Ha Hb. apply Hall, Hin. by exists i, a, b.
        -- destruct (proj1 Hmax eq_refl) as (y & Hy & Hc).
           apply Hin in Hy as (i & a & b & Ha & Hb & ->). by exists i, a, b.
      * split; [discriminate|]. intros [_ (i & a & b & Ha & Hb & Hc)]. exfalso.
        assert (Hfalse : false = true); [|discriminate Hfalse].
        apply Hmax. exists (PrimFloat.abs (PrimFloat.sub a b)).
        split; [|done]. apply Hin. by exists i, a, b.
Qed.

(** A NaN in one grid hides a mismatch elsewhere: the maximum is NaN and the
    comparison with the tolerance is false. *)
Example check_grids_NaN_hides_mismatch :
  grids_differ [PrimFloat.nan; 1%float] [0%float; 3%float]
  ∧ check_grids [PrimFloat.nan; 1%float] [0%float; 3%float] = Ret tt.
Proof.
  split; [|vm_compute; reflexivity].
  exists 1%nat, 1%float, 3%float. repeat split; vm_compute; reflexivity.
Qed.

(** C2 (code defect).  Construction should raise the grid-mismatch error when
    the simulation grid differs from the grid of the transitions file by more
    than 1e-5 at some point.  For hydrogen with the simulation grid
    [[1.0, 3.0]] and the file grid [[1.0, 2.0]] the grids differ and the check
    of [state_and_transition_checks] would raise that error on any object,
    yet the constructor raises the [ValueError] of [np.argmin] instead: with
    the settings stored as tuples [init_states] fails first, so
    [init_transitions] and its grid check are never reached.  Whatever the
    grids, a construction that has read its levels file never raises the
    grid-mismatch error; it returns no model either. *)
Theorem construction_never_checks_grids :
  length (arg_Egrid c2_args) = length (E_grid ex_trans)
  ∧ grids_differ (arg_Egrid c2_args) (E_grid ex_trans)
  ∧ (∀ self, state_and_transition_checks self (arg_Egrid c2_args) (E_grid ex_trans)
             = Raise grid_mismatch)
  ∧ Impurity__init__ ex_equals ex_saha ex_boltz ex_atom c2_args
    = Raise (ValueError "attempt to get argmin of an empty sequence")
  ∧ (∀ equals saha_dist boltzmann_dist atom a lv,
       levels_json atom (arg_name a) res_nlj = Ret lv →
       Impurity__init__ equals saha_dist boltzmann_dist atom a ≠ Raise grid_mismatch
       ∧ ∀ self', Impurity__init__ equals saha_dist boltzmann_dist atom a ≠ Ret self').
Proof.
  split; [reflexivity|]. split; [|split; [|split]].
  - exists 1%nat, 3%float, 2%float. repeat split; vm_compute; reflexivity.
  - intros self. apply state_and_transition_checks_Raise. vm_compute. reflexivity.
  - vm_compute. reflexivity.
  - intros equals saha_dist boltzmann_dist atom a lv Hlv.
    destruct (nuc_chg_dict !! arg_name a) as [chg|] eqn:Hchg.
    + rewrite (Impurity__init___raises equals saha_dist boltzmann_dist atom a lv);
        [|by exists chg|done].
      split; [discriminate|]. intros self'. discriminate.
    + unfold Impurity__init__, get_element_data. simpl. rewrite Hchg. simpl.
      split; [discriminate|]. intros self'. discriminate.
Qed.

(** ** Orphans *)

Lemma is_orphan_false (trs : list Transition) (s : State) :
  is_orphan trs s = false ↔ ∃ t, t ∈ trs ∧ touches t s.
Proof.
  unfold is_orphan, get_associated_transitions.
  rewrite Nat.eqb_neq, length_fmap.
  set (P := λ p : nat * (Z * Z), fst (snd p) = State_id s ∨ snd (snd p) = State_id s).
  set (l := imap (λ i ft, (i, ft)) (zip (from_id <$> trs) (to_id <$> trs))).
  assert (Hl : ∀ p, p ∈ l ↔ ∃ t, trs !! fst p = Some t ∧ snd p = (from_id t, to_id t)).
  { intros [i [f t']]. unfold l. rewrite list_elem_of_lookup. split.
    - intros [j Hj]. rewrite list_lookup_imap in Hj.
      destruct (zip (from_id <$> trs) (to_id <$> trs) !! j) as [ft|] eqn:Hz; [|done].
      simpl in Hj. injection Hj as <- ->.
      apply lookup_zip_with_Some in Hz as (a & b & [= -> ->] & Ha & Hb).
      rewrite list_lookup_fmap in Ha, Hb.
      destruct (trs !! j) as [t|] eqn:Et; [|done]. simpl in *.
      injection Ha as <-. injection Hb as <-. by exists t.
    - intros (t & Ht & Heq). simpl in *. injection Heq as -> ->.
      exists i. rewrite list_lookup_imap.
      assert (Hz : zip (from_id <$> trs) (to_id <$> trs) !! i = Some (from_id t, to_id t)).
      { apply lookup_zip_with_Some. exists (from_id t), (to_id t).
        rewrite !list_lookup_fmap, Ht. done. }
      by rewrite Hz. }
  split.
  - intros Hne. destruct (filter P l) as [|p rest] eqn:Hf; [done|].
    assert (Hp : p ∈ filter P l) by (rewrite Hf; apply elem_of_cons; by left).
    apply list_elem_of_filter in Hp as [HP Hp]. apply Hl in Hp as (t & Ht & Heq).
    exists t. split; [by eapply list_elem_of_lookup_2|].
    unfold P in HP. rewrite Heq in HP. exact HP.
  - intros (t & Ht & Htouch). apply list_elem_of_lookup in Ht as [i Hi].
    assert (Hp : (i, (from_id t, to_id t)) ∈ filter P l).
    { apply list_elem_of_filter. split; [exact Htouch|]. apply Hl. by exists t. }
    destruct (filter P l); [by apply elem_of_nil in Hp|done].
Qed.

Lemma is_orphan_transition_false (ids : list Z) (t : Transition) :
  is_orphan_transition ids t = false ↔ from_id t ∈ ids ∧ to_id t ∈ ids.
Proof.
  unfold is_orphan_transition. rewrite orb_false_iff, !negb_false_iff, !bool_decide_eq_true.
  done.
Qed.

Lemma elem_of_surviving_states (self : Impurity) (s : State) :
  s ∈ surviving_states self
  ↔ s ∈ states self ∧ is_orphan (transitions self) s = false
    ∧ above_ionization self s = false.
Proof. unfold surviving_states. rewrite !list_elem_of_filter. tauto. Qed.

Lemma elem_of_surviving_transitions (self : Impurity) (t : Transition) :
  t ∈ surviving_transitions self
  ↔ t ∈ transitions self ∧ endpoints_present (surviving_states self) t.
Proof.
  unfold surviving_transitions, endpoints_present.
  rewrite list_elem_of_filter, is_orphan_transition_false. tauto.
Qed.

(** C4 (counterexample).  State 2 is referenced only by a transition to the
    unknown state 7: the orphan-state pass keeps it, the orphan-transition
    pass then drops that transition, and state 2 ends up with no transition
    in a model of three states. *)
Lemma integrity_invariant_fails :
  ∃ self', state_and_transition_checks c4_self [1%float] [1%float] = Ret self'
    ∧ ¬ integrity_invariant self'.
Proof.
  eexists. split; [vm_compute; reflexivity|].
  intros [_ [Hall|Hlen]]; [|discriminate Hlen].
  destruct (Hall (ex_state 2 1 2 0 true)) as (t & Ht & Htouch).
  { simpl. apply elem_of_cons; right. apply elem_of_cons; right.
    apply elem_of_cons; by left. }
  simpl in Ht. apply list_elem_of_singleton in Ht as ->.
  destruct Htouch as [H|H]; discriminate H.
Qed.

(** The same happens through the pass that removes states above the
    ionization threshold when [autoionization] is the object [False]. *)
Lemma threshold_pass_breaks_invariant :
  ∃ self', state_and_transition_checks c4_self_no_autoionization [1%float] [1%float] = Ret self'
    ∧ ¬ integrity_invariant self'.
Proof.
  eexists. split; [vm_compute; reflexivity|].
  intros [_ [Hall|Hlen]]; [|discriminate Hlen].
  destruct (Hall (ex_state 0 0 0 1 true)) as (t & Ht & Htouch).
  { simpl. apply elem_of_cons; by left. }
  simpl in Ht. apply list_elem_of_singleton in Ht as ->.
  destruct Htouch as [H|H]; discriminate H.
Qed.

(** C4 (amended).  When the grid check passes, the checks return a model in
    which every transition has both endpoints among the states, and every
    state is an endpoint of a transition of the list the checks started
    from.  That transition survives, so every state has a transition in the
    result, when every transition given had both endpoints among the states
    given and the threshold pass removes no state. *)
Theorem integrity_checks_postcondition (self : Impurity) (Egrid trans_Egrid : list float) :
  check_grids Egrid trans_Egrid = Ret tt →
  ∃ self', state_and_transition_checks self Egrid trans_Egrid = Ret self'
    ∧ (∀ t, t ∈ transitions self' → endpoints_present (states self') t)
    ∧ (∀ s, s ∈ states self' → ∃ t, t ∈ transitions self ∧ touches t s)
    ∧ ((∀ t, t ∈ transitions self → endpoints_present (states self) t) →
       (∀ s, s ∈ states self → is_orphan (transitions self) s = false →
             above_ionization self s = false) →
       ∀ s, s ∈ states self' → ∃ t, t ∈ transitions self' ∧ touches t s).
Proof.
  intros Hg.
  destruct (state_and_transition_checks_Ret self _ _ Hg) as (self' & Hrun & Hs & Ht).
  exists self'. split; [exact Hrun|]. rewrite Hs, Ht. split; [|split].
  - intros t Hin. by apply elem_of_surviving_transitions in Hin as [_ H].
  - intros s Hin. apply elem_of_surviving_states in Hin as (_ & Ho & _).
    by apply is_orphan_false.
  - intros Hends Hkeep s Hin.
    apply elem_of_surviving_states in Hin as (Hin & Ho & _).
    apply is_orphan_false in Ho as (t & Htin & Htouch).
    exists t. split; [|exact Htouch].
    apply elem_of_surviving_transitions. split; [exact Htin|].
    assert (Hsurv : ∀ i, i ∈ (State_id <$> states self) →
                         (i = from_id t ∨ i = to_id t) →
                         i ∈ (State_id <$> surviving_states self)).
    { intros i Hi Hit. apply list_elem_of_fmap in Hi as (s1 & -> & Hs1).
      apply list_elem_of_fmap. exists s1. split; [done|].
      assert (Ho1 : is_orphan (transitions self) s1 = false).
      { apply is_orphan_false. exists t. split; [exact Htin|].
        unfold touches. destruct Hit as [->| ->]; [by left|by right]. }
      apply elem_of_surviving_states. split; [exact Hs1|]. split; [exact Ho1|].
      by apply Hkeep. }
    destruct (Hends t Htin) as [Hf Hto].
    split; apply Hsurv; auto.
Qed.

Lemma integrity_checks_postcondition_witness :
  ∃ self', state_and_transition_checks c4_self [1%float] [1%float] = Ret self'
    ∧ (∀ t, t ∈ transitions self' → endpoints_present (states self') t)
    ∧ (∀ s, s ∈ states self' → ∃ t, t ∈ transitions c4_self ∧ touches t s)
    ∧ ((∀ t, t ∈ transitions c4_self → endpoints_present (states c4_self) t) →
       (∀ s, s ∈ states c4_self → is_orphan (transitions c4_self) s = false →
             above_ionization c4_self s = false) →
       ∀ s, s ∈ states self' → ∃ t, t ∈ transitions self' ∧ touches t s).
Proof.
  apply (integrity_checks_postcondition c4_self [1%float] [1%float]). reflexivity.
Defined.

(** ** Relative order *)

Lemma precedes_sublist {A} (x y : A) (l k : list A) :
  l `sublist_of` k → precedes x y l → precedes x y k.
Proof.
  intros Hsub (l1 & l2 & l3 & ->).
  apply sublist_app_l in Hsub as (k1 & k2 & -> & _ & Hsub).
  apply sublist_cons_l in Hsub as (k3 & k4 & -> & Hsub).
  apply sublist_app_l in Hsub as (k5 & k6 & -> & _ & Hsub).
  apply sublist_cons_l in Hsub as (k7 & k8 & -> & _).
  exists (k1 ++ k3), (k5 ++ k7), k8. by rewrite <- !app_assoc.
Qed.

Lemma precedes_filter {A} (P : A → Prop) `{!∀ x, Decision (P x)} (x y : A) (l : list A) :
  P x → P y → precedes x y l → precedes x y (filter P l).
Proof.
  intros Hx Hy (l1 & l2 & l3 & ->).
  exists (filter P l1), (filter P l2), (filter P l3).
  rewrite filter_app, filter_cons_True, filter_app, filter_cons_True by done. done.
Qed.

Lemma filter_order_preserved {A} (P : A → Prop) `{!∀ x, Decision (P x)} (l : list A) :
  order_preserved l (filter P l).
Proof.
  split; [apply sublist_filter|]. intros x y Hx Hy.
  apply list_elem_of_filter in Hx as [Hx _]. apply list_elem_of_filter in Hy as [Hy _].
  split; [apply precedes_sublist, sublist_filter|by apply precedes_filter].
Qed.

(** C9.  Each of the three removal passes returns, and keeps the surviving
    states (or transitions) in the relative order they had before the pass:
    the new list is a sublist of the old one, and a survivor precedes another
    survivor after the pass exactly when it did before. *)
Theorem removal_passes_preserve_order (self : Impurity) :
  (∃ self', remove_orphaned_states self = Ret self'
     ∧ order_preserved (states self) (states self')
     ∧ transitions self' = transitions self)
  ∧ (∃ self', remove_states_above_ionization self = Ret self'
       ∧ order_preserved (states self) (states self')
       ∧ transitions self' = transitions self)
  ∧ (∃ self', remove_orphaned_transitions self = Ret self'
       ∧ order_preserved (transitions self) (transitions self')
       ∧ states self' = states self).
Proof.
  split; [|split].
  - eexists. split; [apply remove_orphaned_states_eq|].
    split; [apply filter_order_preserved|done].
  - eexists. split; [apply remove_states_above_ionization_eq|].
    split; [apply filter_order_preserved|done].
  - eexists. split; [apply remove_orphaned_transitions_eq|].
    split; [apply filter_order_preserved|done].
Qed.

(** ** Monadic maps *)

Lemma imapM_Forall2 {A B} (f : A → result B) (l : list A) :
  (∀ x, x ∈ l → ∃ y, f x = Ret y) →
  ∀ i, ∃ l', imapM (λ _, f) i l = Ret l' ∧ Forall2 (λ x y, f x = Ret y) l l'.
Proof.
  induction l as [|x l IH]; intros Hall i.
  - exists []. split; [done|constructor].
  - destruct (Hall x) as [y Hy]; [apply elem_of_cons; by left|].
    destruct (IH (λ z Hz, Hall z (proj2 (elem_of_cons l z x) (or_intror Hz))) (S i))
      as (l' & Hrun & Hl').
    exists (y :: l'). split; [|by constructor].
    simpl. rewrite Hy. simpl. rewrite Hrun. done.
Qed.

Lemma imapM_Ret_inv {A B} (f : A → result B) (l : list A) :
  ∀ i l', imapM (λ _, f) i l = Ret l' → Forall2 (λ x y, f x = Ret y) l l'.
Proof.
  induction l as [|x l IH]; intros i l'; simpl.
  - intros [= <-]. constructor.
  - destruct (f x) as [y|e] eqn:Hy; [|discriminate]. simpl.
    destruct (imapM (λ _, f) (S i) l) as [k|e] eqn:Hk; [|discriminate]. simpl.
    intros [= <-]. constructor; [done|]. by apply (IH (S i)).
Qed.

Lemma imapM_index {A B} (f : nat → A → result B) (g : nat → A → B) (l : list A) :
  ∀ i0, (∀ i x, l !! i = Some x → f (i0 + i)%nat x = Ret (g (i0 + i)%nat x)) →
  imapM f i0 l = Ret (imap (λ i, g (i0 + i)%nat) l).
Proof.
  induction l as [|x l IH]; intros i0 Hall; [done|].
  simpl. pose proof (Hall 0%nat x eq_refl) as Hx. rewrite Nat.add_0_r in Hx.
  rewrite Hx. simpl. rewrite (IH (S i0)).
  - simpl. rewrite Nat.add_0_r. do 2 f_equal. apply imap_ext. intros i y _. simpl.
    f_equal. lia.
  - intros i y Hy. replace (S i0 + i)%nat with (i0 + S i)%nat by lia. by apply Hall.
Qed.

(** ** The id-to-position dictionary *)

Lemma id2pos_from_notin (sts : list State) (k : Z) :
  k ∉ (State_id <$> sts) → ∀ i m, id2pos_from i sts m !! k = m !! k.
Proof.
  induction sts as [|s sts IH]; intros Hk i m; [done|].
  rewrite fmap_cons in Hk. apply not_elem_of_cons in Hk as [Hne Hk].
  simpl. rewrite IH by done. by rewrite lookup_insert_ne.
Qed.

Lemma id2pos_from_lookup (sts : list State) :
  NoDup (State_id <$> sts) →
  ∀ i m j s, sts !! j = Some s → id2pos_from i sts m !! State_id s = Some (i + j)%nat.
Proof.
  induction sts as [|s0 sts IH]; intros Hnd i m j s Hj; [done|].
  rewrite fmap_cons in Hnd. apply NoDup_cons in Hnd as [Hnotin Hnd].
  destruct j as [|j]; simpl in *.
  - injection Hj as ->. rewrite id2pos_from_notin by done.
    rewrite lookup_insert_eq. f_equal. lia.
  - rewrite (IH Hnd (S i) _ j s Hj). f_equal. lia.
Qed.

Lemma id2pos_from_Some (sts : list State) (k : Z) (p : nat) :
  ∀ i m, id2pos_from i sts m !! k = Some p →
  m !! k = Some p ∨ ∃ j s, p = (i + j)%nat ∧ sts !! j = Some s ∧ State_id s = k.
Proof.
  induction sts as [|s0 sts IH]; intros i m Hp; [by left|].
  simpl in Hp. apply IH in Hp as [Hp|(j & s & -> & Hj & Hs)].
  - destruct (decide (State_id s0 = k)) as [Heq|Hne].
    + rewrite Heq, lookup_insert_eq in Hp. injection Hp as <-.
      right. exists 0%nat, s0. split; [lia|done].
    + rewrite lookup_insert_ne in Hp by done. by left.
  - right. exists (S j), s. split; [lia|done].
Qed.

Lemma build_id2pos_lookup (sts : list State) (j : nat) (s : State) :
  NoDup (State_id <$> sts) → sts !! j = Some s →
  build_id2pos sts !! State_id s = Some j.
Proof. intros Hnd Hj. unfold build_id2pos. by rewrite (id2pos_from_lookup sts Hnd 0 ∅ j s). Qed.

Lemma build_id2pos_Some (sts : list State) (k : Z) (p : nat) :
  build_id2pos sts !! k = Some p → ∃ s, sts !! p = Some s ∧ State_id s = k.
Proof.
  intros Hp. apply id2pos_from_Some in Hp as [Hp|(j & s & -> & Hj & Hs)].
  - by rewrite lookup_empty in Hp.
  - by exists s.
Qed.

Lemma build_id2pos_is_Some (sts : list State) (k : Z) :
  k ∈ (State_id <$> sts) → is_Some (build_id2pos sts !! k).
Proof.
  unfold build_id2pos. generalize (∅ : gmap Z nat) 0%nat.
  induction sts as [|s sts IH]; intros m i Hk; [by apply elem_of_nil in Hk|].
  rewrite fmap_cons in Hk. simpl.
  destruct (decide (k ∈ State_id <$> sts)) as [Hin|Hnotin]; [by apply IH|].
  apply elem_of_cons in Hk as [->|Hk]; [|done].
  rewrite id2pos_from_notin by done. rewrite lookup_insert_eq. by eexists.
Qed.

(** ** The position indexer *)

Lemma set_state_positions_ids (self : Impurity) :
  State_id <$> states (set_state_positions self) = State_id <$> states self.
Proof.
  simpl. rewrite fmap_imap. rewrite <- (imap_const State_id). by apply imap_ext.
Qed.

Lemma set_state_positions_pos (self : Impurity) :
  pos <$> states (set_state_positions self) = seq 0 (length (states self)).
Proof.
  simpl. rewrite fmap_imap.
  rewrite (imap_ext _ (λ j _, id j)) by done.
  by rewrite imap_seq_0, list_fmap_id.
Qed.

Lemma set_state_positions_forget (self : Impurity) :
  forget_pos <$> states (set_state_positions self) = forget_pos <$> states self.
Proof.
  simpl. rewrite fmap_imap. rewrite <- (imap_const forget_pos). by apply imap_ext.
Qed.

Lemma position_transition_Ret (id2pos : gmap Z nat) (t t' : Transition) :
  position_transition id2pos t = Ret t' →
  same_transition t t' ∧ id2pos !! from_id t = Some (from_pos t')
  ∧ id2pos !! to_id t = Some (to_pos t').
Proof.
  unfold position_transition.
  destruct (id2pos !! from_id t) as [fp|]; [|discriminate].
  destruct (id2pos !! to_id t) as [tp|]; [|discriminate].
  simpl. intros [= <-]. by repeat split.
Qed.

Lemma set_transition_positions_Ret (self : Impurity) :
  (∀ t, t ∈ transitions self → endpoints_present (states self) t) →
  ∃ trs, set_transition_positions self = Ret (set_transitions self trs)
    ∧ Forall2 (λ t t', position_transition (build_id2pos (states self)) t = Ret t')
              (transitions self) trs.
Proof.
  intros Hends.
  destruct (imapM_Forall2 (position_transition (build_id2pos (states self)))
              (transitions self)) with (i := 0%nat) as (trs & Hrun & Htrs).
  { intros t Ht. destruct (Hends t Ht) as [Hf Hto].
    apply build_id2pos_is_Some in Hf as [fp Hf]. apply build_id2pos_is_Some in Hto as [tp Hto].
    unfold position_transition. rewrite Hf, Hto. by eexists. }
  exists trs. split; [|exact Htrs].
  unfold set_transition_positions. cbv zeta.
  assert (Hrun' : imapM (λ _ t, position_transition (build_id2pos (states self)) t) 0
                    (transitions self) = Ret trs) by exact Hrun.
  by rewrite Hrun'.
Qed.

(** C5.  When the state ids are pairwise distinct and every transition has
    both endpoints among the states, the position indexer returns; afterwards
    the [pos] values are 0, 1, ..., count - 1 in list order (the count being
    the length of the state list, and [tot_states] when that attribute is in
    step with the list), nothing but positions has changed, and each
    transition's [from_pos] and [to_pos] are the [pos] of the states whose id
    is its [from_id] and [to_id]. *)
Theorem position_indexer_spec (self : Impurity) :
  NoDup (State_id <$> states self) →
  (∀ t, t ∈ transitions self → endpoints_present (states self) t) →
  ∃ self', set_transition_positions (set_state_positions self) = Ret self'
    ∧ pos <$> states self' = seq 0 (length (states self'))
    ∧ (tot_states self = Z.of_nat (length (states self)) →
       pos <$> states self' = seq 0 (Z.to_nat (tot_states self')))
    ∧ forget_pos <$> states self' = forget_pos <$> states self
    ∧ Forall2 same_transition (transitions self) (transitions self')
    ∧ (∀ t', t' ∈ transitions self' →
         (∃ s', s' ∈ states self' ∧ State_id s' = from_id t')
         ∧ (∃ s', s' ∈ states self' ∧ State_id s' = to_id t')
         ∧ ∀ s', s' ∈ states self' →
             (State_id s' = from_id t' → from_pos t' = pos s')
             ∧ (State_id s' = to_id t' → to_pos t' = pos s')).
Proof.
  intros Hnd Hends.
  pose proof (set_state_positions_ids self) as Hids.
  destruct (set_transition_positions_Ret (set_state_positions self))
    as (trs & Hrun & Htrs).
  { intros t Ht. unfold endpoints_present. rewrite Hids. by apply Hends. }
  exists (set_transitions (set_state_positions self) trs).
  split; [exact Hrun|].
  change (states (set_transitions (set_state_positions self) trs))
    with (states (set_state_positions self)).
  change (transitions (set_transitions (set_state_positions self) trs)) with trs.
  change (transitions (set_state_positions self)) with (transitions self) in Htrs.
  assert (Hlen : length (states (set_state_positions self)) = length (states self)).
  { simpl. apply length_imap. }
  assert (Hpos : ∀ j s', states (set_state_positions self) !! j = Some s' → pos s' = j).
  { intros j s' Hj. simpl in Hj. rewrite list_lookup_imap in Hj.
    destruct (states self !! j); [|done]. simpl in Hj. by injection Hj as <-. }
  assert (Hnd' : NoDup (State_id <$> states (set_state_positions self))) by by rewrite Hids.
  split; [by rewrite set_state_positions_pos, Hlen|].
  split.
  { intros Htot. rewrite set_state_positions_pos. simpl. rewrite Htot. by rewrite Nat2Z.id. }
  split; [apply set_state_positions_forget|].
  split.
  { eapply Forall2_impl; [exact Htrs|]. intros t t' Ht.
    by apply position_transition_Ret in Ht as [? _]. }
  intros t' Ht'. apply list_elem_of_lookup in Ht' as [i Hi].
  destruct (Forall2_lookup_r _ _ _ _ _ Htrs Hi) as (t & Hti & Hpt).
  apply position_transition_Ret in Hpt as ((_ & Hf & Hto & _) & Hfp & Htp).
  rewrite <- Hf in Hfp. rewrite <- Hto in Htp.
  pose proof (build_id2pos_Some _ _ _ Hfp) as (sf & Hsf & Hsfid).
  pose proof (build_id2pos_Some _ _ _ Htp) as (st & Hst & Hstid).
  split; [exists sf; split; [by eapply list_elem_of_lookup_2|done]|].
  split; [exists st; split; [by eapply list_elem_of_lookup_2|done]|].
  intros s' Hs'. apply list_elem_of_lookup in Hs' as [j Hj].
  pose proof (build_id2pos_lookup _ _ _ Hnd' Hj) as Hlook.
  rewrite (Hpos _ _ Hj).
  split; intros Heq; rewrite Heq in Hlook; congruence.
Qed.

Lemma position_indexer_spec_witness :
  ∃ self', set_transition_positions (set_state_positions ex_model) = Ret self'
    ∧ pos <$> states self' = seq 0 (length (states self'))
    ∧ (tot_states ex_model = Z.of_nat (length (states ex_model)) →
       pos <$> states self' = seq 0 (Z.to_nat (tot_states self')))
    ∧ forget_pos <$> states self' = forget_pos <$> states ex_model
    ∧ Forall2 same_transition (transitions ex_model) (transitions self')
    ∧ (∀ t', t' ∈ transitions self' →
         (∃ s', s' ∈ states self' ∧ State_id s' = from_id t')
         ∧ (∃ s', s' ∈ states self' ∧ State_id s' = to_id t')
         ∧ ∀ s', s' ∈ states self' →
             (State_id s' = from_id t' → from_pos t' = pos s')
             ∧ (State_id s' = to_id t' → to_pos t' = pos s')).
Proof.
  apply (position_indexer_spec ex_model).
  - apply (bool_decide_unpack _). vm_compute. reflexivity.
  - apply Forall_forall. unfold endpoints_present.
    apply (bool_decide_unpack _). vm_compute. reflexivity.
Defined.

(** ** Reordering into primary and secondary states *)

Lemma reorder_PQ_states_ground (self : Impurity) :
  reorder_PQ_states self "ground"
  = set_transition_positions (set_state_positions (partitioned self)).
Proof. reflexivity. Qed.

Lemma partition_Permutation (self : Impurity) :
  ground_states self ++ other_states self ≡ₚ states self.
Proof.
  unfold ground_states, other_states.
  rewrite (list_filter_iff (λ s, ground s = false) (λ s, ¬ ground s = true)).
  - apply filter_app_complement.
  - intros s. destruct (ground s); naive_solver.
Qed.

Lemma filter_app_split {A} (P : A → Prop) `{!∀ x, Decision (P x)} (l1 l2 : list A) :
  (∀ x, x ∈ l1 → P x) → (∀ x, x ∈ l2 → ¬ P x) → filter P (l1 ++ l2) = l1.
Proof.
  intros H1 H2. rewrite filter_app, (filter_all P l1 H1), (filter_none P l2 H2).
  apply app_nil_r.
Qed.

Lemma filter_app_split_r {A} (P : A → Prop) `{!∀ x, Decision (P x)} (l1 l2 : list A) :
  (∀ x, x ∈ l1 → ¬ P x) → (∀ x, x ∈ l2 → P x) → filter P (l1 ++ l2) = l2.
Proof.
  intros H1 H2. by rewrite filter_app, (filter_none P l1 H1), (filter_all P l2 H2).
Qed.

(** C8.  When every transition has both endpoints among the states,
    [reorder_PQ_states("ground")] returns; the first [num_P_states] states
    are then the ground states in their previous order and the others follow
    in their previous order (positions apart), the two counts add up to the
    number of states there was, and the states and the transitions are the
    same as before, positions apart. *)
Theorem reorder_PQ_states_spec (self : Impurity) :
  (∀ t, t ∈ transitions self → endpoints_present (states self) t) →
  ∃ self', reorder_PQ_states self "ground" = Ret self'
    ∧ forget_pos <$> take (num_P_states self') (states self')
      = forget_pos <$> filter (λ s, ground s = true) (states self)
    ∧ forget_pos <$> drop (num_P_states self') (states self')
      = forget_pos <$> filter (λ s, ground s = false) (states self)
    ∧ (num_P_states self' + num_Q_states self' = length (states self))%nat
    ∧ (tot_states self = Z.of_nat (length (states self)) →
       Z.of_nat (num_P_states self' + num_Q_states self') = tot_states self')
    ∧ forget_pos <$> states self' ≡ₚ forget_pos <$> states self
    ∧ Forall2 same_transition (transitions self) (transitions self').
Proof.
  intros Hends. rewrite reorder_PQ_states_ground.
  pose proof (partition_Permutation self) as Hperm.
  destruct (set_transition_positions_Ret (set_state_positions (partitioned self)))
    as (trs & Hrun & Htrs).
  { intros t Ht. unfold endpoints_present. rewrite set_state_positions_ids.
    simpl. rewrite Hperm. by apply Hends. }
  eexists. split; [exact Hrun|].
  change (states (set_transitions (set_state_positions (partitioned self)) trs))
    with (states (set_state_positions (partitioned self))).
  assert (Hforget : forget_pos <$> states (set_state_positions (partitioned self))
                    = (forget_pos <$> ground_states self) ++ (forget_pos <$> other_states self)).
  { rewrite set_state_positions_forget. simpl. apply fmap_app. }
  assert (Hsum : (length (ground_states self) + length (other_states self)
                  = length (states self))%nat).
  { rewrite <- length_app. by rewrite Hperm. }
  simpl num_P_states. simpl num_Q_states. simpl tot_states.
  split; [|split; [|split; [|split; [|split]]]].
  - rewrite fmap_take, Hforget. apply take_app_length'. by rewrite length_fmap.
  - rewrite fmap_drop, Hforget. apply drop_app_length'. by rewrite length_fmap.
  - exact Hsum.
  - intros ->. by rewrite Hsum.
  - rewrite Hforget, <- fmap_app. by rewrite Hperm.
  - eapply Forall2_impl; [exact Htrs|]. intros t t' Ht.
    by apply position_transition_Ret in Ht as [? _].
Qed.

Lemma reorder_PQ_states_spec_witness :
  ∃ self', reorder_PQ_states ex_model "ground" = Ret self'
    ∧ forget_pos <$> take (num_P_states self') (states self')
      = forget_pos <$> filter (λ s, ground s = true) (states ex_model)
    ∧ forget_pos <$> drop (num_P_states self') (states self')
      = forget_pos <$> filter (λ s, ground s = false) (states ex_model)
    ∧ (num_P_states self' + num_Q_states self' = length (states ex_model))%nat
    ∧ (tot_states ex_model = Z.of_nat (length (states ex_model)) →
       Z.of_nat (num_P_states self' + num_Q_states self') = tot_states self')
    ∧ forget_pos <$> states self' ≡ₚ forget_pos <$> states ex_model
    ∧ Forall2 same_transition (transitions ex_model) (transitions self').
Proof.
  apply (reorder_PQ_states_spec ex_model).
  apply Forall_forall. unfold endpoints_present.
  apply (bool_decide_unpack _). vm_compute. reflexivity.
Defined.

Lemma with_pos_own (s : State) (j : nat) : pos s = j → with_pos s j = s.
Proof. intros <-. by destruct s. Qed.

Lemma imap_with_pos_fixed (l : list State) :
  (∀ j s, l !! j = Some s → pos s = j) → imap (λ i s, with_pos s i) l = l.
Proof.
  intros Hpos. apply list_eq. intros j. rewrite list_lookup_imap.
  destruct (l !! j) as [s|] eqn:Hj; [|done]. simpl. f_equal.
  by apply with_pos_own, Hpos.
Qed.

Lemma position_transition_again (id2pos : gmap Z nat) (t t' : Transition) :
  position_transition id2pos t = Ret t' → position_transition id2pos t' = Ret t'.
Proof.
  intros Ht. pose proof (position_transition_Ret _ _ _ Ht) as ((_ & Hf & Hto & _) & Hfp & Htp).
  unfold position_transition. rewrite Hf, Hto, Hfp, Htp. simpl.
  rewrite <- Hf, <- Hto. by destruct t'.
Qed.

Lemma imapM_again {A} (f : A → result A) (l l' : list A) :
  (∀ x y, f x = Ret y → f y = Ret y) →
  Forall2 (λ x y, f x = Ret y) l l' → ∀ i, imapM (λ _, f) i l' = Ret l'.
Proof.
  intros Hf Hl. induction Hl as [|x y l l' Hxy _ IH]; intros i; [done|].
  simpl. rewrite (Hf _ _ Hxy). simpl. by rewrite IH.
Qed.

Lemma Impurity_ext (a b : Impurity) :
  name a = name b → resolve_j a = resolve_j b → resolve_l a = resolve_l b →
  state_ids a = state_ids b → kinetic_electrons a = kinetic_electrons b →
  maxwellian_electrons a = maxwellian_electrons b →
  saha_boltzmann_init a = saha_boltzmann_init b →
  fixed_fraction_init a = fixed_fraction_init b → frac_imp_dens a = frac_imp_dens b →
  ionization a = ionization b → autoionization a = autoionization b →
  emission a = emission b → radiative_recombination a = radiative_recombination b →
  excitation a = excitation b → T_norm a = T_norm b → n_norm a = n_norm b →
  nuc_chg a = nuc_chg b → num_Z a = num_Z b → longname a = longname b →
  states a = states b → tot_states a = tot_states b → transitions a = transitions b →
  dens a = dens b → dens_Max a = dens_Max b → num_P_states a = num_P_states b →
  num_Q_states a = num_Q_states b → a = b.
Proof. destruct a, b. simpl. intros. by subst. Qed.

Lemma set_transition_positions_inv (self self' : Impurity) :
  set_transition_positions self = Ret self' →
  ∃ trs, self' = set_transitions self trs
    ∧ Forall2 (λ t t', position_transition (build_id2pos (states self)) t = Ret t')
              (transitions self) trs.
Proof.
  unfold set_transition_positions. cbv zeta.
  destruct (imapM (λ _ t, position_transition (build_id2pos (states self)) t) 0
              (transitions self)) as [trs|e] eqn:Htrs; [|discriminate].
  intros [= <-]. exists trs. split; [done|].
  by apply (imapM_Ret_inv (position_transition (build_id2pos (states self))) _ 0%nat).
Qed.

(** The state list after one reordering is already partitioned and
    positioned: partitioning and positioning it again changes nothing. *)
Lemma partition_positions_fixed (self self1 : Impurity) :
  states self1 = states (set_state_positions (partitioned self)) →
  states (set_state_positions (partitioned self1)) = states self1
  ∧ length (ground_states self1) = length (ground_states self)
  ∧ length (other_states self1) = length (other_states self).
Proof.
  intros Hs1.
  set (L := imap (λ i s, with_pos s i) (ground_states self ++ other_states self)).
  change (states (set_state_positions (partitioned self))) with L in Hs1.
  assert (HL : L = imap (λ i s, with_pos s i) (ground_states self)
                   ++ imap (λ i s, with_pos s (length (ground_states self) + i))
                        (other_states self)).
  { unfold L. by rewrite imap_app. }
  assert (HG : ∀ x, x ∈ imap (λ i s, with_pos s i) (ground_states self) → ground x = true).
  { intros x Hx. apply list_elem_of_lookup in Hx as [j Hj].
    rewrite list_lookup_imap in Hj.
    destruct (ground_states self !! j) as [s|] eqn:Hs; [|done].
    simpl in Hj. injection Hj as <-. simpl.
    apply list_elem_of_lookup_2 in Hs. by apply list_elem_of_filter in Hs as [? _]. }
  assert (HO : ∀ x, x ∈ imap (λ i s, with_pos s (length (ground_states self) + i))
                          (other_states self) → ground x = false).
  { intros x Hx. apply list_elem_of_lookup in Hx as [j Hj].
    rewrite list_lookup_imap in Hj.
    destruct (other_states self !! j) as [s|] eqn:Hs; [|done].
    simpl in Hj. injection Hj as <-. simpl.
    apply list_elem_of_lookup_2 in Hs. by apply list_elem_of_filter in Hs as [? _]. }
  assert (Hg1 : ground_states self1 = imap (λ i s, with_pos s i) (ground_states self)).
  { unfold ground_states at 1. rewrite Hs1, HL.
    apply filter_app_split; [exact HG|]. intros x Hx. rewrite (HO x Hx). discriminate. }
  assert (Ho1 : other_states self1
                = imap (λ i s, with_pos s (length (ground_states self) + i))
                    (other_states self)).
  { unfold other_states at 1. rewrite Hs1, HL.
    apply filter_app_split_r; [|exact HO]. intros x Hx. rewrite (HG x Hx). discriminate. }
  assert (Hfix : imap (λ i s, with_pos s i) L = L).
  { apply imap_with_pos_fixed. intros j s Hj. unfold L in Hj.
    rewrite list_lookup_imap in Hj.
    destruct ((ground_states self ++ other_states self) !! j); [|done].
    simpl in Hj. by injection Hj as <-. }
  split; [|split].
  - change (states (set_state_positions (partitioned self1)))
      with (imap (λ i s, with_pos s i) (ground_states self1 ++ other_states self1)).
    rewrite Hg1, Ho1, <- HL, Hs1. exact Hfix.
  - by rewrite Hg1, length_imap.
  - by rewrite Ho1, length_imap.
Qed.

(** C10.  A second call of [reorder_PQ_states("ground")] returns the object
    the first call returned: the same state order, counts, positions and
    transition positions. *)
Theorem reorder_PQ_states_idempotent (self self1 : Impurity) :
  reorder_PQ_states self "ground" = Ret self1 →
  reorder_PQ_states self1 "ground" = Ret self1.
Proof.
  rewrite !reorder_PQ_states_ground. intros Hrun.
  apply set_transition_positions_inv in Hrun as (trs & Hself1 & Htrs).
  assert (Hs1 : states self1 = states (set_state_positions (partitioned self)))
    by by rewrite Hself1.
  assert (Ht1 : transitions self1 = trs) by by rewrite Hself1.
  assert (HP1 : num_P_states self1 = length (ground_states self)) by by rewrite Hself1.
  assert (HQ1 : num_Q_states self1 = length (other_states self)) by by rewrite Hself1.
  clear Hself1.
  destruct (partition_positions_fixed self self1 Hs1) as (Hst & Hlg & Hlo).
  assert (Hagain : imapM (λ _ t, position_transition (build_id2pos (states self1)) t) 0 trs
                   = Ret trs).
  { apply (imapM_again (position_transition (build_id2pos (states self1)))
             (transitions (set_state_positions (partitioned self))) trs);
      [apply position_transition_again|]. by rewrite Hs1. }
  unfold set_transition_positions. cbv zeta. rewrite Hst.
  change (transitions (set_state_positions (partitioned self1))) with (transitions self1).
  rewrite Ht1, Hagain.
  change (Ret (set_transitions (set_state_positions (partitioned self1)) trs) = Ret self1).
  f_equal. apply Impurity_ext; try reflexivity.
  - exact Hst.
  - by symmetry.
  - change (length (ground_states self1) = num_P_states self1). by rewrite Hlg, HP1.
  - change (length (other_states self1) = num_Q_states self1). by rewrite Hlo, HQ1.
Qed.

Lemma reorder_PQ_states_idempotent_witness :
  ∃ self1, reorder_PQ_states ex_model "ground" = Ret self1
    ∧ reorder_PQ_states self1 "ground" = Ret self1.
Proof.
  eexists. split; [vm_compute; reflexivity|].
  apply (reorder_PQ_states_idempotent ex_model). vm_compute. reflexivity.
Defined.

(** ** np.argmin *)

Lemma argmin_from_spec (l : list Q) :
  ∀ (pre : list Q) (bi : nat) (b : Q) (i : nat),
  length pre = i → pre !! bi = Some b →
  (∀ j w, pre !! j = Some w → (b <= w)%Q) →
  (∀ j w, (j < bi)%nat → pre !! j = Some w → (b < w)%Q) →
  ∃ v, (pre ++ l) !! argmin_from bi b i l = Some v
    ∧ (∀ j w, (pre ++ l) !! j = Some w → (v <= w)%Q)
    ∧ (∀ j w, (j < argmin_from bi b i l)%nat → (pre ++ l) !! j = Some w → (v < w)%Q).
Proof.
  induction l as [|x l IH]; intros pre bi b i Hlen Hbi Hle Hlt.
  - simpl. rewrite app_nil_r. by exists b.
  - simpl. replace (pre ++ x :: l) with ((pre ++ [x]) ++ l) by by rewrite <- app_assoc.
    assert (Hlen' : length (pre ++ [x]) = S i) by (rewrite length_app; simpl; lia).
    destruct (Qlt_bool x b) eqn:E.
    + apply Qlt_bool_iff in E. apply IH; [done| | |].
      * rewrite lookup_app_r by lia. by rewrite Hlen, Nat.sub_diag.
      * intros j w Hj. destruct (decide (j < i)%nat) as [Hji|Hji].
        -- rewrite lookup_app_l in Hj by lia.
           apply Qlt_le_weak, Qlt_le_trans with b; [done|by eapply Hle].
        -- rewrite lookup_app_r in Hj by lia.
           destruct (j - length pre)%nat as [|n] eqn:En; [|by destruct n].
           simpl in Hj. injection Hj as <-. apply Qle_refl.
      * intros j w Hji Hj. rewrite lookup_app_l in Hj by lia.
        apply Qlt_le_trans with b; [done|by eapply Hle].
    + apply Qlt_bool_false_iff in E.
      assert (Hbi_lt : (bi < i)%nat) by (rewrite <- Hlen; by eapply lookup_lt_Some).
      apply IH; [done| | |].
      * rewrite lookup_app_l by lia. done.
      * intros j w Hj. destruct (decide (j < i)%nat) as [Hji|Hji].
        -- rewrite lookup_app_l in Hj by lia. by eapply Hle.
        -- rewrite lookup_app_r in Hj by lia.
           destruct (j - length pre)%nat as [|n] eqn:En; [|by destruct n].
           simpl in Hj. by injection Hj as <-.
      * intros j w Hjb Hj. rewrite lookup_app_l in Hj by lia. by eapply Hlt.
Qed.

Lemma np_argmin_spec (l : list Q) :
  l ≠ [] →
  ∃ m v, np_argmin l = Ret m ∧ l !! m = Some v
    ∧ (∀ j w, l !! j = Some w → (v <= w)%Q)
    ∧ (∀ j w, (j < m)%nat → l !! j = Some w → (v < w)%Q).
Proof.
  destruct l as [|x l]; [done|]. intros _.
  destruct (argmin_from_spec l [x] 0 x 1) as (v & Hv & Hle & Hlt).
  - done.
  - done.
  - intros [|j] w Hj; [|done]. simpl in Hj. injection Hj as <-. apply Qle_refl.
  - intros j w Hj. lia.
  - exists (argmin_from 0 x 1 l), v. by repeat split.
Qed.

Lemma filter_eq_app_cons {A} (P : A → Prop) `{!∀ x, Decision (P x)} (l : list A) :
  ∀ (k1 : list A) (x : A) (k2 : list A),
  filter P l = k1 ++ x :: k2 →
  ∃ pre post, l = pre ++ x :: post ∧ filter P pre = k1 ∧ filter P post = k2.
Proof.
  induction l as [|y l IH]; intros k1 x k2 Hf.
  - by destruct k1.
  - destruct (decide (P y)) as [Hy|Hy].
    + rewrite filter_cons_True in Hf by done. destruct k1 as [|a k1].
      * simpl in Hf. injection Hf as -> Hf. by exists [], l.
      * simpl in Hf. injection Hf as -> Hf.
        destruct (IH _ _ _ Hf) as (pre & post & -> & Hpre & Hpost).
        exists (a :: pre), post. split; [done|].
        rewrite filter_cons_True by done. by rewrite Hpre.
    + rewrite filter_cons_False in Hf by done.
      destruct (IH _ _ _ Hf) as (pre & post & -> & Hpre & Hpost).
      exists (y :: pre), post. split; [done|].
      by rewrite filter_cons_False.
Qed.

Lemma for_each_seq_inv {S : Type} (body : nat → S → result S) (Inv : nat → S → Prop)
    (n : nat) :
  ∀ (a : nat) (s : S), Inv a s →
  (∀ k s, (a ≤ k < a + n)%nat → Inv k s → ∃ s', body k s = Ret s' ∧ Inv (Datatypes.S k) s') →
  ∃ s', for_each body (seq a n) s = Ret s' ∧ Inv (a + n)%nat s'.
Proof.
  induction n as [|n IH]; intros a s Hs Hbody.
  - exists s. by rewrite Nat.add_0_r.
  - destruct (Hbody a s) as (s1 & Hrun & Hs1); [lia|done|].
    destruct (IH (Datatypes.S a) s1 Hs1) as (s' & Hrun' & Hs').
    { intros k s2 Hk. apply Hbody. lia. }
    exists s'. simpl. rewrite Hrun. simpl. rewrite Hrun'.
    split; [done|]. by replace (a + Datatypes.S n)%nat with (Datatypes.S a + n)%nat by lia.
Qed.

(** ** Ground states and ionization energies *)

Lemma ground_of_unique (sts : list State) (k : Z) (i j : nat) (g h : State) :
  ground_of sts k i g → ground_of sts k j h → i = j ∧ g = h.
Proof.
  intros (Hi & Hgk & Hgle & Hglt) (Hj & Hhk & Hhle & Hhlt).
  assert (Hij : i = j).
  { destruct (lt_eq_lt_dec i j) as [[Hlt|Heq]|Hlt]; [|done|].
    - exfalso. apply (Qlt_not_le _ _ (Hhlt i g Hlt Hi Hgk)). by eapply Hgle.
    - exfalso. apply (Qlt_not_le _ _ (Hglt j h Hlt Hj Hhk)). by eapply Hhle. }
  subst j. split; [done|]. congruence.
Qed.

Section ionization_energies.

Variable equals : State → State → bool.
Variable sts : list State.
Variable nZ : nat.

Hypothesis equals_refl : ∀ s, equals s s = true.
Hypothesis equals_sep : ∀ s t, s ∈ sts → t ∈ sts → equals s t = true → s = t.
Hypothesis stage_in_range : ∀ s, s ∈ sts → 0 ≤ State_Z s < Z.of_nat nZ.
Hypothesis stage_present : ∀ k, (k < nZ)%nat → ∃ s, s ∈ sts ∧ State_Z s = Z.of_nat k.

Lemma find_ground_state_spec (k : nat) (acc : list Q * list Z) :
  (k < nZ)%nat →
  ∃ i g, ground_of sts (Z.of_nat k) i g
    ∧ find_ground_state equals sts k acc
      = Ret (<[k := energy g]> (fst acc), <[k := Z.of_nat i]> (snd acc)).
Proof using equals_refl equals_sep stage_present.
  intros Hk. unfold find_ground_state.
  set (P := λ s : State, State_Z s = Z.of_nat k).
  destruct (stage_present k Hk) as (s0 & Hs0 & Hs0k).
  assert (Hne : energy <$> filter P sts ≠ []).
  { intros Hnil. apply fmap_nil_inv in Hnil.
    by apply (filter_nil_not_elem_of P sts s0 Hnil). }
  destruct (np_argmin_spec _ Hne) as (m & v & -> & Hm & Hle & Hlt). simpl.
  rewrite list_lookup_fmap in Hm.
  destruct (filter P sts !! m) as [gs|] eqn:Hgs; [|done].
  simpl in Hm. injection Hm as <-. simpl.
  pose proof (take_drop_middle _ _ _ Hgs) as Hsplit. symmetry in Hsplit.
  destruct (filter_eq_app_cons P sts _ _ _ Hsplit) as (pre & post & Hsts & Hpre & Hpost).
  assert (Hgs_in : gs ∈ filter P sts) by by eapply list_elem_of_lookup_2.
  apply list_elem_of_filter in Hgs_in as [Hgsk Hgs_in].
  assert (Hmin : ∀ t, t ∈ sts → State_Z t = Z.of_nat k → (energy gs <= energy t)%Q).
  { intros t Ht Htk. assert (Hin : t ∈ filter P sts) by by apply list_elem_of_filter.
    apply list_elem_of_lookup in Hin as [j Hj]. apply (Hle j).
    by rewrite list_lookup_fmap, Hj. }
  assert (Hstrict : ∀ t, t ∈ pre → State_Z t = Z.of_nat k → (energy gs < energy t)%Q).
  { intros t Ht Htk. assert (Hin : t ∈ filter P pre) by by apply list_elem_of_filter.
    rewrite Hpre in Hin. apply list_elem_of_lookup in Hin as [j Hj].
    apply lookup_take_Some in Hj as [Hj Hjm]. apply (Hlt j); [done|].
    by rewrite list_lookup_fmap, Hj. }
  assert (Hat : sts !! length pre = Some gs) by (rewrite Hsts; apply list_lookup_middle; done).
  assert (Hfind : list_find (λ s, equals s gs = true) sts = Some (length pre, gs)).
  { apply list_find_Some. split; [done|]. split; [apply equals_refl|].
    intros j y Hj Hjpre Heq.
    assert (Hy : y ∈ pre).
    { rewrite Hsts, lookup_app_l in Hj by done. by eapply list_elem_of_lookup_2. }
    assert (y = gs) as ->.
    { apply equals_sep; [by eapply list_elem_of_lookup_2|done|done]. }
    by apply (Qlt_irrefl (energy gs)), Hstrict. }
  rewrite Hfind. exists (length pre), gs. split; [|done].
  split; [done|]. split; [done|]. split.
  - intros j t Hj Htk. apply Hmin; [by eapply list_elem_of_lookup_2|done].
  - intros j t Hjpre Hj Htk. apply Hstrict; [|done].
    rewrite Hsts, lookup_app_l in Hj by done. by eapply list_elem_of_lookup_2.
Qed.

Lemma find_ground_states_spec :
  ∃ acc, for_each (find_ground_state equals sts) (seq 0 nZ)
           (replicate nZ 0%Q, replicate nZ 0) = Ret acc
    ∧ grounds_found sts nZ nZ acc.
Proof using equals_refl equals_sep stage_present.
  apply (for_each_seq_inv (find_ground_state equals sts) (grounds_found sts nZ) nZ 0).
  - split; [apply length_replicate|]. split; [apply length_replicate|]. intros k' Hk'. lia.
  - intros k acc Hk (HlenE & HlenP & Hfound).
    destruct (find_ground_state_spec k acc) as (i & g & Hg & Hrun); [lia|].
    eexists. split; [exact Hrun|]. unfold grounds_found. simpl.
    split; [by rewrite length_insert|]. split; [by rewrite length_insert|].
    intros k' Hk'. destruct (decide (k' = k)) as [->|Hne].
    + exists i, g. split; [done|].
      rewrite !list_lookup_insert_eq by lia. done.
    + destruct (Hfound k') as (i' & g' & Hg' & HE & HP); [lia|].
      exists i', g'. split; [done|].
      rewrite !list_lookup_insert_ne by done. done.
Qed.

Lemma np_getitem_nat {A} (a : list A) (k : Z) (x : A) :
  0 ≤ k → a !! Z.to_nat k = Some x → np_getitem a k = Ret x.
Proof.
  intros Hk Hx. unfold np_getitem.
  pose proof (lookup_lt_Some _ _ _ Hx) as Hlt.
  rewrite (proj2 (Z.leb_le 0 k) Hk), (proj2 (Z.ltb_lt k _)) by lia.
  simpl. by rewrite Hx.
Qed.

Lemma mark_state_spec (acc : list Q * list Z) (i : nat) (s : State) :
  grounds_found sts nZ nZ acc → sts !! i = Some s →
  ∃ s', mark_state nZ (fst acc) (snd acc) i s = Ret s'
    ∧ State_id s' = State_id s ∧ State_Z s' = State_Z s ∧ energy s' = energy s
    ∧ stat_weight s' = stat_weight s ∧ pos s' = pos s
    ∧ (ground s' = true ↔ ground_of sts (State_Z s) i s)
    ∧ (State_Z s < Z.of_nat nZ - 1 →
       ∃ j g, ground_of sts (State_Z s + 1) j g ∧ iz_energy s' = (energy g - energy s)%Q)
    ∧ (State_Z s = Z.of_nat nZ - 1 → iz_energy s' = 0%Q)
    ∧ (∃ j g, ground_of sts (State_Z s) j g
              ∧ energy_from_gs s' = (energy s - energy g)%Q).
Proof using stage_in_range.
  intros (HlenE & HlenP & Hfound) Hi.
  assert (Hs : s ∈ sts) by by eapply list_elem_of_lookup_2.
  pose proof (stage_in_range s Hs) as Hrange.
  destruct (Hfound (Z.to_nat (State_Z s))) as (j0 & g0 & Hg0 & HE0 & HP0); [lia|].
  rewrite Z2Nat.id in Hg0 by lia.
  unfold mark_state. rewrite (np_getitem_nat _ _ _ (proj1 Hrange) HE0).
  assert (Hground : bool_decide (Z.of_nat i ∈ snd acc) = true
                    ↔ ground_of sts (State_Z s) i s).
  { rewrite bool_decide_eq_true. split.
    - intros Hin. apply list_elem_of_lookup in Hin as [k' Hk'].
      pose proof (lookup_lt_Some _ _ _ Hk') as Hlt. rewrite HlenP in Hlt.
      destruct (Hfound k' Hlt) as (i' & g' & Hg' & _ & HP').
      rewrite Hk' in HP'. injection HP' as HP'. apply Nat2Z.inj in HP'. subst i'.
      destruct Hg' as (Hi' & Hk & Hrest). rewrite Hi in Hi'. injection Hi' as <-.
      rewrite Hk. by split.
    - intros Hg. destruct (ground_of_unique _ _ _ _ _ _ Hg Hg0) as [-> _].
      by eapply list_elem_of_lookup_2. }
  destruct (State_Z s <? Z.of_nat nZ - 1) eqn:Etop.
  - apply Z.ltb_lt in Etop.
    destruct (Hfound (Z.to_nat (State_Z s + 1))) as (j1 & g1 & Hg1 & HE1 & _); [lia|].
    rewrite Z2Nat.id in Hg1 by lia.
    assert (Hnext : 0 ≤ State_Z s + 1) by lia.
    rewrite (np_getitem_nat _ _ _ Hnext HE1). simpl.
    eexists. split; [reflexivity|]. simpl.
    do 5 (split; [done|]). split; [exact Hground|].
    split; [intros _; by exists j1, g1|]. split; [intros Heq; lia|].
    by exists j0, g0.
  - apply Z.ltb_ge in Etop. simpl.
    eexists. split; [reflexivity|]. simpl.
    do 5 (split; [done|]). split; [exact Hground|].
    split; [intros Hlt; lia|]. split; [done|].
    by exists j0, g0.
Qed.

End ionization_energies.

Lemma imapM_exists {A B} (f : nat → A → result B) (R : nat → A → B → Prop) (l : list A) :
  ∀ i0, (∀ i x, l !! i = Some x → ∃ y, f (i0 + i)%nat x = Ret y ∧ R (i0 + i)%nat x y) →
  ∃ l', imapM f i0 l = Ret l' ∧ length l' = length l
    ∧ ∀ i x, l !! i = Some x → ∃ y, l' !! i = Some y ∧ R (i0 + i)%nat x y.
Proof.
  induction l as [|x l IH]; intros i0 Hall.
  - exists []. by repeat split.
  - destruct (Hall 0%nat x eq_refl) as (y & Hy & HR). rewrite Nat.add_0_r in Hy, HR.
    destruct (IH (S i0)) as (l' & Hrun & Hlen & Hl').
    { intros i z Hz. replace (S i0 + i)%nat with (i0 + S i)%nat by lia. by apply Hall. }
    exists (y :: l'). simpl. rewrite Hy. simpl. rewrite Hrun. simpl.
    split; [done|]. split; [by rewrite Hlen|].
    intros [|i] z Hz; simpl in *.
    + injection Hz as <-. exists y. by rewrite Nat.add_0_r.
    + destruct (Hl' i z Hz) as (y' & Hy' & HR'). exists y'. split; [done|].
      by replace (i0 + S i)%nat with (S i0 + i)%nat by lia.
Qed.

(** C6 (counterexample).  Hydrogen has the stages 0 and 1.  On a list with
    two states of stage 0 and none of stage 1, stage 0 is present, yet no
    state is marked: the call ends in the [ValueError] of [np.argmin]. *)
Lemma init_ionization_energies_absent_stage :
  (∃ s, s ∈ states c6_self ∧ State_Z s = 0)
  ∧ init_ionization_energies ex_equals c6_self
    = Raise (ValueError "attempt to get argmin of an empty sequence").
Proof.
  split; [|vm_compute; reflexivity].
  exists (ex_state 0 0 0 0 false). split; [|done]. simpl. apply elem_of_cons. by left.
Qed.

(** C6 (amended).  Provided every stage [0 .. num_Z - 1] has a state in the
    list, every state's stage lies in that range, and [State.equals] holds
    of a listed state and itself and of no two different listed states, the
    call returns; it changes no id, stage, energy, weight or position; for
    each stage exactly one state is marked ground, the first one of least
    energy in that stage; [iz_energy] is the next stage's ground energy minus
    the state's energy below the top stage and 0 in the top stage; and
    [energy_from_gs] is the state's energy minus its own stage's ground
    energy. *)
Theorem init_ionization_energies_spec (equals : State → State → bool) (self : Impurity) :
  (∀ s, equals s s = true) →
  (∀ s t, s ∈ states self → t ∈ states self → equals s t = true → s = t) →
  (∀ s, s ∈ states self → 0 ≤ State_Z s < Z.of_nat (num_Z self)) →
  (∀ k, (k < num_Z self)%nat → ∃ s, s ∈ states self ∧ State_Z s = Z.of_nat k) →
  ∃ self', init_ionization_energies equals self = Ret self'
    ∧ length (states self') = length (states self)
    ∧ (∀ i s, states self !! i = Some s →
         ∃ s', states self' !! i = Some s'
           ∧ State_id s' = State_id s ∧ State_Z s' = State_Z s ∧ energy s' = energy s
           ∧ stat_weight s' = stat_weight s ∧ pos s' = pos s
           ∧ (ground s' = true ↔ ground_of (states self) (State_Z s) i s)
           ∧ (State_Z s < Z.of_nat (num_Z self) - 1 →
              ∃ j g, ground_of (states self) (State_Z s + 1) j g
                     ∧ iz_energy s' = (energy g - energy s)%Q)
           ∧ (State_Z s = Z.of_nat (num_Z self) - 1 → iz_energy s' = 0%Q)
           ∧ (∃ j g, ground_of (states self) (State_Z s) j g
                     ∧ energy_from_gs s' = (energy s - energy g)%Q))
    ∧ (∀ k, (k < num_Z self)%nat →
         ∃ i, (∃ s', states self' !! i = Some s' ∧ State_Z s' = Z.of_nat k
                     ∧ ground s' = true)
              ∧ ∀ j s', states self' !! j = Some s' → State_Z s' = Z.of_nat k →
                        ground s' = true → j = i).
Proof.
  intros Hrefl Hsep Hrange Hpresent.
  destruct (find_ground_states_spec equals (states self) (num_Z self) Hrefl Hsep Hpresent)
    as (acc & Hloop & Hacc).
  destruct (imapM_exists (mark_state (num_Z self) (fst acc) (snd acc))
              (λ i s s', State_id s' = State_id s ∧ State_Z s' = State_Z s
                 ∧ energy s' = energy s ∧ stat_weight s' = stat_weight s ∧ pos s' = pos s
                 ∧ (ground s' = true ↔ ground_of (states self) (State_Z s) i s)
                 ∧ (State_Z s < Z.of_nat (num_Z self) - 1 →
                    ∃ j g, ground_of (states self) (State_Z s + 1) j g
                           ∧ iz_energy s' = (energy g - energy s)%Q)
                 ∧ (State_Z s = Z.of_nat (num_Z self) - 1 → iz_energy s' = 0%Q)
                 ∧ (∃ j g, ground_of (states self) (State_Z s) j g
                           ∧ energy_from_gs s' = (energy s - energy g)%Q))
              (states self) 0%nat) as (sts' & Hmark & Hlen & Hsts').
  { intros i s Hi. simpl. by apply (mark_state_spec (states self) (num_Z self) Hrange). }
  exists (set_states self sts').
  split.
  { unfold init_ionization_energies. cbv zeta. rewrite Hloop. simpl.
    rewrite Hmark. done. }
  change (states (set_states self sts')) with sts'.
  split; [exact Hlen|]. split; [exact Hsts'|].
  intros k Hk. destruct Hacc as (_ & _ & Hfound).
  destruct (Hfound k Hk) as (i & g & Hg & _).
  exists i. split.
  - destruct (Hsts' i g (proj1 Hg)) as (s' & Hs' & _ & HZ & _ & _ & _ & Hgr & _).
    exists s'. split; [done|]. destruct Hg as (Hi & Hgk & Hrest).
    split; [congruence|]. apply Hgr. rewrite Hgk. by split.
  - intros j s' Hj HZ Hgr.
    assert (Hjlt : (j < length (states self))%nat).
    { rewrite <- Hlen. by eapply lookup_lt_Some. }
    destruct (lookup_lt_is_Some_2 _ _ Hjlt) as [s Hs].
    destruct (Hsts' j s Hs) as (y & Hy & _ & HZy & _ & _ & _ & Hgry & _).
    rewrite Hj in Hy. injection Hy as <-.
    apply Hgry in Hgr. rewrite <- HZy, HZ in Hgr.
    by destruct (ground_of_unique _ _ _ _ _ _ Hgr Hg).
Qed.

Lemma init_ionization_energies_spec_witness :
  ∃ self', init_ionization_energies ex_equals ex_model = Ret self'
    ∧ length (states self') = length (states ex_model)
    ∧ (∀ i s, states ex_model !! i = Some s →
         ∃ s', states self' !! i = Some s'
           ∧ State_id s' = State_id s ∧ State_Z s' = State_Z s ∧ energy s' = energy s
           ∧ stat_weight s' = stat_weight s ∧ pos s' = pos s
           ∧ (ground s' = true ↔ ground_of (states ex_model) (State_Z s) i s)
           ∧ (State_Z s < Z.of_nat (num_Z ex_model) - 1 →
              ∃ j g, ground_of (states ex_model) (State_Z s + 1) j g
                     ∧ iz_energy s' = (energy g - energy s)%Q)
           ∧ (State_Z s = Z.of_nat (num_Z ex_model) - 1 → iz_energy s' = 0%Q)
           ∧ (∃ j g, ground_of (states ex_model) (State_Z s) j g
                     ∧ energy_from_gs s' = (energy s - energy g)%Q))
    ∧ (∀ k, (k < num_Z ex_model)%nat →
         ∃ i, (∃ s', states self' !! i = Some s' ∧ State_Z s' = Z.of_nat k
                     ∧ ground s' = true)
              ∧ ∀ j s', states self' !! j = Some s' → State_Z s' = Z.of_nat k →
                        ground s' = true → j = i).
Proof.
  apply (init_ionization_energies_spec ex_equals ex_model).
  - intros s. unfold ex_equals. apply Z.eqb_refl.
  - intros s t Hs Ht Heq. unfold ex_equals in Heq. apply Z.eqb_eq in Heq.
    simpl in Hs, Ht.
    repeat (apply elem_of_cons in Hs as [->|Hs]);
      repeat (apply elem_of_cons in Ht as [->|Ht]);
      try reflexivity; try discriminate Heq;
      try (by apply elem_of_nil in Hs); by apply elem_of_nil in Ht.
  - intros s Hs. simpl in Hs.
    repeat (apply elem_of_cons in Hs as [->|Hs]); [simpl; lia..|by apply elem_of_nil in Hs].
  - intros k Hk. simpl in Hk.
    destruct k as [|[|k]]; [| |lia].
    + exists (ex_state 0 0 0 (136 # 10) true). split; [|done].
      simpl. apply elem_of_cons; right. apply elem_of_cons; by left.
    + exists (ex_state 2 1 (136 # 10) 0 true). split; [|done].
      simpl. do 2 (apply elem_of_cons; right). apply elem_of_cons; by left.
Defined.

(** ** Initial densities *)

Lemma allocate_dens_settings (self self' : Impurity) (ne : list Q) :
  allocate_dens self ne = Ret self' →
  saha_boltzmann_init self' = saha_boltzmann_init self
  ∧ fixed_fraction_init self' = fixed_fraction_init self
  ∧ frac_imp_dens self' = frac_imp_dens self
  ∧ kinetic_electrons self' = kinetic_electrons self
  ∧ maxwellian_electrons self' = maxwellian_electrons self
  ∧ tot_states self' = tot_states self ∧ states self' = states self.
Proof.
  unfold allocate_dens.
  destruct (np_zeros2 (length ne) (tot_states self)) as [z|e] eqn:Hz.
  - destruct (Py.truthy (kinetic_electrons self)); simpl;
      destruct (Py.truthy (maxwellian_electrons self)); simpl;
      rewrite ?Hz; simpl; by intros [= <-].
  - destruct (Py.truthy (kinetic_electrons self)); simpl; [discriminate|].
    destruct (Py.truthy (maxwellian_electrons self)); simpl;
      rewrite ?Hz; simpl; [discriminate|]. by intros [= <-].
Qed.

(** With [saha_boltzmann_init] as [__init__] stores it, [init_dens] always
    runs the Saha-Boltzmann branch, whatever flag was passed. *)
Lemma init_dens_stored_flag saha_dist boltzmann_dist (self : Impurity) (v : Py.value)
    (ne Te : list Q) :
  saha_boltzmann_init self = Py.VTuple [v] →
  init_dens saha_dist boltzmann_dist self ne Te
  = (allocate_dens self ne
       ≫= λ self, saha_boltzmann_branch saha_dist boltzmann_dist self ne Te).
Proof.
  intros Hv. unfold init_dens.
  destruct (allocate_dens self ne) as [self'|e] eqn:Ha; [|done]. simpl.
  destruct (allocate_dens_settings _ _ _ Ha) as (-> & _). by rewrite Hv.
Qed.

Lemma zip_with_replicate_l {A B C} (f : A → B → C) (a : A) (l : list B) :
  zip_with f (replicate (length l) a) l = f a <$> l.
Proof. induction l as [|b l IH]; [done|]. simpl. by rewrite IH. Qed.

(** X19.  The other branch, reached when [saha_boltzmann_init] is false in a
    condition.  With kinetic electrons only, at least one state and a number
    as [frac_imp_dens], state 0 gets [frac_imp_dens] times the electron
    density of the sample if [fixed_fraction_init] is true and 1 otherwise,
    and every other state gets zero. *)
Lemma init_dens_first_state saha_dist boltzmann_dist (self : Impurity)
    (ne Te : list Q) (f : Q) :
  Py.truthy (saha_boltzmann_init self) = false →
  Py.truthy (kinetic_electrons self) = true →
  Py.truthy (maxwellian_electrons self) = false →
  dens_Max self = None →
  0 < tot_states self →
  Py.as_num (frac_imp_dens self) = Some f →
  ∃ self', init_dens saha_dist boltzmann_dist self ne Te = Ret self'
    ∧ dens self'
      = Some ((λ x, (if Py.truthy (fixed_fraction_init self) then f * x else 1)%Q
                    :: replicate (Z.to_nat (tot_states self) - 1) 0%Q) <$> ne).
Proof.
  intros Hsaha Hkin Hmax HdM Htot Hf.
  assert (Ha : allocate_dens self ne
               = Ret (set_dens self
                        (Some (replicate (length ne)
                                 (replicate (Z.to_nat (tot_states self)) 0%Q))))).
  { unfold allocate_dens. rewrite Hkin. unfold np_zeros2.
    rewrite (proj2 (Z.ltb_ge _ _)) by lia. simpl. by rewrite Hmax. }
  assert (Hrow : ∀ v : Q, <[0%nat := v]> (replicate (Z.to_nat (tot_states self)) 0%Q)
                          = v :: replicate (Z.to_nat (tot_states self) - 1) 0%Q).
  { intros v. destruct (Z.to_nat (tot_states self)) as [|n] eqn:En; [lia|].
    simpl. by rewrite Nat.sub_0_r. }
  assert (Hcol : ∃ col, first_column self ne = Ret col
                  ∧ np_fit (length ne) col
                    = Ret ((λ x, if Py.truthy (fixed_fraction_init self)
                                 then f * x else 1)%Q <$> ne)).
  { unfold first_column. destruct (Py.truthy (fixed_fraction_init self)).
    - exists (Qmult f <$> ne). split.
      + unfold mul_np_array. destruct (frac_imp_dens self); try discriminate Hf;
          by rewrite Hf.
      + unfold np_fit. by rewrite length_fmap, Nat.eqb_refl.
    - exists [1%Q]. split; [done|]. unfold np_fit.
      destruct (length [1%Q] =? length ne)%nat eqn:E.
      + apply Nat.eqb_eq in E. destruct ne as [|x [|y ne]]; try discriminate E. done.
      + f_equal. clear. induction ne as [|x ne IH]; [done|]. simpl. by rewrite IH. }
  destruct Hcol as (col & Hcol & Hfit).
  unfold init_dens. rewrite Ha. simpl.
  rewrite Hsaha. unfold first_state_branch. simpl. rewrite Hkin, HdM.
  change (first_column (set_dens self _) ne) with (first_column self ne).
  rewrite Hcol. simpl.
  unfold set_column0. rewrite (proj2 (Z.eqb_neq _ _)) by lia.
  rewrite length_replicate, Hfit. simpl.
  eexists. split; [reflexivity|]. simpl. f_equal.
  rewrite <- (length_fmap (λ x, if Py.truthy (fixed_fraction_init self)
                                then (f * x)%Q else 1%Q) ne) at 1.
  rewrite zip_with_replicate_l, <- list_fmap_compose.
  apply list_fmap_ext. intros _ x _. simpl. apply Hrow.
Qed.

(** On that branch the example of the specification holds: a fraction of
    0.01 and electron densities [1e19, 2e19] give the first state the
    densities [1e17, 2e17] and the other states zero. *)
Lemma init_dens_first_state_example :
  ∃ self', init_dens ex_saha ex_boltz ex_model_plain ex_ne ex_Te = Ret self'
    ∧ (map (map Qred) <$> dens self')
      = Some [[100000000000000000 # 1; 0; 0]; [200000000000000000 # 1; 0; 0]]%Q.
Proof. eexists. split; vm_compute; reflexivity. Qed.

(** The same products in binary64 arithmetic are exact. *)
Remark fixed_fraction_example_binary64 :
  PrimFloat.eqb (0x1.47ae147ae147bp-7 * 1e19)%float 1e17%float = true
  ∧ PrimFloat.eqb (0x1.47ae147ae147bp-7 * 2e19)%float 2e17%float = true.
Proof. split; vm_compute; reflexivity. Qed.

(** In the Saha-Boltzmann branch, the stored [fixed_fraction_init] is true in
    a condition and the stored [frac_imp_dens] is a tuple: the rescaling
    [self.dens[i, locs] *= self.frac_imp_dens * ne[i]] cannot be computed. *)
Lemma boltzmann_fill_stored_raises boltzmann_dist (self : Impurity) (v w : Py.value)
    (Z_dens : list (list Q)) (ne Te : list Q) (k i : nat) (d : list (list Q)) :
  fixed_fraction_init self = Py.VTuple [v] →
  frac_imp_dens self = Py.VTuple [w] →
  ∃ e, boltzmann_fill boltzmann_dist self Z_dens ne Te k i d = Raise e.
Proof.
  intros Hff Hfrac. unfold boltzmann_fill. cbv zeta. rewrite Hff, Hfrac.
  destruct (Z_dens !! i) as [zrow|]; simpl; [|by eexists].
  destruct (zrow !! k) as [zl|]; simpl; [|by eexists].
  destruct (Te !! i) as [te|]; simpl; [|by eexists].
  destruct (ne !! i) as [ne_i|]; simpl; [|by eexists].
  destruct (d !! i) as [row|]; simpl; [|by eexists].
  destruct (np_fit _ _) as [vals|]; simpl; [|by eexists].
  destruct (np_put row _ vals) as [row'|]; simpl; [|by eexists].
  destruct (np_take row' _) as [cur|]; simpl; by eexists.
Qed.

Lemma saha_boltzmann_fill_stored_raises boltzmann_dist (self : Impurity) (v w : Py.value)
    (Z_dens : list (list Q)) (ne Te : list Q) (d : list (list Q)) :
  fixed_fraction_init self = Py.VTuple [v] →
  frac_imp_dens self = Py.VTuple [w] →
  (0 < num_Z self)%nat → ne ≠ [] →
  ∃ e, saha_boltzmann_fill boltzmann_dist self Z_dens ne Te d = Raise e.
Proof.
  intros Hff Hfrac HnZ Hne. unfold saha_boltzmann_fill.
  destruct (num_Z self) as [|n]; [lia|]. destruct ne as [|x ne]; [done|].
  destruct (boltzmann_fill_stored_raises boltzmann_dist self v w Z_dens (x :: ne) Te 0 0 d
              Hff Hfrac) as [e He].
  exists e. simpl. by rewrite He.
Qed.

(** With the settings as [__init__] stores them, [init_dens] returns no
    densities once there is a profile sample. *)
Lemma init_dens_stored_raises saha_dist boltzmann_dist (self : Impurity)
    (u v w x : Py.value) (ne Te : list Q) :
  saha_boltzmann_init self = Py.VTuple [u] →
  fixed_fraction_init self = Py.VTuple [v] →
  frac_imp_dens self = Py.VTuple [w] →
  kinetic_electrons self = Py.VTuple [x] →
  (0 < num_Z self)%nat → ne ≠ [] →
  ∃ e, init_dens saha_dist boltzmann_dist self ne Te = Raise e.
Proof.
  intros Hsaha Hff Hfrac Hkin HnZ Hne.
  rewrite (init_dens_stored_flag _ _ self u) by done.
  unfold allocate_dens. rewrite Hkin. simpl.
  destruct (np_zeros2 (length ne) (tot_states self)) as [z|]; simpl; [|by eexists].
  assert (Hfill : ∀ (s : Impurity) Z_dens d,
            fixed_fraction_init s = Py.VTuple [v] → frac_imp_dens s = Py.VTuple [w] →
            num_Z s = num_Z self →
            ∃ e, saha_boltzmann_fill boltzmann_dist s Z_dens ne Te d = Raise e).
  { intros s Z_dens d H1 H2 H3.
    apply (saha_boltzmann_fill_stored_raises boltzmann_dist s v w); [done|done|lia|done]. }
  destruct (Py.truthy (maxwellian_electrons self)); simpl.
  - destruct (np_zeros2 (length ne) (tot_states self)) as [z'|]; simpl; [|by eexists].
    unfold saha_boltzmann_branch. cbv zeta.
    destruct (saha_rows _ _ _ _) as [Z_dens|]; simpl; [|by eexists].
    rewrite Hkin. simpl.
    destruct (Hfill (set_state_positions (set_dens_Max (set_dens self (Some z)) (Some z')))
                Z_dens z) as [e He]; [done..|].
    rewrite He. by eexists.
  - unfold saha_boltzmann_branch. cbv zeta.
    destruct (saha_rows _ _ _ _) as [Z_dens|]; simpl; [|by eexists].
    rewrite Hkin. simpl.
    destruct (Hfill (set_state_positions (set_dens self (Some z))) Z_dens z)
      as [e He]; [done..|].
    rewrite He. by eexists.
Qed.

(** C7 (code defect).  With [saha_boltzmann_init = False],
    [fixed_fraction_init = True], [frac_imp_dens = 0.01] and electron
    densities [1e19, 2e19] passed to the constructor, [init_dens] should give
    the first state the densities [1e17, 2e17] and the other states zero.
    The stored flag is the tuple [(False,)], which is true in a condition:
    for every choice of the equilibrium functions [init_dens] runs the
    Saha-Boltzmann branch, and there the rescaling by the stored tuple
    [(0.01,)] ends the call in a [TypeError]: no densities are produced. *)
Theorem init_dens_ignores_saha_boltzmann_flag :
  saha_boltzmann_init ex_model = Py.VTuple [Py.VBool false]
  ∧ (∀ saha_dist boltzmann_dist,
       init_dens saha_dist boltzmann_dist ex_model ex_ne ex_Te
       = (allocate_dens ex_model ex_ne
            ≫= λ self, saha_boltzmann_branch saha_dist boltzmann_dist self ex_ne ex_Te))
  ∧ (∀ saha_dist boltzmann_dist self',
       init_dens saha_dist boltzmann_dist ex_model ex_ne ex_Te ≠ Ret self')
  ∧ init_dens ex_saha ex_boltz ex_model ex_ne ex_Te = Raise TypeError.
Proof.
  split; [reflexivity|]. split; [|split].
  - intros saha_dist boltzmann_dist.
    by apply (init_dens_stored_flag saha_dist boltzmann_dist ex_model (Py.VBool false)).
  - intros saha_dist boltzmann_dist self' Hret.
    destruct (init_dens_stored_raises saha_dist boltzmann_dist ex_model
                (Py.VBool false) (Py.VBool true) (Py.VFloat (1 # 100)) (Py.VBool true)
                ex_ne ex_Te) as [e He]; try reflexivity; [simpl; lia|done|].
    congruence.
  - vm_compute. reflexivity.
Qed.

(** * Further properties of the construction pipeline *)

(** ** Element data *)

Lemma get_element_data_known (self : Impurity) :
  name self ∈ known_elements →
  ∃ chg long, nuc_chg_dict !! name self = Some (S chg)
    ∧ longname_dict !! name self = Some long
    ∧ get_element_data self = Ret (set_element self (S chg) long).
Proof.
  intros Hin. unfold get_element_data, known_elements in *.
  repeat (apply elem_of_cons in Hin as [Hin|Hin];
          [rewrite Hin; eexists _, _; repeat split; reflexivity|]).
  by apply elem_of_nil in Hin.
Qed.

Lemma get_element_data_unknown (self : Impurity) :
  name self ∉ known_elements →
  get_element_data self = Raise (NameKeyError (name self)).
Proof.
  intros Hout. unfold get_element_data.
  assert (Hnone : nuc_chg_dict !! name self = None).
  { apply not_elem_of_list_to_map_1. exact Hout. }
  by rewrite Hnone.
Qed.

(** X1.  [get_element_data] succeeds exactly for the eleven element symbols
    of its tables.  It then sets a nuclear charge of at least 1, [num_Z] one
    above it (so at least two ionization stages) and the long name, and
    touches nothing else; for any other name it raises [KeyError] with that
    name. *)
Theorem get_element_data_outcome (self : Impurity) :
  match get_element_data self with
  | Ret self' =>
      name self ∈ known_elements
      ∧ (1 ≤ nuc_chg self')%nat ∧ num_Z self' = S (nuc_chg self')
      ∧ self' = set_element self (nuc_chg self') (longname self')
  | Raise e => (name self ∉ known_elements) ∧ e = NameKeyError (name self)
  end.
Proof.
  destruct (decide (name self ∈ known_elements)) as [Hin|Hout].
  - destruct (get_element_data_known self Hin) as (chg & long & _ & _ & ->).
    split; [done|]. simpl. split; [lia|]. split; [lia|done].
  - by rewrite (get_element_data_unknown self Hout).
Qed.

(** X2.  The constructor never returns a model.  For an unknown element it
    raises [KeyError]; for a known one it reads the levels file of the [nlj]
    variant whatever [resolve_l] and [resolve_j] were, passes on the error of
    a file that cannot be read, and otherwise ends in the [ValueError] of
    [np.argmin], because the stored [state_ids] tuple makes [init_states]
    drop every state. *)
Theorem Impurity__init___never_returns (equals : State → State → bool)
    (saha_dist : Q → Q → Q → Impurity → list Q)
    (boltzmann_dist : Q → list Q → list Q → list Q) (atom : AtomData) (a : InitArgs) :
  ∃ e, Impurity__init__ equals saha_dist boltzmann_dist atom a = Raise e
    ∧ (arg_name a ∉ known_elements → e = NameKeyError (arg_name a))
    ∧ (arg_name a ∈ known_elements →
       match levels_json atom (arg_name a) res_nlj with
       | Ret _ => e = ValueError "attempt to get argmin of an empty sequence"
       | Raise e' => e = e'
       end).
Proof.
  unfold Impurity__init__.
  destruct (decide (arg_name a ∈ known_elements)) as [Hin|Hout].
  - destruct (get_element_data_known (save_settings a) Hin) as (chg & long & _ & _ & ->).
    simpl.
    destruct (levels_json atom (arg_name a) res_nlj) as [lv|e'] eqn:Hlv.
    + rewrite (init_states_stored equals atom _ (arg_state_ids a) lv (S chg));
        [|done|exact Hlv|simpl; lia].
      eexists. split; [reflexivity|]. split; [done|]. done.
    + assert (Hinit : init_states equals atom (set_element (save_settings a) (S chg) long)
                      = Raise e').
      { unfold init_states.
        change (levels_json atom (name (set_element (save_settings a) (S chg) long))
                  (resolution_of (set_element (save_settings a) (S chg) long)))
          with (levels_json atom (arg_name a) res_nlj).
        by rewrite Hlv. }
      rewrite Hinit. eexists. split; [reflexivity|]. split; [done|]. done.
  - rewrite (get_element_data_unknown (save_settings a)) by done.
    eexists. split; [reflexivity|]. split; [done|]. done.
Qed.

(** ** Loading the states *)

Lemma not_None_app {A} (l k : list (option A)) :
  not_None (l ++ k) = not_None l ++ not_None k.
Proof. apply omap_app. Qed.

Lemma null_where_sublist {A} (cond : A → result bool) (todo : list A) :
  ∀ (pre : list (option A)) (r : nat) (l : list (option A)) (r' : nat),
  null_where cond (length pre) todo (pre ++ (Some <$> todo)) r = Ret (l, r') →
  ∃ kept, not_None l = not_None pre ++ kept ∧ kept `sublist_of` todo.
Proof.
  induction todo as [|x rest IH]; intros pre r l r' Hrun.
  - cbn [null_where] in Hrun. injection Hrun as <- _. exists []. split; [|constructor].
    simpl. by rewrite !app_nil_r.
  - cbn [null_where] in Hrun. destruct (cond x) as [b|e]; [|discriminate Hrun].
    change (Ret b ≫= _) with
      (if b then null_where cond (S (length pre)) rest
                  (<[length pre := None]> (pre ++ (Some <$> x :: rest))) (S r)
       else null_where cond (S (length pre)) rest (pre ++ (Some <$> x :: rest)) r) in Hrun.
    rewrite fmap_cons in Hrun. destruct b.
    + rewrite insert_app_r_alt, Nat.sub_diag in Hrun by lia. simpl in Hrun.
      replace (S (length pre)) with (length (pre ++ [None])) in Hrun
        by (rewrite length_app; simpl; lia).
      replace (pre ++ None :: (Some <$> rest)) with ((pre ++ [None]) ++ (Some <$> rest))
        in Hrun by by rewrite <- app_assoc.
      destruct (IH _ _ _ _ Hrun) as (kept & Hl & Hsub).
      exists kept. split; [|by constructor].
      rewrite Hl, not_None_app. simpl. by rewrite app_nil_r.
    + replace (S (length pre)) with (length (pre ++ [Some x])) in Hrun
        by (rewrite length_app; simpl; lia).
      replace (pre ++ Some x :: (Some <$> rest)) with ((pre ++ [Some x]) ++ (Some <$> rest))
        in Hrun by by rewrite <- app_assoc.
      destruct (IH _ _ _ _ Hrun) as (kept & Hl & Hsub).
      exists (x :: kept). split; [|by constructor].
      rewrite Hl, not_None_app, <- app_assoc. done.
Qed.

Lemma keep_user_states_sublist (self : Impurity) (sts kept : list State) :
  keep_user_states self sts = Ret kept → kept `sublist_of` sts.
Proof.
  unfold keep_user_states. destruct (negb (Py.is_None (state_ids self))).
  - destruct (null_where _ 0 sts (Some <$> sts) 0) as [[l r]|e] eqn:Hrun; [|discriminate].
    simpl. intros [= <-].
    destruct (null_where_sublist _ sts [] 0%nat l r Hrun) as (kept & -> & Hsub). done.
  - simpl. intros [= <-]. by rewrite not_None_Some.
Qed.

Lemma sublist_fmap {A B} (f : A → B) (l k : list A) :
  l `sublist_of` k → (f <$> l) `sublist_of` (f <$> k).
Proof. induction 1; simpl; by constructor. Qed.

Lemma imapM_Forall2_inv {A B} (f : nat → A → result B) (l : list A) :
  ∀ i0 l', imapM f i0 l = Ret l' → Forall2 (λ x y, ∃ i, f i x = Ret y) l l'.
Proof.
  induction l as [|x l IH]; intros i0 l'; simpl.
  - intros [= <-]. constructor.
  - destruct (f i0 x) as [y|e] eqn:Hy; [|discriminate]. simpl.
    destruct (imapM f (S i0) l) as [k|e] eqn:Hk; [|discriminate]. simpl.
    intros [= <-]. constructor; [by exists i0|]. by apply (IH (S i0)).
Qed.

Lemma np_getitem_Raise {A} (a : list A) (k : Z) (e : exn) :
  np_getitem a k = Raise e → e = IndexError.
Proof.
  unfold np_getitem.
  destruct ((0 <=? k) && (k <? Z.of_nat (length a))).
  - destruct (a !! Z.to_nat k); [discriminate|]. by intros [= <-].
  - destruct ((- Z.of_nat (length a) <=? k) && (k <? 0)).
    + destruct (a !! Z.to_nat (Z.of_nat (length a) + k)); [discriminate|]. by intros [= <-].
    + by intros [= <-].
Qed.

Lemma mark_state_Ret (nZ : nat) (gs_energies : list Q) (gs_pos : list Z) (i : nat)
    (s s' : State) :
  mark_state nZ gs_energies gs_pos i s = Ret s' → same_level s s'.
Proof.
  unfold mark_state.
  destruct (State_Z s <? Z.of_nat nZ - 1).
  - destruct (np_getitem gs_energies (State_Z s + 1)); [|discriminate]. simpl.
    destruct (np_getitem gs_energies (State_Z s)); [|discriminate]. simpl.
    intros [= <-]. by repeat split.
  - simpl. destruct (np_getitem gs_energies (State_Z s)); [|discriminate]. simpl.
    intros [= <-]. by repeat split.
Qed.

Lemma init_ionization_energies_Ret (equals : State → State → bool) (self self' : Impurity) :
  init_ionization_energies equals self = Ret self' →
  self' = set_states self (states self')
  ∧ Forall2 same_level (states self) (states self').
Proof.
  unfold init_ionization_energies. cbv zeta.
  destruct (for_each _ _ _) as [gs|e]; [|discriminate]. simpl.
  destruct (imapM _ 0 (states self)) as [sts|e] eqn:Hmark; [|discriminate]. simpl.
  intros [= <-]. split; [done|]. simpl.
  apply imapM_Forall2_inv in Hmark.
  eapply Forall2_impl; [exact Hmark|]. intros s s' [i Hi]. by eapply mark_state_Ret.
Qed.

Lemma Forall2_same_level_ids (l l' : list State) :
  Forall2 same_level l l' → State_id <$> l' = State_id <$> l.
Proof.
  induction 1 as [|s s' l l' (Hid & _) _ IH]; [done|].
  rewrite !fmap_cons. by rewrite Hid, IH.
Qed.

(** X3.  On an object whose [state_ids] attribute holds the value as passed,
    the filter of [init_states] keeps exactly the states whose id is in the
    list, in catalogue order, and keeps every state for [None]. *)
Theorem keep_user_states_unwrapped (self : Impurity) (o : option (list Z))
    (sts : list State) :
  state_ids self = Py.of_opt_ints o →
  keep_user_states self sts
  = Ret (match o with
         | None => sts
         | Some ids => filter (λ s, State_id s ∈ ids) sts
         end).
Proof.
  destruct o as [ids|]; simpl; intros Hs.
  - by apply keep_user_states_unwrapped_list.
  - by apply keep_user_states_unwrapped_None.
Qed.

Lemma keep_user_states_unwrapped_witness :
  keep_user_states ex_plain_ids (imap new_State ex_levels)
  = Ret (filter (λ s, State_id s ∈ [0; 2]) (imap new_State ex_levels)).
Proof.
  apply (keep_user_states_unwrapped ex_plain_ids (Some [0; 2])). reflexivity.
Defined.

(** X4.  Whenever [init_states] returns, the levels file was read,
    [tot_states] is the number of states kept, the ids of the states are a
    subsequence of the catalogue positions 0, 1, 2, ... (so they are distinct
    and increasing), and each state carries the stage, energy and weight of
    the catalogue entry at the position given by its id. *)
Theorem init_states_postcondition (equals : State → State → bool) (atom : AtomData)
    (self self' : Impurity) :
  init_states equals atom self = Ret self' →
  ∃ levels_dict,
    levels_json atom (name self) (resolution_of self) = Ret levels_dict
    ∧ tot_states self' = Z.of_nat (length (states self'))
    ∧ (State_id <$> states self') `sublist_of` (Z.of_nat <$> seq 0 (length levels_dict))
    ∧ NoDup (State_id <$> states self')
    ∧ ∀ s, s ∈ states self' →
        ∃ i lv, levels_dict !! i = Some lv ∧ State_id s = Z.of_nat i
          ∧ State_Z s = level_Z lv ∧ energy s = level_energy lv
          ∧ stat_weight s = level_stat_weight lv.
Proof.
  unfold init_states.
  destruct (levels_json atom (name self) (resolution_of self)) as [lv|e]; [|discriminate].
  simpl. destruct (keep_user_states self (imap new_State lv)) as [kept|e] eqn:Hkeep;
    [|discriminate].
  simpl. intros Hinit. apply init_ionization_energies_Ret in Hinit as [Hself' Hsame].
  simpl in Hsame.
  apply keep_user_states_sublist in Hkeep.
  pose proof (Forall2_same_level_ids _ _ Hsame) as Hids.
  assert (Hall : State_id <$> imap new_State lv = Z.of_nat <$> seq 0 (length lv)).
  { rewrite fmap_imap. rewrite <- imap_seq_0. by apply imap_ext. }
  assert (Hsub : (State_id <$> states self') `sublist_of` (Z.of_nat <$> seq 0 (length lv))).
  { rewrite Hids, <- Hall. by apply sublist_fmap. }
  exists lv. split; [done|]. split.
  { rewrite Hself'. simpl. by rewrite (Forall2_length _ _ _ Hsame). }
  split; [exact Hsub|]. split.
  { eapply sublist_NoDup; [|exact Hsub]. apply NoDup_fmap_2; [|apply NoDup_seq].
    intros x y. apply Nat2Z.inj. }
  intros s' Hs'. apply list_elem_of_lookup in Hs' as [j Hj].
  destruct (Forall2_lookup_r _ _ _ _ _ Hsame Hj) as (s & Hs & (Hid & HZ & He & Hw & _)).
  apply list_elem_of_lookup_2 in Hs.
  assert (Hs_all : s ∈ imap new_State lv) by by eapply elem_of_sublist.
  apply list_elem_of_lookup in Hs_all as [i Hi].
  rewrite list_lookup_imap in Hi. destruct (lv !! i) as [l|] eqn:Hl; [|done].
  simpl in Hi. injection Hi as <-. exists i, l. simpl in *. by repeat split.
Qed.

Lemma init_states_postcondition_witness :
  ∃ self', init_states ex_equals ex_atom ex_model_plain = Ret self'
    ∧ ∃ levels_dict,
        levels_json ex_atom (name ex_model_plain) (resolution_of ex_model_plain)
        = Ret levels_dict
        ∧ tot_states self' = Z.of_nat (length (states self'))
        ∧ (State_id <$> states self') `sublist_of` (Z.of_nat <$> seq 0 (length levels_dict))
        ∧ NoDup (State_id <$> states self')
        ∧ ∀ s, s ∈ states self' →
            ∃ i lv, levels_dict !! i = Some lv ∧ State_id s = Z.of_nat i
              ∧ State_Z s = level_Z lv ∧ energy s = level_energy lv
              ∧ stat_weight s = level_stat_weight lv.
Proof.
  eexists. split; [vm_compute; reflexivity|].
  apply (init_states_postcondition ex_equals ex_atom ex_model_plain).
  vm_compute. reflexivity.
Defined.

(** ** Outcome of init_ionization_energies *)

Lemma for_each_seq_outcome {S : Type} (body : nat → S → result S) (Inv : S → Prop)
    (bad : nat → Prop) (e0 : exn) (n : nat) :
  (∀ k, Decision (bad k)) →
  (∀ k s, Inv s → bad k → body k s = Raise e0) →
  (∀ k s, Inv s → ¬ bad k → ∃ s', body k s = Ret s' ∧ Inv s') →
  ∀ (a : nat) (s : S), Inv s →
  ((∃ k, (a ≤ k < a + n)%nat ∧ bad k) ∧ for_each body (seq a n) s = Raise e0)
  ∨ ((∀ k, (a ≤ k < a + n)%nat → ¬ bad k)
     ∧ ∃ s', for_each body (seq a n) s = Ret s' ∧ Inv s').
Proof.
  intros Hdec Hbad Hgood. induction n as [|n IH]; intros a s Hs.
  - right. split; [intros k Hk; lia|]. by exists s.
  - simpl. destruct (decide (bad a)) as [Ha|Ha].
    + left. split; [exists a; split; [lia|done]|]. by rewrite (Hbad a s Hs Ha).
    + destruct (Hgood a s Hs Ha) as (s1 & Hrun & Hs1). rewrite Hrun. simpl.
      destruct (IH (Datatypes.S a) s1 Hs1) as [[(k & Hk & Hbk) Hr]|[Hall Hr]].
      * left. split; [exists k; split; [lia|done]|done].
      * right. split; [|done]. intros k Hk.
        destruct (decide (k = a)) as [->|Hne]; [done|]. apply Hall. lia.
Qed.

Lemma find_ground_state_absent (equals : State → State → bool) (sts : list State)
    (k : nat) (acc : list Q * list Z) :
  stage_absent sts k →
  find_ground_state equals sts k acc
  = Raise (ValueError "attempt to get argmin of an empty sequence").
Proof.
  intros Habs. unfold find_ground_state.
  rewrite (filter_none (λ s, State_Z s = Z.of_nat k) sts); [done|].
  intros s Hs. by apply (proj1 (Forall_forall _ _) Habs).
Qed.

Lemma find_ground_state_present (equals : State → State → bool) (sts : list State)
    (k : nat) (acc : list Q * list Z) :
  ¬ stage_absent sts k →
  ∃ acc', find_ground_state equals sts k acc = Ret acc'
    ∧ length (fst acc') = length (fst acc) ∧ length (snd acc') = length (snd acc).
Proof.
  intros Hpres. unfold find_ground_state.
  set (P := λ s : State, State_Z s = Z.of_nat k).
  assert (Hne : energy <$> filter P sts ≠ []).
  { intros Hnil. apply fmap_nil_inv in Hnil. apply Hpres.
    apply Forall_forall. intros s Hs HP. by apply (filter_nil_not_elem_of P sts s Hnil). }
  destruct (np_argmin_spec _ Hne) as (m & v & -> & Hm & _). simpl.
  rewrite list_lookup_fmap in Hm.
  destruct (filter P sts !! m) as [gs|]; [|done]. simpl.
  destruct (list_find _ sts) as [[i s]|].
  - eexists. split; [reflexivity|]. simpl. by rewrite !length_insert.
  - by exists acc.
Qed.

Lemma np_getitem_outcome {A} (a : list A) (k : Z) :
  (- Z.of_nat (length a) ≤ k < Z.of_nat (length a) → ∃ x, np_getitem a k = Ret x)
  ∧ (¬ (- Z.of_nat (length a) ≤ k < Z.of_nat (length a)) → np_getitem a k = Raise IndexError).
Proof.
  unfold np_getitem. split.
  - intros Hk. destruct (decide (0 ≤ k)) as [Hpos|Hneg].
    + rewrite (proj2 (Z.leb_le 0 k)), (proj2 (Z.ltb_lt k _)) by lia. simpl.
      destruct (lookup_lt_is_Some_2 a (Z.to_nat k)) as [x Hx]; [lia|].
      rewrite Hx. by exists x.
    + rewrite (proj2 (Z.leb_gt 0 k)) by lia. simpl.
      rewrite (proj2 (Z.leb_le _ k)), (proj2 (Z.ltb_lt k 0)) by lia. simpl.
      destruct (lookup_lt_is_Some_2 a (Z.to_nat (Z.of_nat (length a) + k))) as [x Hx]; [lia|].
      rewrite Hx. by exists x.
  - intros Hk. destruct (decide (0 ≤ k)) as [Hpos|Hneg].
    + rewrite (proj2 (Z.leb_le 0 k)), (proj2 (Z.ltb_ge k _)) by lia. simpl.
      rewrite (proj2 (Z.ltb_ge k 0)) by lia. by rewrite andb_false_r.
    + rewrite (proj2 (Z.leb_gt 0 k)) by lia. simpl.
      by rewrite (proj2 (Z.leb_gt _ k)) by lia.
Qed.

Lemma mark_state_outcome (nZ : nat) (gs_energies : list Q) (gs_pos : list Z) (i : nat)
    (s : State) :
  length gs_energies = nZ →
  (stage_indexable nZ s → ∃ s', mark_state nZ gs_energies gs_pos i s = Ret s')
  ∧ (¬ stage_indexable nZ s → mark_state nZ gs_energies gs_pos i s = Raise IndexError).
Proof.
  intros Hlen. unfold stage_indexable, mark_state. split.
  - intros Hk. destruct (State_Z s <? Z.of_nat nZ - 1) eqn:Etop.
    + apply Z.ltb_lt in Etop.
      destruct (proj1 (np_getitem_outcome gs_energies (State_Z s + 1))) as [e1 ->];
        [rewrite Hlen; lia|].
      destruct (proj1 (np_getitem_outcome gs_energies (State_Z s))) as [e0 ->];
        [rewrite Hlen; lia|].
      simpl. by eexists.
    + destruct (proj1 (np_getitem_outcome gs_energies (State_Z s))) as [e0 ->];
        [rewrite Hlen; lia|].
      simpl. by eexists.
  - intros Hk.
    assert (H0 : np_getitem gs_energies (State_Z s) = Raise IndexError).
    { apply np_getitem_outcome. by rewrite Hlen. }
    destruct (State_Z s <? Z.of_nat nZ - 1).
    + destruct (np_getitem gs_energies (State_Z s + 1)) as [e1|e] eqn:E1; simpl.
      * by rewrite H0.
      * by rewrite (np_getitem_Raise _ _ _ E1).
    + simpl. by rewrite H0.
Qed.

Lemma imapM_Raise {A B} (f : nat → A → result B) (e0 : exn) (l : list A) :
  (∀ i x e, f i x = Raise e → e = e0) →
  ∀ i0, (∃ x, x ∈ l ∧ ∀ i, f i x = Raise e0) → imapM f i0 l = Raise e0.
Proof.
  intros Honly. induction l as [|x l IH]; intros i0 (y & Hy & Hbad).
  - by apply elem_of_nil in Hy.
  - simpl. destruct (f i0 x) as [z|e] eqn:Hx; simpl.
    + apply elem_of_cons in Hy as [->|Hy]; [by rewrite Hbad in Hx|].
      rewrite (IH (S i0)); [done|]. by exists y.
    + by rewrite (Honly _ _ _ Hx).
Qed.

Lemma mark_state_Raise (nZ : nat) (gs_energies : list Q) (gs_pos : list Z) (i : nat)
    (s : State) (e : exn) :
  mark_state nZ gs_energies gs_pos i s = Raise e → e = IndexError.
Proof.
  unfold mark_state. destruct (State_Z s <? Z.of_nat nZ - 1).
  - destruct (np_getitem gs_energies (State_Z s + 1)) eqn:E1; simpl.
    + destruct (np_getitem gs_energies (State_Z s)) eqn:E0; simpl; [discriminate|].
      intros [= <-]. by eapply np_getitem_Raise.
    + intros [= <-]. by eapply np_getitem_Raise.
  - simpl. destruct (np_getitem gs_energies (State_Z s)) eqn:E0; simpl; [discriminate|].
    intros [= <-]. by eapply np_getitem_Raise.
Qed.

#[local] Instance stage_indexable_dec (n : nat) (s : State) : Decision (stage_indexable n s).
Proof. unfold stage_indexable. apply _. Defined.

#[local] Instance stage_absent_dec (sts : list State) (k : nat) : Decision (stage_absent sts k).
Proof. unfold stage_absent. apply _. Defined.

(** X5.  The outcome of [init_ionization_energies] is decided by the stages
    of the listed states alone.  It raises the [ValueError] of [np.argmin]
    exactly when some stage below [num_Z] has no state; otherwise it raises
    [IndexError] exactly when some state's stage is not a valid index
    [-num_Z .. num_Z - 1] into the ground-energy array; otherwise it returns.
    A negative stage within that range is accepted and indexes from the end. *)
Theorem init_ionization_energies_outcome (equals : State → State → bool) (self : Impurity) :
  match init_ionization_energies equals self with
  | Raise e =>
      (e = ValueError "attempt to get argmin of an empty sequence"
       ∧ ∃ k, (k < num_Z self)%nat ∧ stage_absent (states self) k)
      ∨ (e = IndexError
         ∧ (∀ k, (k < num_Z self)%nat → ¬ stage_absent (states self) k)
         ∧ ∃ s, s ∈ states self ∧ ¬ stage_indexable (num_Z self) s)
  | Ret self' =>
      (∀ k, (k < num_Z self)%nat → ¬ stage_absent (states self) k)
      ∧ ∀ s, s ∈ states self → stage_indexable (num_Z self) s
  end.
Proof.
  unfold init_ionization_energies. cbv zeta.
  destruct (for_each_seq_outcome (find_ground_state equals (states self))
              (λ acc, length (fst acc) = num_Z self ∧ length (snd acc) = num_Z self)
              (stage_absent (states self))
              (ValueError "attempt to get argmin of an empty sequence")
              (num_Z self) (λ k, stage_absent_dec (states self) k)) with
    (a := 0%nat) (s := (replicate (num_Z self) 0%Q, replicate (num_Z self) 0))
    as [[(k & Hk & Habs) Hrun]|[Hpres (acc & Hrun & HlenE & HlenP)]].
  - intros k acc _ Habs. by apply find_ground_state_absent.
  - intros k acc [HlenE HlenP] Hpres.
    destruct (find_ground_state_present equals (states self) k acc Hpres)
      as (acc' & Hrun & H1 & H2).
    exists acc'. split; [done|]. split; congruence.
  - simpl. by rewrite !length_replicate.
  - rewrite Hrun. simpl. left. split; [done|]. exists k. split; [lia|done].
  - rewrite Hrun. simpl.
    assert (Hpres' : ∀ k, (k < num_Z self)%nat → ¬ stage_absent (states self) k).
    { intros k Hk. apply Hpres. lia. }
    destruct (decide (Forall (stage_indexable (num_Z self)) (states self))) as [Hall|Hsome].
    + destruct (imapM_exists (mark_state (num_Z self) (fst acc) (snd acc))
                  (λ _ _ _, True) (states self) 0%nat) as (sts' & Hmark & _).
      { intros i s Hs.
        destruct (proj1 (mark_state_outcome (num_Z self) (fst acc) (snd acc) (0 + i) s HlenE))
          as [s' Hs'].
        - apply (proj1 (Forall_forall _ _) Hall). by eapply list_elem_of_lookup_2.
        - by exists s'. }
      rewrite Hmark. simpl. split; [done|]. by apply Forall_forall.
    + apply not_Forall_Exists in Hsome; [|apply _].
      apply Exists_exists in Hsome as (s & Hs & Hbad).
      rewrite (imapM_Raise (mark_state (num_Z self) (fst acc) (snd acc)) IndexError).
      * simpl. right. split; [done|]. split; [done|]. by exists s.
      * intros i x e. apply mark_state_Raise.
      * exists s. split; [done|]. intros i.
        by apply (mark_state_outcome (num_Z self) (fst acc) (snd acc) i s HlenE).
Qed.

(** X6.  When [init_ionization_energies] returns, it has changed nothing but
    the state list, and in the state list nothing but the derived attributes
    [ground], [iz_energy] and [energy_from_gs]: the states are as many as
    before and each keeps its id, stage, energy, weight and position. *)
Theorem init_ionization_energies_frame (equals : State → State → bool)
    (self self' : Impurity) :
  init_ionization_energies equals self = Ret self' →
  self' = set_states self (states self')
  ∧ length (states self') = length (states self)
  ∧ Forall2 same_level (states self) (states self').
Proof.
  intros Hrun. apply init_ionization_energies_Ret in Hrun as [Hself Hsame].
  split; [done|]. split; [|done]. symmetry. by eapply Forall2_length.
Qed.

Lemma init_ionization_energies_frame_witness :
  ∃ self', init_ionization_energies ex_equals ex_model = Ret self'
    ∧ self' = set_states ex_model (states self')
    ∧ length (states self') = length (states ex_model)
    ∧ Forall2 same_level (states ex_model) (states self').
Proof.
  eexists. split; [vm_compute; reflexivity|].
  apply (init_ionization_energies_frame ex_equals ex_model). vm_compute. reflexivity.
Defined.

(** ** Creating the transition objects *)

Lemma create_transition_unwrapped (self : Impurity) (o : option (list Z))
    (trans : TransEntry) :
  state_ids self = Py.of_opt_ints o →
  create_transition self trans
  = Ret (if endpoints_selected o trans && process_enabled self (entry_type trans)
         then Some (new_Transition trans) else None).
Proof.
  intros Hs. unfold create_transition, process_enabled, endpoints_selected. rewrite Hs.
  unfold IzTrans, AiTrans, RRTrans, EmTrans, ExTrans.
  assert (Hchain : ∀ b1 b2 b3 b4 b5 : bool, ∀ x : Transition,
            (if b1 then Some x else if b2 then Some x else if b3 then Some x
             else if b4 then Some x else if b5 then Some x else None)
            = if b1 || b2 || b3 || b4 || b5 then Some x else None).
  { by intros [] [] [] [] []. }
  rewrite Hchain. destruct o as [ids|].
  - change (Py.of_opt_ints (Some ids)) with (Py.of_ints ids).
    change (Py.is_None (Py.of_ints ids)) with false. cbn [negb].
    rewrite !Py_contains_ints.
    destruct (bool_decide (entry_from_id trans ∈ ids));
      destruct (bool_decide (entry_to_id trans ∈ ids)); reflexivity.
  - reflexivity.
Qed.

Lemma create_loop_slots (self : Impurity) (g : TransEntry → option Transition)
    (todo : list TransEntry) :
  (∀ e, e ∈ todo → create_transition self e = Ret (g e)) →
  ∀ (pre extra : list (option Transition)),
  create_loop self (length pre) todo (pre ++ replicate (length todo) None ++ extra)
  = Ret (pre ++ (g <$> todo) ++ extra).
Proof.
  induction todo as [|e todo IH]; intros Hg pre extra; [done|].
  cbn [create_loop]. rewrite (Hg e) by (apply elem_of_cons; by left).
  change (Ret (g e) ≫= ?k) with (k (g e)). cbv beta.
  assert (Hslots :
    match g e with
    | Some t => <[length pre := Some t]> (pre ++ replicate (length (e :: todo)) None ++ extra)
    | None => pre ++ replicate (length (e :: todo)) None ++ extra
    end = (pre ++ [g e]) ++ replicate (length todo) None ++ extra).
  { rewrite <- app_assoc. simpl. destruct (g e); [|done].
    rewrite insert_app_r_alt, Nat.sub_diag by lia. done. }
  rewrite Hslots.
  replace (S (length pre)) with (length (pre ++ [g e])) by (rewrite length_app; simpl; lia).
  rewrite IH.
  - rewrite <- app_assoc. done.
  - intros e' He'. apply Hg. apply elem_of_cons. by right.
Qed.

Lemma not_None_fmap {A B} (g : A → option B) (l : list A) :
  not_None (g <$> l) = omap g l.
Proof.
  induction l as [|x l IH]; [done|]. rewrite fmap_cons.
  change (omap g (x :: l))
    with (match g x with Some y => y :: omap g l | None => omap g l end).
  destruct (g x); [rewrite not_None_cons_Some|rewrite not_None_cons_None]; by rewrite IH.
Qed.

Lemma omap_filter_fmap {A B} (c : A → bool) (f : A → B) (l : list A) :
  omap (λ x, if c x then Some (f x) else None) l = f <$> filter (λ x, c x = true) l.
Proof.
  induction l as [|x l IH]; [done|].
  change (omap (λ x, if c x then Some (f x) else None) (x :: l))
    with (match (if c x then Some (f x) else None) with
          | Some y => y :: omap (λ x, if c x then Some (f x) else None) l
          | None => omap (λ x, if c x then Some (f x) else None) l
          end).
  rewrite IH. destruct (c x) eqn:Hc.
  - by rewrite filter_cons_True.
  - by rewrite filter_cons_False by congruence.
Qed.

(** X7.  On an object whose [state_ids] attribute holds the value as passed,
    the creation loop yields, in catalogue order, one transition object, with
    the entry's type and endpoints, for each entry whose two endpoints are in
    the list (any entry for [None]) and whose type is one of the five known
    process types with a flag that is true in a condition; every other entry,
    among them any entry of an unknown type, is dropped.  The spare slot of
    the [num_transitions]-long list never shows. *)
Theorem create_transition_objects_unwrapped (self : Impurity) (o : option (list Z))
    (trans_dict : TransFile) :
  state_ids self = Py.of_opt_ints o →
  create_transition_objects self trans_dict
  = Ret (new_Transition
           <$> filter (λ e, endpoints_selected o e
                            && process_enabled self (entry_type e) = true)
                      (entries trans_dict)).
Proof.
  intros Hs. unfold create_transition_objects. cbv zeta.
  pose proof (create_loop_slots self
                (λ e, if endpoints_selected o e && process_enabled self (entry_type e)
                      then Some (new_Transition e) else None)
                (entries trans_dict)
                (λ e _, create_transition_unwrapped self o e Hs) [] [None]) as Hloop.
  simpl in Hloop.
  replace (replicate (S (length (entries trans_dict))) None)
    with (replicate (length (entries trans_dict)) (@None Transition) ++ [None])
    by (rewrite <- replicate_S_end; done).
  rewrite Hloop. simpl mbind. cbv beta. f_equal.
  rewrite not_None_app, not_None_fmap. simpl. rewrite app_nil_r.
  apply omap_filter_fmap.
Qed.

Lemma create_transition_objects_unwrapped_witness :
  create_transition_objects ex_plain_ids ex_trans
  = Ret (new_Transition
           <$> filter (λ e, endpoints_selected (Some [0; 2]) e
                            && process_enabled ex_plain_ids (entry_type e) = true)
                      (entries ex_trans)).
Proof.
  apply (create_transition_objects_unwrapped ex_plain_ids (Some [0; 2])). reflexivity.
Defined.

(** ** Inverse-process data *)

Lemma stat_weight_ratio_Ret (sts : list State) (t : Transition) (r : Q) :
  stat_weight_ratio sts (build_id2pos sts) t = Ret r →
  ∃ sf st, sf ∈ sts ∧ st ∈ sts ∧ State_id sf = from_id t ∧ State_id st = to_id t
    ∧ ¬ (stat_weight st == 0)%Q ∧ r = (stat_weight sf / stat_weight st)%Q.
Proof.
  unfold stat_weight_ratio.
  destruct (build_id2pos sts !! from_id t) as [pf|] eqn:Hpf; [|discriminate]. simpl.
  destruct (sts !! pf) as [sf|] eqn:Hsf; [|discriminate]. simpl.
  destruct (build_id2pos sts !! to_id t) as [pt|] eqn:Hpt; [|discriminate]. simpl.
  destruct (sts !! pt) as [st|] eqn:Hst; [|discriminate]. simpl.
  destruct (Qeq_bool (stat_weight st) 0) eqn:Hz; [discriminate|].
  intros [= <-].
  destruct (build_id2pos_Some _ _ _ Hpf) as (sf' & Hsf' & Hidf).
  destruct (build_id2pos_Some _ _ _ Hpt) as (st' & Hst' & Hidt).
  rewrite Hsf in Hsf'. injection Hsf' as <-. rewrite Hst in Hst'. injection Hst' as <-.
  exists sf, st. split; [by eapply list_elem_of_lookup_2|].
  split; [by eapply list_elem_of_lookup_2|]. split; [done|]. split; [done|].
  split; [|done]. intros Heq. apply Qeq_bool_iff in Heq. congruence.
Qed.

(** X8.  When the attachment of inverse data for one process type returns,
    the transitions are the same in number and order, every transition keeps
    its type, endpoints and positions, a transition of another type is
    untouched, and a transition of that type has both endpoints among the
    states, a destination state of non-zero weight, and records the ratio of
    the source state's weight to the destination state's weight.  So a
    transition of that type with an endpoint that is not a state, or with a
    destination of weight zero, makes the call raise before the integrity
    checks can prune it. *)
Theorem attach_inverse_outcome (sts : list State) (tag : string)
    (trs trs' : list Transition) :
  attach_inverse sts (build_id2pos sts) tag trs = Ret trs' →
  Forall2 (inverse_attached sts tag) trs trs'.
Proof.
  unfold attach_inverse. intros Hrun.
  apply (imapM_Ret_inv
           (λ t, if String.eqb (type t) tag
                 then r ← stat_weight_ratio sts (build_id2pos sts) t;
                      Ret (set_inverse_data t r)
                 else Ret t)) in Hrun.
  eapply Forall2_impl; [exact Hrun|]. intros t t' Ht. simpl in Ht.
  destruct (String.eqb (type t) tag) eqn:Htag.
  - apply String.eqb_eq in Htag.
    destruct (stat_weight_ratio sts (build_id2pos sts) t) as [r|e] eqn:Hr; [|discriminate].
    simpl in Ht. injection Ht as <-.
    destruct (stat_weight_ratio_Ret _ _ _ Hr) as (sf & st & ? & ? & ? & ? & ? & ->).
    unfold inverse_attached. simpl. do 5 (split; [done|]).
    split; [done|]. intros _. by exists sf, st.
  - apply String.eqb_neq in Htag. injection Ht as <-.
    unfold inverse_attached. do 5 (split; [done|]). split; done.
Qed.

Lemma attach_inverse_outcome_witness :
  ∃ trs', attach_inverse (states ex_model) (build_id2pos (states ex_model)) "excitation"
            (transitions ex_model) = Ret trs'
    ∧ Forall2 (inverse_attached (states ex_model) "excitation") (transitions ex_model) trs'.
Proof.
  eexists. split; [vm_compute; reflexivity|].
  apply (attach_inverse_outcome (states ex_model) "excitation" (transitions ex_model)).
  vm_compute. reflexivity.
Defined.

(** ** More on the integrity checks *)

Lemma length_filter_split {A} (p : A → bool) (l : list A) :
  (length (filter (λ x, p x = true) l) + length (filter (λ x, p x = false) l))%nat
  = length l.
Proof.
  induction l as [|x l IH]; [done|]. destruct (p x) eqn:Hp.
  - rewrite filter_cons_True, filter_cons_False by congruence. simpl. lia.
  - rewrite filter_cons_False, filter_cons_True by congruence. simpl. lia.
Qed.

(** The object the three passes return. *)
Lemma state_and_transition_checks_result (self : Impurity) (Egrid trans_Egrid : list float) :
  check_grids Egrid trans_Egrid = Ret tt →
  state_and_transition_checks self Egrid trans_Egrid
  = Ret (set_transitions
           (set_states
              (set_tot_states self
                 (tot_states self - Z.of_nat (length (states self))
                  + Z.of_nat (length (surviving_states self))))
              (surviving_states self))
           (surviving_transitions self)).
Proof.
  intros Hg. unfold state_and_transition_checks. rewrite Hg. simpl.
  rewrite remove_orphaned_states_eq. simpl.
  rewrite remove_states_above_ionization_eq. simpl.
  rewrite remove_orphaned_transitions_eq. simpl.
  f_equal. apply Impurity_ext; try reflexivity. simpl. unfold surviving_states.
  pose proof (length_filter_split (is_orphan (transitions self)) (states self)) as H1.
  pose proof (length_filter_split
                (above_ionization
                   (set_states
                      (set_tot_states self
                         (tot_states self
                          - Z.of_nat (length (filter (λ s, is_orphan (transitions self) s = true)
                                                (states self)))))
                      (filter (λ s, is_orphan (transitions self) s = false) (states self))))
                (filter (λ s, is_orphan (transitions self) s = false) (states self))) as H2.
  unfold above_ionization in *. simpl in *. lia.
Qed.

Lemma state_and_transition_checks_inv (self self' : Impurity) (Egrid trans_Egrid : list float) :
  state_and_transition_checks self Egrid trans_Egrid = Ret self' →
  check_grids Egrid trans_Egrid = Ret tt
  ∧ self' = set_transitions
              (set_states
                 (set_tot_states self
                    (tot_states self - Z.of_nat (length (states self))
                     + Z.of_nat (length (surviving_states self))))
                 (surviving_states self))
              (surviving_transitions self).
Proof.
  intros Hrun. destruct (check_grids Egrid trans_Egrid) as [[]|e] eqn:Hg.
  - split; [done|]. rewrite state_and_transition_checks_result in Hrun by done.
    by injection Hrun as <-.
  - unfold state_and_transition_checks in Hrun. rewrite Hg in Hrun. discriminate.
Qed.

(** X9.  When the checks return, they have only removed: the state list and
    the transition list are sublists of what they were, [tot_states] has gone
    down by exactly the number of states removed (so it is the length of the
    state list afterwards if it was before), and nothing else of the object
    has changed. *)
Theorem state_and_transition_checks_frame (self self' : Impurity)
    (Egrid trans_Egrid : list float) :
  state_and_transition_checks self Egrid trans_Egrid = Ret self' →
  states self' `sublist_of` states self
  ∧ transitions self' `sublist_of` transitions self
  ∧ tot_states self - tot_states self'
    = Z.of_nat (length (states self)) - Z.of_nat (length (states self'))
  ∧ (tot_states self = Z.of_nat (length (states self)) →
     tot_states self' = Z.of_nat (length (states self')))
  ∧ self' = set_transitions (set_states (set_tot_states self (tot_states self'))
                               (states self')) (transitions self').
Proof.
  intros Hrun. apply state_and_transition_checks_inv in Hrun as [_ ->]. simpl.
  split.
  { unfold surviving_states. etrans; apply sublist_filter. }
  split; [apply sublist_filter|]. split; [lia|]. split; [lia|done].
Qed.

Lemma state_and_transition_checks_frame_witness :
  ∃ self', state_and_transition_checks c4_self [1%float] [1%float] = Ret self'
    ∧ states self' `sublist_of` states c4_self
    ∧ transitions self' `sublist_of` transitions c4_self
    ∧ tot_states c4_self - tot_states self'
      = Z.of_nat (length (states c4_self)) - Z.of_nat (length (states self'))
    ∧ (tot_states c4_self = Z.of_nat (length (states c4_self)) →
       tot_states self' = Z.of_nat (length (states self')))
    ∧ self' = set_transitions (set_states (set_tot_states c4_self (tot_states self'))
                                 (states self')) (transitions self').
Proof.
  eexists. split; [vm_compute; reflexivity|].
  apply (state_and_transition_checks_frame c4_self _ [1%float] [1%float]). vm_compute. reflexivity.
Defined.

(** X10.  A model without transitions loses all its states: when the grid
    check passes and the transition list is empty, every state counts as an
    orphan, so the checks return an empty state list, a single isolated state
    included, and [tot_states] goes down by the number of states. *)
Theorem state_and_transition_checks_without_transitions (self : Impurity)
    (Egrid trans_Egrid : list float) :
  check_grids Egrid trans_Egrid = Ret tt →
  transitions self = [] →
  ∃ self', state_and_transition_checks self Egrid trans_Egrid = Ret self'
    ∧ states self' = [] ∧ transitions self' = []
    ∧ tot_states self' = tot_states self - Z.of_nat (length (states self)).
Proof.
  intros Hg Htrs. rewrite state_and_transition_checks_result by done.
  eexists. split; [reflexivity|]. simpl.
  assert (Hnone : surviving_states self = []).
  { unfold surviving_states. rewrite Htrs.
    rewrite (filter_none (λ s, is_orphan [] s = false)); [done|].
    intros s _. unfold is_orphan. simpl. discriminate. }
  rewrite Hnone. split; [done|]. split; [|simpl; lia].
  unfold surviving_transitions. by rewrite Htrs.
Qed.

Lemma state_and_transition_checks_without_transitions_witness :
  ∃ self', state_and_transition_checks c6_self [1%float] [1%float] = Ret self'
    ∧ states self' = [] ∧ transitions self' = []
    ∧ tot_states self' = tot_states c6_self - Z.of_nat (length (states c6_self)).
Proof.
  apply (state_and_transition_checks_without_transitions c6_self [1%float] [1%float]);
    reflexivity.
Defined.

(** X11.  On a consistent model nothing but unreferenced states is removed:
    when the grid check passes, every transition has both endpoints among the
    states, and [autoionization] is not the object [False] (as is the case
    for every value the constructor stores), the checks keep every
    transition and keep exactly the states that some transition names as an
    endpoint. *)
Theorem state_and_transition_checks_consistent (self : Impurity)
    (Egrid trans_Egrid : list float) :
  check_grids Egrid trans_Egrid = Ret tt →
  (∀ t, t ∈ transitions self → endpoints_present (states self) t) →
  Py.is_False (autoionization self) = false →
  ∃ self', state_and_transition_checks self Egrid trans_Egrid = Ret self'
    ∧ transitions self' = transitions self
    ∧ states self' `sublist_of` states self
    ∧ ∀ s, s ∈ states self'
           ↔ s ∈ states self ∧ ∃ t, t ∈ transitions self ∧ touches t s.
Proof.
  intros Hg Hends Hauto. rewrite state_and_transition_checks_result by done.
  eexists. split; [reflexivity|]. simpl.
  assert (Hst : surviving_states self
                = filter (λ s, is_orphan (transitions self) s = false) (states self)).
  { unfold surviving_states. apply filter_all. intros s _.
    unfold above_ionization. by rewrite Hauto. }
  split.
  - unfold surviving_transitions. apply filter_all. intros t Ht.
    apply is_orphan_transition_false. rewrite Hst.
    assert (Hkeep : ∀ i, i ∈ (State_id <$> states self) → (i = from_id t ∨ i = to_id t) →
              i ∈ (State_id <$> filter (λ s, is_orphan (transitions self) s = false)
                                    (states self))).
    { intros i Hi Hit. apply list_elem_of_fmap in Hi as (s & -> & Hs).
      apply list_elem_of_fmap. exists s. split; [done|].
      apply list_elem_of_filter. split; [|done].
      apply is_orphan_false. exists t. split; [done|].
      unfold touches. destruct Hit as [->| ->]; [by left|by right]. }
    destruct (Hends t Ht) as [Hf Hto]. split; apply Hkeep; auto.
  - rewrite Hst. split; [apply sublist_filter|]. intros s.
    rewrite list_elem_of_filter, is_orphan_false. tauto.
Qed.

Lemma state_and_transition_checks_consistent_witness :
  ∃ self', state_and_transition_checks ex_model [1%float] [1%float] = Ret self'
    ∧ transitions self' = transitions ex_model
    ∧ states self' `sublist_of` states ex_model
    ∧ ∀ s, s ∈ states self'
           ↔ s ∈ states ex_model ∧ ∃ t, t ∈ transitions ex_model ∧ touches t s.
Proof.
  apply (state_and_transition_checks_consistent ex_model [1%float] [1%float]).
  - reflexivity.
  - apply Forall_forall. unfold endpoints_present.
    apply (bool_decide_unpack _). vm_compute. reflexivity.
  - reflexivity.
Defined.

(** X12.  After the checks the positions can always be refreshed: on the
    object the checks return, neither the position indexer nor
    [reorder_PQ_states] can fail with a [KeyError]. *)
Theorem positions_after_checks (self self' : Impurity) (Egrid trans_Egrid : list float)
    (P_states : string) :
  state_and_transition_checks self Egrid trans_Egrid = Ret self' →
  (∃ self'', set_transition_positions (set_state_positions self') = Ret self'')
  ∧ ∃ self'', reorder_PQ_states self' P_states = Ret self''.
Proof.
  intros Hrun. apply state_and_transition_checks_inv in Hrun as [_ ->].
  set (self1 := set_transitions _ _).
  assert (Hends : ∀ t, t ∈ transitions self1 → endpoints_present (states self1) t).
  { intros t Ht. by apply elem_of_surviving_transitions in Ht as [_ ?]. }
  split.
  - destruct (set_transition_positions_Ret (set_state_positions self1)) as (trs & -> & _).
    + intros t Ht. unfold endpoints_present. rewrite set_state_positions_ids.
      by apply Hends.
    + by eexists.
  - unfold reorder_PQ_states. destruct (String.eqb P_states "ground").
    + fold (ground_states self1). fold (other_states self1). fold (partitioned self1).
      destruct (set_transition_positions_Ret (set_state_positions (partitioned self1)))
        as (trs & -> & _); [|by eexists].
      intros t Ht. unfold endpoints_present. rewrite set_state_positions_ids.
      simpl. rewrite (partition_Permutation self1). by apply Hends.
    + destruct (set_transition_positions_Ret (set_state_positions self1)) as (trs & -> & _);
        [|by eexists].
      intros t Ht. unfold endpoints_present. rewrite set_state_positions_ids.
      by apply Hends.
Qed.

Lemma positions_after_checks_witness :
  ∃ self', state_and_transition_checks c4_self [1%float] [1%float] = Ret self'
    ∧ (∃ self'', set_transition_positions (set_state_positions self') = Ret self'')
    ∧ ∃ self'', reorder_PQ_states self' "ground" = Ret self''.
Proof.
  eexists. split; [vm_compute; reflexivity|].
  apply (positions_after_checks c4_self _ [1%float] [1%float] "ground"). vm_compute. reflexivity.
Defined.

(** ** More on positions *)

Lemma imapM_Raise_inv {A B} (f : A → result B) (l : list A) (e : exn) :
  ∀ i, imapM (λ _, f) i l = Raise e → ∃ x, x ∈ l ∧ f x = Raise e.
Proof.
  induction l as [|x l IH]; intros i; simpl; [discriminate|].
  destruct (f x) as [y|e'] eqn:Hx; simpl.
  - destruct (imapM (λ _, f) (S i) l) as [k|e'] eqn:Hk; simpl; [discriminate|].
    intros [= <-]. destruct (IH (S i) Hk) as (z & Hz & Hfz).
    exists z. split; [apply elem_of_cons; by right|done].
  - intros [= <-]. exists x. split; [apply elem_of_cons; by left|done].
Qed.

Lemma build_id2pos_None (sts : list State) (k : Z) :
  build_id2pos sts !! k = None → k ∉ (State_id <$> sts).
Proof.
  intros Hnone Hin. apply build_id2pos_is_Some in Hin as [p Hp]. congruence.
Qed.

Lemma position_transition_Raise (sts : list State) (t : Transition) (e : exn) :
  position_transition (build_id2pos sts) t = Raise e →
  ∃ k, (k = from_id t ∨ k = to_id t) ∧ (k ∉ (State_id <$> sts)) ∧ e = KeyError k.
Proof.
  unfold position_transition.
  destruct (build_id2pos sts !! from_id t) as [fp|] eqn:Hf; simpl.
  - destruct (build_id2pos sts !! to_id t) as [tp|] eqn:Hto; simpl; [discriminate|].
    intros [= <-]. exists (to_id t). split; [by right|]. split; [|done].
    by apply build_id2pos_None.
  - intros [= <-]. exists (from_id t). split; [by left|]. split; [|done].
    by apply build_id2pos_None.
Qed.

(** X13.  [set_transition_positions] returns exactly when every transition
    has both endpoints among the state ids; it then changes nothing but the
    cached positions of the transitions.  Otherwise it raises [KeyError] with
    an endpoint id of some transition that is no state's id. *)
Theorem set_transition_positions_outcome (self : Impurity) :
  match set_transition_positions self with
  | Ret self' =>
      (∀ t, t ∈ transitions self → endpoints_present (states self) t)
      ∧ self' = set_transitions self (transitions self')
      ∧ Forall2 same_transition (transitions self) (transitions self')
  | Raise e =>
      ∃ t k, t ∈ transitions self ∧ (k = from_id t ∨ k = to_id t)
             ∧ (k ∉ (State_id <$> states self)) ∧ e = KeyError k
  end.
Proof.
  destruct (set_transition_positions self) as [self'|e] eqn:Hrun.
  - apply set_transition_positions_inv in Hrun as (trs & -> & Htrs). simpl.
    split; [|split; [done|]].
    + intros t Ht. apply list_elem_of_lookup in Ht as [i Hi].
      destruct (Forall2_lookup_l _ _ _ _ _ Htrs Hi) as (t' & _ & Hpt).
      apply position_transition_Ret in Hpt as (_ & Hf & Hto).
      apply build_id2pos_Some in Hf as (sf & Hsf & Hidf).
      apply build_id2pos_Some in Hto as (st & Hst & Hidt).
      split; apply list_elem_of_fmap; [exists sf|exists st];
        (split; [done|by eapply list_elem_of_lookup_2]).
    + eapply Forall2_impl; [exact Htrs|]. intros t t' Ht.
      by apply position_transition_Ret in Ht as [? _].
  - unfold set_transition_positions in Hrun. cbv zeta in Hrun.
    destruct (imapM (λ _ t, position_transition (build_id2pos (states self)) t) 0
                (transitions self)) as [trs|e'] eqn:Hm; [discriminate|].
    simpl in Hrun. injection Hrun as <-.
    apply (imapM_Raise_inv (position_transition (build_id2pos (states self)))) in Hm
      as (t & Ht & Hraise).
    apply position_transition_Raise in Hraise as (k & Hk & Hnot & ->).
    by exists t, k.
Qed.

Lemma id2pos_from_last (sts : list State) (k : Z) (p : nat) :
  ∀ i m, id2pos_from i sts m !! k = Some p →
  (m !! k = Some p ∧ k ∉ (State_id <$> sts))
  ∨ ∃ j, p = (i + j)%nat ∧ last_position sts k j.
Proof.
  induction sts as [|s0 sts IH]; intros i m Hp.
  - left. split; [done|]. apply not_elem_of_nil.
  - simpl in Hp. apply IH in Hp as [[Hp Hnot]|(j & -> & (s & Hj & Hs) & Hlast)].
    + destruct (decide (State_id s0 = k)) as [Heq|Hne].
      * rewrite Heq, lookup_insert_eq in Hp. injection Hp as <-.
        right. exists 0%nat. split; [lia|]. split; [by exists s0|].
        intros [|j] s Hlt Hj Hs; [lia|]. simpl in Hj. apply Hnot.
        apply list_elem_of_fmap. exists s. split; [done|by eapply list_elem_of_lookup_2].
      * rewrite lookup_insert_ne in Hp by done. left. split; [done|].
        rewrite fmap_cons. apply not_elem_of_cons. split; [congruence|done].
    + right. exists (S j). split; [lia|]. split; [by exists s|].
      intros [|j'] s' Hlt Hj' Hs'; [lia|]. simpl in Hj'. apply (Hlast j' s'); [lia|done|done].
Qed.

Lemma build_id2pos_last (sts : list State) (k : Z) (p : nat) :
  build_id2pos sts !! k = Some p → last_position sts k p.
Proof.
  intros Hp. apply id2pos_from_last in Hp as [[Hp _]|(j & -> & Hlast)].
  - by rewrite lookup_empty in Hp.
  - done.
Qed.

(** X14.  The positions come from a dictionary built in list order, so with a
    repeated id the later state wins: when [set_transition_positions]
    returns, each transition's [from_pos] and [to_pos] are the positions of
    the last states in the list whose ids are its [from_id] and [to_id]. *)
Theorem set_transition_positions_last (self self' : Impurity) :
  set_transition_positions self = Ret self' →
  Forall2 (λ t t', last_position (states self) (from_id t) (from_pos t')
                   ∧ last_position (states self) (to_id t) (to_pos t'))
          (transitions self) (transitions self').
Proof.
  intros Hrun. apply set_transition_positions_inv in Hrun as (trs & -> & Htrs). simpl.
  eapply Forall2_impl; [exact Htrs|]. intros t t' Ht.
  apply position_transition_Ret in Ht as (_ & Hf & Hto).
  split; by apply build_id2pos_last.
Qed.

Lemma set_transition_positions_last_witness :
  ∃ self', set_transition_positions ex_repeated = Ret self'
    ∧ Forall2 (λ t t', last_position (states ex_repeated) (from_id t) (from_pos t')
                       ∧ last_position (states ex_repeated) (to_id t) (to_pos t'))
              (transitions ex_repeated) (transitions self').
Proof.
  eexists. split; [vm_compute; reflexivity|].
  apply (set_transition_positions_last ex_repeated). vm_compute. reflexivity.
Defined.

(** On that sample the id 5 is held by the states at positions 0 and 2, and
    the transition from 5 to 6 is given the positions 2 and 1. *)
Example repeated_id_takes_last_position :
  State_id <$> states ex_repeated = [5; 6; 5]
  ∧ ∃ self', set_transition_positions ex_repeated = Ret self'
      ∧ (λ t, (from_pos t, to_pos t)) <$> transitions self' = [(2%nat, 1%nat)].
Proof. split; [reflexivity|]. eexists. split; vm_compute; reflexivity. Qed.

(** X15.  The position indexer is idempotent: run on the object it has
    returned, it returns that object again. *)
Theorem position_indexer_idempotent (self self' : Impurity) :
  set_transition_positions (set_state_positions self) = Ret self' →
  set_transition_positions (set_state_positions self') = Ret self'.
Proof.
  intros Hrun. apply set_transition_positions_inv in Hrun as (trs & Hself' & Htrs).
  assert (Hs : states self' = states (set_state_positions self)) by by rewrite Hself'.
  assert (Ht : transitions self' = trs) by by rewrite Hself'.
  assert (Hfix : states (set_state_positions self') = states self').
  { simpl. apply imap_with_pos_fixed. intros j s Hj. rewrite Hs in Hj. simpl in Hj.
    rewrite list_lookup_imap in Hj. destruct (states self !! j); [|done].
    simpl in Hj. by injection Hj as <-. }
  assert (Hagain : imapM (λ _ t, position_transition (build_id2pos (states self')) t) 0 trs
                   = Ret trs).
  { apply (imapM_again (position_transition (build_id2pos (states self')))
             (transitions (set_state_positions self)) trs);
      [apply position_transition_again|]. by rewrite Hs. }
  unfold set_transition_positions. cbv zeta. rewrite Hfix.
  change (transitions (set_state_positions self')) with (transitions self').
  rewrite Ht, Hagain.
  change (Ret (set_transitions (set_state_positions self') trs) = Ret self').
  f_equal. apply Impurity_ext; try reflexivity; [exact Hfix|by symmetry].
Qed.

Lemma position_indexer_idempotent_witness :
  ∃ self', set_transition_positions (set_state_positions ex_model) = Ret self'
    ∧ set_transition_positions (set_state_positions self') = Ret self'.
Proof.
  eexists. split; [vm_compute; reflexivity|].
  apply (position_indexer_idempotent ex_model). vm_compute. reflexivity.
Defined.



(** ** More on the initial densities *)

Lemma np_zeros2_shape (rows : nat) (cols : Z) (z : list (list Q)) :
  np_zeros2 rows cols = Ret z → has_shape rows (Z.to_nat cols) z.
Proof.
  unfold np_zeros2. destruct (cols <? 0); [discriminate|]. intros [= <-].
  split; [apply length_replicate|]. apply Forall_replicate, length_replicate.
Qed.

Lemma np_put_length (locs : list nat) :
  ∀ (row vals row' : list Q), np_put row locs vals = Ret row' → length row' = length row.
Proof.
  induction locs as [|p locs IH]; intros row vals row'; simpl.
  - by intros [= <-].
  - destruct vals as [|v vals]; [by intros [= <-]|].
    destruct (p <? length row)%nat; [|discriminate].
    intros Hput. apply IH in Hput. by rewrite length_insert in Hput.
Qed.

Lemma has_shape_insert (rows cols : nat) (d : list (list Q)) (i : nat) (row row' : list Q) :
  has_shape rows cols d → d !! i = Some row → length row' = length row →
  has_shape rows cols (<[i := row']> d).
Proof.
  intros [Hlen Hrows] Hi Hrow. split; [by rewrite length_insert|].
  apply Forall_insert; [done|]. rewrite Hrow.
  by apply (Forall_lookup_1 _ _ _ _ Hrows Hi).
Qed.

Lemma for_each_preserves {A S : Type} (body : A → S → result S) (Inv : S → Prop)
    (l : list A) :
  (∀ x s s', body x s = Ret s' → Inv s → Inv s') →
  ∀ s s', for_each body l s = Ret s' → Inv s → Inv s'.
Proof.
  intros Hbody. induction l as [|x l IH]; intros s s'; simpl.
  - by intros [= <-].
  - destruct (body x s) as [s1|e] eqn:Hx; simpl; [|discriminate].
    intros Hrun Hs. apply (IH s1 s' Hrun). by apply (Hbody x s s1).
Qed.

Section Shape.
Variable saha_dist : Q → Q → Q → Impurity → list Q.
Variable boltzmann_dist : Q → list Q → list Q → list Q.

Lemma boltzmann_fill_shape (self : Impurity) (Z_dens : list (list Q)) (ne Te : list Q)
    (k i rows cols : nat) (d d' : list (list Q)) :
  boltzmann_fill boltzmann_dist self Z_dens ne Te k i d = Ret d' →
  has_shape rows cols d → has_shape rows cols d'.
Proof.
  unfold boltzmann_fill. cbv zeta. intros Hrun Hd.
  destruct (Z_dens !! i) as [zrow|]; simpl in Hrun; [|discriminate].
  destruct (zrow !! k) as [zl|]; simpl in Hrun; [|discriminate].
  destruct (Te !! i) as [te|]; simpl in Hrun; [|discriminate].
  destruct (ne !! i) as [ne_i|]; simpl in Hrun; [|discriminate].
  destruct (d !! i) as [row|] eqn:Hi; simpl in Hrun; [|discriminate].
  destruct (np_fit _ _) as [vals|]; simpl in Hrun; [|discriminate].
  destruct (np_put row _ vals) as [row1|] eqn:Hput; simpl in Hrun; [|discriminate].
  apply np_put_length in Hput.
  destruct (Py.truthy (fixed_fraction_init self)).
  - destruct (np_take row1 _) as [cur|]; simpl in Hrun; [|discriminate].
    destruct (Py.mul_np_float _ _) as [c|]; simpl in Hrun; [|discriminate].
    destruct (np_put row1 _ _) as [row2|] eqn:Hput2; simpl in Hrun; [|discriminate].
    apply np_put_length in Hput2. injection Hrun as <-.
    apply (has_shape_insert rows cols d i row row2); [done|done|congruence].
  - simpl in Hrun. injection Hrun as <-.
    by apply (has_shape_insert rows cols d i row row1).
Qed.

Lemma saha_boltzmann_fill_shape (self : Impurity) (Z_dens : list (list Q)) (ne Te : list Q)
    (rows cols : nat) (d d' : list (list Q)) :
  saha_boltzmann_fill boltzmann_dist self Z_dens ne Te d = Ret d' →
  has_shape rows cols d → has_shape rows cols d'.
Proof.
  unfold saha_boltzmann_fill.
  apply (for_each_preserves _ (has_shape rows cols)). intros k d1 d2.
  apply (for_each_preserves _ (has_shape rows cols)). intros i d3 d4.
  apply boltzmann_fill_shape.
Qed.

Lemma np_fit_length (n : nat) (vals vs : list Q) :
  np_fit n vals = Ret vs → length vs = n.
Proof.
  unfold np_fit. destruct (length vals =? n)%nat eqn:E.
  - intros [= <-]. by apply Nat.eqb_eq.
  - destruct vals as [|v [|w vals]]; try discriminate.
    intros [= <-]. apply length_replicate.
Qed.

Lemma set_column0_shape (c : Z) (rows cols : nat) (d d' : list (list Q)) (vals : list Q) :
  set_column0 c d vals = Ret d' → has_shape rows cols d → has_shape rows cols d'.
Proof.
  unfold set_column0. destruct (c =? 0); [discriminate|].
  destruct (np_fit (length d) vals) as [vs|] eqn:Hfit; simpl; [|discriminate].
  intros [= <-] [Hlen Hrows]. apply np_fit_length in Hfit. split.
  - rewrite length_zip_with. lia.
  - apply Forall_forall. intros row Hrow.
    apply list_elem_of_lookup in Hrow as [i Hi].
    apply lookup_zip_with_Some in Hi as (r & v & -> & Hr & _).
    rewrite length_insert. by apply (Forall_lookup_1 _ _ _ _ Hrows Hr).
Qed.

Lemma allocate_dens_arrays (self self' : Impurity) (ne : list Q) :
  allocate_dens self ne = Ret self' →
  (if Py.truthy (kinetic_electrons self)
   then ∃ d, dens self' = Some d ∧ has_shape (length ne) (Z.to_nat (tot_states self)) d
   else dens self' = dens self)
  ∧ (if Py.truthy (maxwellian_electrons self)
     then ∃ d, dens_Max self' = Some d
               ∧ has_shape (length ne) (Z.to_nat (tot_states self)) d
     else dens_Max self' = dens_Max self).
Proof.
  unfold allocate_dens.
  destruct (np_zeros2 (length ne) (tot_states self)) as [z|e] eqn:Hz.
  - pose proof (np_zeros2_shape _ _ _ Hz) as Hshape.
    destruct (Py.truthy (kinetic_electrons self)); simpl;
      destruct (Py.truthy (maxwellian_electrons self)); simpl;
      rewrite ?Hz; simpl; intros [= <-]; simpl; split; try done; by exists z.
  - destruct (Py.truthy (kinetic_electrons self)); simpl; [discriminate|].
    destruct (Py.truthy (maxwellian_electrons self)); simpl;
      rewrite ?Hz; simpl; [discriminate|]. by intros [= <-].
Qed.

Lemma saha_boltzmann_branch_arrays (self self' : Impurity) (ne Te : list Q)
    (rows cols : nat) :
  saha_boltzmann_branch saha_dist boltzmann_dist self ne Te = Ret self' →
  array_filled rows cols (kinetic_electrons self) (dens self) (dens self')
  ∧ array_filled rows cols (maxwellian_electrons self) (dens_Max self) (dens_Max self').
Proof.
  unfold saha_boltzmann_branch, array_filled. cbv zeta.
  change (dens (set_state_positions self)) with (dens self).
  change (dens_Max (set_state_positions self)) with (dens_Max self).
  change (kinetic_electrons (set_state_positions self)) with (kinetic_electrons self).
  change (maxwellian_electrons (set_state_positions self))
    with (maxwellian_electrons self).
  destruct (saha_rows _ _ _ _) as [Z_dens|]; simpl; [|discriminate].
  intros Hrun.
  destruct (match dens self with Some d => _ | None => _ end) as [d1|] eqn:H1;
    simpl in Hrun; [|discriminate].
  destruct (match dens_Max self with Some d => _ | None => _ end) as [d2|] eqn:H2;
    simpl in Hrun; [|discriminate].
  injection Hrun as <-. simpl. split.
  - destruct (Py.truthy (kinetic_electrons self)).
    + intros d Hd Hshape. rewrite Hd in H1.
      destruct (saha_boltzmann_fill _ _ _ _ _ d) as [d'|] eqn:Hfill;
        simpl in H1; [|discriminate].
      injection H1 as <-. exists d'. split; [done|].
      by apply (saha_boltzmann_fill_shape _ _ _ _ _ _ _ _ Hfill).
    + destruct (dens self); by injection H1 as <-.
  - destruct (Py.truthy (maxwellian_electrons self)).
    + intros d Hd Hshape. rewrite Hd in H2.
      destruct (saha_boltzmann_fill _ _ _ _ _ d) as [d'|] eqn:Hfill;
        simpl in H2; [|discriminate].
      injection H2 as <-. exists d'. split; [done|].
      by apply (saha_boltzmann_fill_shape _ _ _ _ _ _ _ _ Hfill).
    + destruct (dens_Max self); by injection H2 as <-.
Qed.

Lemma first_state_branch_arrays (self self' : Impurity) (ne : list Q) (rows cols : nat) :
  first_state_branch self ne = Ret self' →
  array_filled rows cols (kinetic_electrons self) (dens self) (dens self')
  ∧ array_filled rows cols (maxwellian_electrons self) (dens_Max self) (dens_Max self').
Proof.
  unfold first_state_branch, array_filled. intros Hrun.
  destruct (match dens self with Some d => _ | None => _ end) as [d1|] eqn:H1;
    simpl in Hrun; [|discriminate].
  destruct (match dens_Max self with Some d => _ | None => _ end) as [d2|] eqn:H2;
    simpl in Hrun; [|discriminate].
  injection Hrun as <-. simpl. split.
  - destruct (Py.truthy (kinetic_electrons self)).
    + intros d Hd Hshape. rewrite Hd in H1.
      destruct (first_column self ne) as [c|]; simpl in H1; [|discriminate].
      destruct (set_column0 _ d c) as [d'|] eqn:Hset; simpl in H1; [|discriminate].
      injection H1 as <-. exists d'. split; [done|].
      by apply (set_column0_shape _ _ _ _ _ _ Hset).
    + destruct (dens self); by injection H1 as <-.
  - destruct (Py.truthy (maxwellian_electrons self)).
    + intros d Hd Hshape. rewrite Hd in H2.
      destruct (first_column self ne) as [c|]; simpl in H2; [|discriminate].
      destruct (set_column0 _ d c) as [d'|] eqn:Hset; simpl in H2; [|discriminate].
      injection H2 as <-. exists d'. split; [done|].
      by apply (set_column0_shape _ _ _ _ _ _ Hset).
    + destruct (dens_Max self); by injection H2 as <-.
Qed.

(** X17.  Whenever [init_dens] returns, on either branch, each array that is
    switched on has one row per profile sample and [tot_states] entries in
    every row; an array that is switched off is left as it was. *)
Theorem init_dens_shape (self self' : Impurity) (ne Te : list Q) :
  init_dens saha_dist boltzmann_dist self ne Te = Ret self' →
  (if Py.truthy (kinetic_electrons self)
   then ∃ d, dens self' = Some d ∧ has_shape (length ne) (Z.to_nat (tot_states self)) d
   else dens self' = dens self)
  ∧ (if Py.truthy (maxwellian_electrons self)
     then ∃ d, dens_Max self' = Some d
               ∧ has_shape (length ne) (Z.to_nat (tot_states self)) d
     else dens_Max self' = dens_Max self).
Proof.
  unfold init_dens. intros Hrun.
  destruct (allocate_dens self ne) as [self1|] eqn:Ha; simpl in Hrun; [|discriminate].
  destruct (allocate_dens_settings _ _ _ Ha) as (_ & _ & _ & Hkin & Hmax & _).
  destruct (allocate_dens_arrays _ _ _ Ha) as [Hd HdM].
  assert (Hbranch :
    array_filled (length ne) (Z.to_nat (tot_states self))
      (kinetic_electrons self1) (dens self1) (dens self')
    ∧ array_filled (length ne) (Z.to_nat (tot_states self))
        (maxwellian_electrons self1) (dens_Max self1) (dens_Max self')).
  { destruct (Py.truthy (saha_boltzmann_init self1)).
    - by apply (saha_boltzmann_branch_arrays self1 self' ne Te).
    - by apply (first_state_branch_arrays self1 self' ne). }
  destruct Hbranch as [Hb HbM]. unfold array_filled in Hb, HbM.
  rewrite Hkin in Hb. rewrite Hmax in HbM. split.
  - destruct (Py.truthy (kinetic_electrons self)).
    + destruct Hd as (d & Hd1 & Hshape). by apply (Hb d).
    + congruence.
  - destruct (Py.truthy (maxwellian_electrons self)).
    + destruct HdM as (d & Hd1 & Hshape). by apply (HbM d).
    + congruence.
Qed.

(** X18.  Without states ([tot_states] is 0) the first-state branch with
    kinetic electrons cannot assign column 0: [init_dens] raises
    [IndexError], unless computing [frac_imp_dens * ne] has failed before. *)
Theorem init_dens_no_states (self : Impurity) (ne Te : list Q) :
  Py.truthy (saha_boltzmann_init self) = false →
  Py.truthy (kinetic_electrons self) = true →
  tot_states self = 0 →
  init_dens saha_dist boltzmann_dist self ne Te
  = match first_column self ne with
    | Ret _ => Raise IndexError
    | Raise e => Raise e
    end.
Proof.
  intros Hsaha Hkin Htot. unfold init_dens.
  destruct (allocate_dens self ne) as [self1|e] eqn:Ha.
  - destruct (allocate_dens_settings _ _ _ Ha)
      as (Hsaha1 & Hff1 & Hfrac1 & Hkin1 & _ & Htot1 & _).
    destruct (allocate_dens_arrays _ _ _ Ha) as [Hd _]. rewrite Hkin in Hd.
    destruct Hd as (d & Hd1 & _). simpl.
    rewrite Hsaha1, Hsaha. unfold first_state_branch. rewrite Hd1, Hkin1, Hkin.
    assert (Hcol : first_column self1 ne = first_column self ne).
    { unfold first_column. by rewrite Hff1, Hfrac1. }
    rewrite Hcol. destruct (first_column self ne) as [c|e]; simpl; [|done].
    unfold set_column0. by rewrite Htot1, Htot.
  - exfalso. unfold allocate_dens in Ha. rewrite Hkin in Ha.
    unfold np_zeros2 in Ha. rewrite Htot in Ha. simpl in Ha.
    destruct (Py.truthy (maxwellian_electrons self)); [|discriminate].
    rewrite Htot in Ha. discriminate.
Qed.

End Shape.

Lemma init_dens_shape_witness :
  ∃ self', init_dens ex_saha ex_boltz ex_model_saha ex_ne ex_Te = Ret self'
    ∧ (if Py.truthy (kinetic_electrons ex_model_saha)
       then ∃ d, dens self' = Some d
                 ∧ has_shape (length ex_ne) (Z.to_nat (tot_states ex_model_saha)) d
       else dens self' = dens ex_model_saha)
    ∧ (if Py.truthy (maxwellian_electrons ex_model_saha)
       then ∃ d, dens_Max self' = Some d
                 ∧ has_shape (length ex_ne) (Z.to_nat (tot_states ex_model_saha)) d
       else dens_Max self' = dens_Max ex_model_saha).
Proof.
  eexists. split; [vm_compute; reflexivity|].
  apply (init_dens_shape ex_saha ex_boltz ex_model_saha _ ex_ne ex_Te).
  vm_compute. reflexivity.
Defined.

Lemma init_dens_no_states_witness :
  init_dens ex_saha ex_boltz ex_model_empty ex_ne ex_Te
  = match first_column ex_model_empty ex_ne with
    | Ret _ => Raise IndexError
    | Raise e => Raise e
    end.
Proof.
  apply (init_dens_no_states ex_saha ex_boltz ex_model_empty ex_ne ex_Te);
    vm_compute; reflexivity.
Defined.

Lemma init_dens_first_state_witness :
  ∃ self', init_dens ex_saha ex_boltz ex_model_plain ex_ne ex_Te = Ret self'
    ∧ dens self'
      = Some ((λ x, (if Py.truthy (fixed_fraction_init ex_model_plain)
                     then (1 # 100) * x else 1)%Q
                    :: replicate (Z.to_nat (tot_states ex_model_plain) - 1) 0%Q)
                <$> ex_ne).
Proof.
  apply (init_dens_first_state ex_saha ex_boltz ex_model_plain ex_ne ex_Te (1 # 100));
    vm_compute; reflexivity.
Defined.

Lemma imapM_Ret_lookup {A B} (f : nat → A → result B) (l : list A) :
  ∀ i0 l', imapM f i0 l = Ret l' →
  ∀ i x, l !! i = Some x → ∃ y, f (i0 + i)%nat x = Ret y.
Proof.
  induction l as [|x0 l IH]; intros i0 l' Hrun i x Hi; [done|].
  simpl in Hrun. destruct (f i0 x0) as [y0|] eqn:H0; simpl in Hrun; [|discriminate].
  destruct (imapM f (S i0) l) as [k|] eqn:Hk; simpl in Hrun; [|discriminate].
  destruct i as [|i]; simpl in Hi.
  - injection Hi as <-. exists y0. by rewrite Nat.add_0_r.
  - destruct (IH (S i0) k Hk i x Hi) as [y Hy]. exists y.
    by replace (i0 + S i)%nat with (S i0 + i)%nat by lia.
Qed.

(** X20.  The Saha-Boltzmann branch reads [Te[i]] for every sample [i] of
    [ne]: when [init_dens] returns on that branch, the temperature profile
    has at least as many samples as the density profile (with fewer, the
    call raises). *)
Theorem init_dens_saha_profiles saha_dist boltzmann_dist (self self' : Impurity)
    (ne Te : list Q) :
  Py.truthy (saha_boltzmann_init self) = true →
  init_dens saha_dist boltzmann_dist self ne Te = Ret self' →
  (length ne ≤ length Te)%nat.
Proof.
  intros Hsaha. unfold init_dens.
  destruct (allocate_dens self ne) as [self1|] eqn:Ha; simpl; [|discriminate].
  destruct (allocate_dens_settings _ _ _ Ha) as (-> & _). rewrite Hsaha.
  unfold saha_boltzmann_branch. cbv zeta.
  destruct (saha_rows _ _ _ _) as [Z_dens|] eqn:Hrows; simpl; [|discriminate].
  intros _. unfold saha_rows in Hrows.
  destruct (decide (length ne ≤ length Te)%nat) as [|Hlt]; [done|]. exfalso.
  destruct (lookup_lt_is_Some_2 ne (length Te)) as [x Hx]; [lia|].
  destruct (imapM_Ret_lookup _ _ _ _ Hrows _ _ Hx) as [y Hy]. simpl in Hy.
  by rewrite (lookup_ge_None_2 Te (length Te)) in Hy by lia.
Qed.

Lemma init_dens_saha_profiles_witness :
  ∃ self', init_dens ex_saha ex_boltz ex_model_saha ex_ne ex_Te = Ret self'
    ∧ (length ex_ne ≤ length ex_Te)%nat.
Proof.
  eexists. split; [vm_compute; reflexivity|].
  eapply (init_dens_saha_profiles ex_saha ex_boltz ex_model_saha);
    vm_compute; reflexivity.
Defined.
